(** * Anti-entropy synchronisation over BLE: a shallow embedding

    The development follows the TypeScript sources of the repository:

    - [src/CommunicationService.ts]  (module [CommunicationService]),
    - the service embedded in [src/realm.ts]  (module [RealmService]),
    - the one-shot service of [src/unnamed/part_000]  (module [OneShot]).

    JavaScript values that cross the wire are modelled by the inductive
    type [JsVal]; the Realm store is a list of typed [DisasterData]
    objects; stateful code is written in a small state-and-exception
    monad whose state carries the service fields, the store, the console
    and the trace of calls made to the radio. *)

From Stdlib Require Import ZArith List String Ascii Lia Bool Permutation.
From stdpp Require Import gmap strings list fin_maps.
Import ListNotations.

Local Open Scope string_scope.
Local Open Scope Z_scope.

(** ** JavaScript values *)

Module JS.

(** A finite JavaScript number is represented by the decimal literal that
    [Number.prototype.toString] prints for it (and that [JSON.parse] maps
    back to the same number).  Dates are milliseconds since the epoch. *)
Definition Number := string.
Definition Date := Z.
Definition ObjectId := string.

#[local] Unset Elimination Schemes.
Inductive JsVal : Type :=
| JUndefined
| JNull
| JBool (b : bool)
| JNum (lit : Number)
| JStr (s : string)
| JDate (ms : Date)
| JObjectId (hex : ObjectId)
| JArr (items : list JsVal)
| JObj (props : list (string * JsVal)).
#[local] Set Elimination Schemes.

Inductive Error : Type :=
| TypeError (msg : string)
| SyntaxError (msg : string)
| RangeError (msg : string)
| JsError (msg : string)
| BleError (msg : string).

Definition is_digit (c : ascii) : bool :=
  let n := N_of_ascii c in ((48 <=? n) && (n <=? 57))%N.

Definition is_nonzero_digit (c : ascii) : bool :=
  let n := N_of_ascii c in ((49 <=? n) && (n <=? 57))%N.

(** The mantissa of a literal is what precedes the exponent mark. *)
Fixpoint mantissa_is_zero (lit : string) : bool :=
  match lit with
  | EmptyString => true
  | String c rest =>
      if (Ascii.eqb c "e" || Ascii.eqb c "E")%char then true
      else if is_nonzero_digit c then false
      else mantissa_is_zero rest
  end.

(** [ToBoolean]. *)
Definition truthy (v : JsVal) : bool :=
  match v with
  | JUndefined | JNull => false
  | JBool b => b
  | JNum lit => negb (mantissa_is_zero lit)
  | JStr s => negb (String.eqb s "")
  | JDate _ | JObjectId _ | JArr _ | JObj _ => true
  end.

(** Own data properties of an object; a key written twice keeps the value
    written last. *)
Fixpoint own_prop (props : list (string * JsVal)) (k : string) : option JsVal :=
  match props with
  | [] => None
  | (k', v) :: rest =>
      match own_prop rest k with
      | Some w => Some w
      | None => if String.eqb k' k then Some v else None
      end
  end.

(** [v[k]]: reading a property of [undefined] or [null] throws; a property
    that is not an own data property of an object reads as [undefined]. *)
Definition get (v : JsVal) (k : string) : Error + JsVal :=
  match v with
  | JUndefined | JNull => inl (TypeError "Cannot read properties of undefined or null")
  | JObj props => inr (default JUndefined (own_prop props k))
  | _ => inr JUndefined
  end.

End JS.
Export JS.

(** ** Dates and their ISO-8601 form *)

Module DateTime.

Definition msPerDay : Z := 86400000.

(** Proleptic Gregorian calendar, days counted from 1970-01-01. *)
Definition civil_from_days (z : Z) : Z * Z * Z :=
  let z := z + 719468 in
  let era := z / 146097 in
  let doe := z mod 146097 in
  let yoe := (doe - doe / 1460 + doe / 36524 - doe / 146096) / 365 in
  let doy := doe - (365 * yoe + yoe / 4 - yoe / 100) in
  let mp := (5 * doy + 2) / 153 in
  let d := doy - (153 * mp + 2) / 5 + 1 in
  let m := if mp <? 10 then mp + 3 else mp - 9 in
  let y := yoe + era * 400 in
  (if m <=? 2 then y + 1 else y, m, d).

Definition days_from_civil (y m d : Z) : Z :=
  let y := if m <=? 2 then y - 1 else y in
  let era := y / 400 in
  let yoe := y mod 400 in
  let mp := if 2 <? m then m - 3 else m + 9 in
  let doy := (153 * mp + 2) / 5 + d - 1 in
  let doe := yoe * 365 + yoe / 4 - yoe / 100 + doy in
  era * 146097 + doe - 719468.

Definition digit_char (d : Z) : ascii := ascii_of_N (48 + Z.to_N (d mod 10)).

(** [pad w n]: the last [w] decimal digits of [n], most significant first. *)
Fixpoint pad (w : nat) (n : Z) (k : string) : string :=
  match w with
  | O => k
  | S w' => pad w' (n / 10) (String (digit_char n) k)
  end.

Definition year_string (y : Z) (k : string) : string :=
  if (0 <=? y) && (y <=? 9999) then pad 4 y k
  else String (if y <? 0 then "-"%char else "+"%char) (pad 6 (Z.abs y) k).

(** The time value range of a JavaScript [Date]. *)
Definition valid_time (t : Z) : Prop := -8640000000000000 <= t <= 8640000000000000.

(** [Date.prototype.toISOString] (also [toJSON]):
    [YYYY-MM-DDTHH:mm:ss.sssZ], with a signed six-digit year outside
    0..9999. *)
Definition toISOString_k (t : Date) (k : string) : string :=
  let day := t / msPerDay in
  let ms := t mod msPerDay in
  let '(y, m, d) := civil_from_days day in
  let k := String "Z" k in
  let k := String "." (pad 3 (ms mod 1000) k) in
  let k := String ":" (pad 2 (ms / 1000 mod 60) k) in
  let k := String ":" (pad 2 (ms / 60000 mod 60) k) in
  let k := String "T" (pad 2 (ms / 3600000) k) in
  let k := String "-" (pad 2 d k) in
  let k := String "-" (pad 2 m k) in
  year_string y k.

Definition toISOString (t : Date) : string := toISOString_k t "".

(** Reading [w] decimal digits. *)
Fixpoint read_digits (w : nat) (acc : Z) (s : string) : option (Z * string) :=
  match w with
  | O => Some (acc, s)
  | S w' =>
      match s with
      | String c rest =>
          if is_digit c
          then read_digits w' (10 * acc + (Z.of_N (N_of_ascii c) - 48)) rest
          else None
      | EmptyString => None
      end
  end.

Definition expect (c : ascii) (s : string) : option string :=
  match s with
  | String c' rest => if Ascii.eqb c c' then Some rest else None
  | EmptyString => None
  end.

Definition read_year (s : string) : option (Z * string) :=
  match s with
  | String c rest =>
      if Ascii.eqb c "+" then read_digits 6 0 rest
      else if Ascii.eqb c "-" then
        match read_digits 6 0 rest with
        | Some (y, rest') => if y =? 0 then None else Some (- y, rest')
        | None => None
        end
      else read_digits 4 0 s
  | EmptyString => None
  end.

(** [Date.parse] on the date-time form that [toISOString] produces: the
    fields are range-checked (month 1..12, day 1..31, 24:00:00.000 being
    the only use of hour 24) and the time value is clipped to the valid
    range.  Other spellings of a date are not recognised by this model and
    read as an invalid date. *)
Definition parse (s : string) : option Date :=
  '(y, s) ← read_year s;
  s ← expect "-" s;
  '(m, s) ← read_digits 2 0 s;
  s ← expect "-" s;
  '(d, s) ← read_digits 2 0 s;
  s ← expect "T" s;
  '(hh, s) ← read_digits 2 0 s;
  s ← expect ":" s;
  '(mi, s) ← read_digits 2 0 s;
  s ← expect ":" s;
  '(ss, s) ← read_digits 2 0 s;
  s ← expect "." s;
  '(ms, s) ← read_digits 3 0 s;
  s ← expect "Z" s;
  if negb (String.eqb s "") then None
  else if negb ((1 <=? m) && (m <=? 12) && (1 <=? d) && (d <=? 31)) then None
  else if negb ((hh <=? 23) && (mi <=? 59) && (ss <=? 59)
                || (hh =? 24) && (mi =? 0) && (ss =? 0) && (ms =? 0)) then None
  else
    let t := days_from_civil y m d * msPerDay
             + hh * 3600000 + mi * 60000 + ss * 1000 + ms in
    if (-8640000000000000 <=? t) && (t <=? 8640000000000000) then Some t else None.

End DateTime.

(** ** JSON text *)

Module JSON.

Definition dquote : ascii := Eval cbv in ascii_of_N 34.
Definition backslash : ascii := Eval cbv in ascii_of_N 92.

Definition hex_char (n : N) : ascii :=
  if (n <? 10)%N then ascii_of_N (48 + n) else ascii_of_N (87 + n).

Definition hex_value (c : ascii) : option N :=
  let n := N_of_ascii c in
  if ((48 <=? n) && (n <=? 57))%N then Some (n - 48)%N
  else if ((97 <=? n) && (n <=? 102))%N then Some (n - 87)%N
  else if ((65 <=? n) && (n <=? 70))%N then Some (n - 55)%N
  else None.

(** [QuoteJSONString], one code unit at a time: the two-character escapes,
    [\u00xx] for the other control characters, the character itself
    otherwise.  [k] is the text that follows. *)
Definition quote_char (c : ascii) (k : string) : string :=
  let n := N_of_ascii c in
  if (n =? 34)%N then String backslash (String dquote k)
  else if (n =? 92)%N then String backslash (String backslash k)
  else if (n =? 8)%N then String backslash (String "b" k)
  else if (n =? 9)%N then String backslash (String "t" k)
  else if (n =? 10)%N then String backslash (String "n" k)
  else if (n =? 12)%N then String backslash (String "f" k)
  else if (n =? 13)%N then String backslash (String "r" k)
  else if (n <? 32)%N then
    String backslash (String "u" (String "0" (String "0"
      (String (hex_char (n / 16)) (String (hex_char (n mod 16)) k)))))
  else String c k.

Fixpoint quote_chars (s : string) (k : string) : string :=
  match s with
  | EmptyString => k
  | String c rest => quote_char c (quote_chars rest k)
  end.

Definition quote (s : string) (k : string) : string :=
  String dquote (quote_chars s (String dquote k)).

(** [SerializeJSONProperty]: a [Date] and an [ObjectId] are replaced by
    what their [toJSON] returns, [undefined] is printed as [null] inside an
    array and its property is left out of an object. *)
Fixpoint write_value (v : JsVal) (k : string) {struct v} : string :=
  match v with
  | JUndefined | JNull => String "n" (String "u" (String "l" (String "l" k)))
  | JBool true => String "t" (String "r" (String "u" (String "e" k)))
  | JBool false => String "f" (String "a" (String "l" (String "s" (String "e" k))))
  | JNum lit => lit +:+ k
  | JStr s => quote s k
  | JDate t => quote (DateTime.toISOString t) k
  | JObjectId hex => quote hex k
  | JArr items =>
      String "["
        ((fix elements (pending : bool) (vs : list JsVal) {struct vs} : string :=
            match vs with
            | [] => String "]" k
            | v :: vs' =>
                let body := write_value v (elements true vs') in
                if pending then String "," body else body
            end) false items)
  | JObj props =>
      String "{"
        ((fix members (pending : bool) (ps : list (string * JsVal)) {struct ps} : string :=
            match ps with
            | [] => String "}" k
            | (name, JUndefined) :: ps' => members pending ps'
            | (name, v) :: ps' =>
                let body := quote name (String ":" (write_value v (members true ps'))) in
                if pending then String "," body else body
            end) false props)
  end.

(** [JSON.stringify(v)]; the result is [undefined] for [undefined]. *)
Definition stringify (v : JsVal) : option string :=
  match v with
  | JUndefined => None
  | _ => Some (write_value v "")
  end.

(** *** Reading JSON text *)

Definition is_ws (c : ascii) : bool :=
  let n := N_of_ascii c in ((n =? 32) || (n =? 9) || (n =? 10) || (n =? 13))%N.

Fixpoint skip_ws (s : string) : string :=
  match s with
  | String c rest => if is_ws c then skip_ws rest else s
  | EmptyString => EmptyString
  end.

Definition is_num_char (c : ascii) : bool :=
  is_digit c || Ascii.eqb c "-" || Ascii.eqb c "+" || Ascii.eqb c "."
  || Ascii.eqb c "e" || Ascii.eqb c "E".

(** The longest prefix made of characters that can occur in a number. *)
Fixpoint span_num (s : string) : string * string :=
  match s with
  | String c rest =>
      if is_num_char c
      then let '(tok, rest') := span_num rest in (String c tok, rest')
      else (EmptyString, s)
  | EmptyString => (EmptyString, EmptyString)
  end.

Fixpoint skip_digits (s : string) : string :=
  match s with
  | String c rest => if is_digit c then skip_digits rest else s
  | EmptyString => EmptyString
  end.

Definition digits1 (s : string) : option string :=
  match s with
  | String c rest => if is_digit c then Some (skip_digits rest) else None
  | EmptyString => None
  end.

Definition number_exp (s : string) : bool :=
  match s with
  | EmptyString => true
  | String c rest =>
      if Ascii.eqb c "e" || Ascii.eqb c "E" then
        let rest :=
          match rest with
          | String sg rest' => if Ascii.eqb sg "+" || Ascii.eqb sg "-" then rest' else rest
          | EmptyString => rest
          end in
        match digits1 rest with
        | Some EmptyString => true
        | _ => false
        end
      else false
  end.

Definition number_frac (s : string) : bool :=
  match s with
  | String c rest =>
      if Ascii.eqb c "." then
        match digits1 rest with
        | Some rest' => number_exp rest'
        | None => false
        end
      else number_exp s
  | EmptyString => true
  end.

(** The JSON grammar of numbers: an optional minus sign; an integer part
    that is 0 or starts with a non-zero digit; an optional fraction (a dot
    and at least one digit); an optional exponent (e or E, an optional
    sign, at least one digit). *)
Definition valid_number (lit : string) : bool :=
  let body :=
    match lit with
    | String c rest => if Ascii.eqb c "-" then rest else lit
    | EmptyString => lit
    end in
  match body with
  | String c rest =>
      if Ascii.eqb c "0" then number_frac rest
      else if is_nonzero_digit c then number_frac (skip_digits rest)
      else false
  | EmptyString => false
  end.

(** UTF-8 bytes of a 16-bit code unit given by a [\u] escape (a surrogate
    is encoded on its own). *)
Definition utf8_of_unit (u : N) (k : string) : string :=
  if (u <? 128)%N then String (ascii_of_N u) k
  else if (u <? 2048)%N then
    String (ascii_of_N (192 + u / 64)) (String (ascii_of_N (128 + u mod 64)) k)
  else
    String (ascii_of_N (224 + u / 4096))
      (String (ascii_of_N (128 + (u / 64) mod 64))
         (String (ascii_of_N (128 + u mod 64)) k)).

Definition unescape (c : ascii) : option ascii :=
  if Ascii.eqb c dquote then Some dquote
  else if Ascii.eqb c backslash then Some backslash
  else if Ascii.eqb c "/" then Some "/"%char
  else if Ascii.eqb c "b" then Some (ascii_of_N 8)
  else if Ascii.eqb c "t" then Some (ascii_of_N 9)
  else if Ascii.eqb c "n" then Some (ascii_of_N 10)
  else if Ascii.eqb c "f" then Some (ascii_of_N 12)
  else if Ascii.eqb c "r" then Some (ascii_of_N 13)
  else None.

(** The characters of a string literal after its opening quote, up to the
    closing quote; an unescaped control character is a syntax error. *)
Fixpoint parse_string_body (s : string) : option (string * string) :=
  match s with
  | EmptyString => None
  | String c rest =>
      if Ascii.eqb c dquote then Some (EmptyString, rest)
      else if Ascii.eqb c backslash then
        match rest with
        | EmptyString => None
        | String e rest1 =>
            if Ascii.eqb e "u" then
              match rest1 with
              | String h1 (String h2 (String h3 (String h4 rest2))) =>
                  match hex_value h1, hex_value h2, hex_value h3, hex_value h4 with
                  | Some a, Some b, Some c', Some d =>
                      match parse_string_body rest2 with
                      | Some (str, rest3) =>
                          Some (utf8_of_unit (((a * 16 + b) * 16 + c') * 16 + d)%N str, rest3)
                      | None => None
                      end
                  | _, _, _, _ => None
                  end
              | _ => None
              end
            else
              match unescape e with
              | Some ch =>
                  match parse_string_body rest1 with
                  | Some (str, rest2) => Some (String ch str, rest2)
                  | None => None
                  end
              | None => None
              end
        end
      else if (N_of_ascii c <? 32)%N then None
      else
        match parse_string_body rest with
        | Some (str, rest1) => Some (String c str, rest1)
        | None => None
        end
  end.

Fixpoint expect_all (word : string) (s : string) : option string :=
  match word with
  | EmptyString => Some s
  | String c word' =>
      match s with
      | String c' rest => if Ascii.eqb c c' then expect_all word' rest else None
      | EmptyString => None
      end
  end.

(** Recursive descent; [fuel] bounds the number of nested calls and the
    length of the text is always enough. *)
Fixpoint parse_value (fuel : nat) (s : string) {struct fuel} : option (JsVal * string) :=
  match fuel with
  | O => None
  | S n =>
      match skip_ws s with
      | EmptyString => None
      | String c rest =>
          if Ascii.eqb c "{" then
            match skip_ws rest with
            | String c' rest' =>
                if Ascii.eqb c' "}" then Some (JObj [], rest')
                else
                  match parse_members n rest with
                  | Some (ps, rest'') => Some (JObj ps, rest'')
                  | None => None
                  end
            | EmptyString => None
            end
          else if Ascii.eqb c "[" then
            match skip_ws rest with
            | String c' rest' =>
                if Ascii.eqb c' "]" then Some (JArr [], rest')
                else
                  match parse_elements n rest with
                  | Some (vs, rest'') => Some (JArr vs, rest'')
                  | None => None
                  end
            | EmptyString => None
            end
          else if Ascii.eqb c dquote then
            match parse_string_body rest with
            | Some (str, rest') => Some (JStr str, rest')
            | None => None
            end
          else if Ascii.eqb c "t" then
            match expect_all "rue" rest with
            | Some rest' => Some (JBool true, rest')
            | None => None
            end
          else if Ascii.eqb c "f" then
            match expect_all "alse" rest with
            | Some rest' => Some (JBool false, rest')
            | None => None
            end
          else if Ascii.eqb c "n" then
            match expect_all "ull" rest with
            | Some rest' => Some (JNull, rest')
            | None => None
            end
          else
            let '(tok, rest') := span_num (String c rest) in
            if valid_number tok then Some (JNum tok, rest') else None
      end
  end
with parse_elements (fuel : nat) (s : string) {struct fuel} : option (list JsVal * string) :=
  match fuel with
  | O => None
  | S n =>
      match parse_value n s with
      | Some (v, rest) =>
          match skip_ws rest with
          | String c rest' =>
              if Ascii.eqb c "," then
                match parse_elements n rest' with
                | Some (vs, rest'') => Some (v :: vs, rest'')
                | None => None
                end
              else if Ascii.eqb c "]" then Some ([v], rest')
              else None
          | EmptyString => None
          end
      | None => None
      end
  end
with parse_members (fuel : nat) (s : string) {struct fuel} : option (list (string * JsVal) * string) :=
  match fuel with
  | O => None
  | S n =>
      match skip_ws s with
      | String q rest =>
          if Ascii.eqb q dquote then
            match parse_string_body rest with
            | Some (name, rest1) =>
                match skip_ws rest1 with
                | String c rest2 =>
                    if Ascii.eqb c ":" then
                      match parse_value n rest2 with
                      | Some (v, rest3) =>
                          match skip_ws rest3 with
                          | String c' rest4 =>
                              if Ascii.eqb c' "," then
                                match parse_members n rest4 with
                                | Some (ps, rest5) => Some ((name, v) :: ps, rest5)
                                | None => None
                                end
                              else if Ascii.eqb c' "}" then Some ([(name, v)], rest4)
                              else None
                          | EmptyString => None
                          end
                      | None => None
                      end
                    else None
                | EmptyString => None
                end
            | None => None
            end
          else None
      | EmptyString => None
      end
  end.

(** [JSON.parse(text)]: the value, or a [SyntaxError]. *)
Definition parse (text : string) : Error + JsVal :=
  match parse_value (String.length text) text with
  | Some (v, rest) =>
      match skip_ws rest with
      | EmptyString => inr v
      | _ => inl (SyntaxError "Unexpected non-whitespace character after JSON")
      end
  | None => inl (SyntaxError "Unexpected token in JSON")
  end.

(** *** What reading gives back *)

(** The elements and the members of [write_value], on their own. *)
Definition write_elements (k : string) : bool -> list JsVal -> string :=
  fix elements (pending : bool) (vs : list JsVal) {struct vs} : string :=
    match vs with
    | [] => String "]" k
    | v :: vs' =>
        let body := write_value v (elements true vs') in
        if pending then String "," body else body
    end.

Definition write_members (k : string) : bool -> list (string * JsVal) -> string :=
  fix members (pending : bool) (ps : list (string * JsVal)) {struct ps} : string :=
    match ps with
    | [] => String "}" k
    | (name, JUndefined) :: ps' => members pending ps'
    | (name, v) :: ps' =>
        let body := quote name (String ":" (write_value v (members true ps'))) in
        if pending then String "," body else body
    end.

(** The value that the text of [v] denotes: dates and object ids have
    become strings, [undefined] has become [null] in arrays and has taken
    its property away from objects. *)
Fixpoint toJSON (v : JsVal) : JsVal :=
  match v with
  | JUndefined | JNull => JNull
  | JBool b => JBool b
  | JNum lit => JNum lit
  | JStr s => JStr s
  | JDate t => JStr (DateTime.toISOString t)
  | JObjectId hex => JStr hex
  | JArr items => JArr (List.map toJSON items)
  | JObj props =>
      JObj ((fix members (ps : list (string * JsVal)) {struct ps} : list (string * JsVal) :=
               match ps with
               | [] => []
               | (name, JUndefined) :: ps' => members ps'
               | (name, v) :: ps' => (name, toJSON v) :: members ps'
               end) props)
  end.

Definition toJSON_members : list (string * JsVal) -> list (string * JsVal) :=
  fix members (ps : list (string * JsVal)) {struct ps} : list (string * JsVal) :=
    match ps with
    | [] => []
    | (name, JUndefined) :: ps' => members ps'
    | (name, v) :: ps' => (name, toJSON v) :: members ps'
    end.

(** Every number in the value is a number of the JSON grammar. *)
Fixpoint serialisable (v : JsVal) : bool :=
  match v with
  | JNum lit => valid_number lit
  | JArr items => forallb serialisable items
  | JObj props => forallb (fun p => serialisable (snd p)) props
  | _ => true
  end.

(** Strings made of characters of numbers, and texts that cannot
    continue a number. *)
Fixpoint number_chars (s : string) : bool :=
  match s with
  | EmptyString => true
  | String c rest => is_num_char c && number_chars rest
  end.

Definition terminated (k : string) : bool :=
  match k with
  | String c _ => negb (is_num_char c)
  | EmptyString => true
  end.

(** A bound on the nested calls that reading the text of [v] takes. *)
Fixpoint size (v : JsVal) : nat :=
  match v with
  | JArr items => S (list_sum (List.map (fun v => S (size v)) items))
  | JObj props =>
      S (list_sum (List.map (fun p => match snd p with
                                      | JUndefined => O
                                      | _ => S (size (snd p))
                                      end) props))
  | _ => 1
  end.

Definition member_size (p : string * JsVal) : nat :=
  match snd p with
  | JUndefined => O
  | _ => S (size (snd p))
  end.

(** What it is for a value to be read back from its text, whatever text
    follows and with enough fuel. *)
Definition reads (v : JsVal) : Prop :=
  serialisable v = true ->
  forall (k : string) (fuel : nat),
    terminated k = true -> (size v <= fuel)%nat ->
    parse_value fuel (write_value v k) = Some (toJSON v, k).

End JSON.

(** ** Buffers and base64 *)

Module Buffer.

(** A JavaScript string is modelled by its UTF-8 bytes, so that
    [Buffer.from(s)] and [buf.toString('utf8')] keep the bytes as they
    are; what remains is the base64 text of a byte string. *)

Definition b64_char (n : N) : ascii :=
  if (n <? 26)%N then ascii_of_N (65 + n)
  else if (n <? 52)%N then ascii_of_N (71 + n)
  else if (n <? 62)%N then ascii_of_N (n - 4)
  else if (n =? 62)%N then "+"%char
  else "/"%char.

(** The value of a character of the alphabet; [-] and [_] of the URL-safe
    alphabet are accepted too. *)
Definition b64_value (c : ascii) : option N :=
  let n := N_of_ascii c in
  if ((65 <=? n) && (n <=? 90))%N then Some (n - 65)%N
  else if ((97 <=? n) && (n <=? 122))%N then Some (n - 71)%N
  else if ((48 <=? n) && (n <=? 57))%N then Some (n + 4)%N
  else if ((n =? 43) || (n =? 45))%N then Some 62%N
  else if ((n =? 47) || (n =? 95))%N then Some 63%N
  else None.

(** [buf.toString('base64')]. *)
Fixpoint toBase64 (bytes : string) : string :=
  match bytes with
  | EmptyString => EmptyString
  | String a EmptyString =>
      let a := N_of_ascii a in
      String (b64_char (a / 4)) (String (b64_char (a mod 4 * 16)) "==")
  | String a (String b EmptyString) =>
      let a := N_of_ascii a in
      let b := N_of_ascii b in
      String (b64_char (a / 4)) (String (b64_char (a mod 4 * 16 + b / 16))
        (String (b64_char (b mod 16 * 4)) "="))
  | String a (String b (String c rest)) =>
      let a := N_of_ascii a in
      let b := N_of_ascii b in
      let c := N_of_ascii c in
      String (b64_char (a / 4)) (String (b64_char (a mod 4 * 16 + b / 16))
        (String (b64_char (b mod 16 * 4 + c / 64)) (String (b64_char (c mod 64))
          (toBase64 rest))))
  end.

(** [base64clean]: what precedes the first [=], without the characters
    that are not in the alphabet. *)
Fixpoint sextets (s : string) : list N :=
  match s with
  | EmptyString => []
  | String c rest =>
      if Ascii.eqb c "=" then []
      else
        match b64_value c with
        | Some n => n :: sextets rest
        | None => sextets rest
        end
  end.

(** [toByteArray]: four characters give three bytes; two or three left
    over give one or two bytes and a single one is dropped. *)
Fixpoint bytes_of_sextets (l : list N) : string :=
  match l with
  | a :: b :: c :: d :: rest =>
      String (ascii_of_N (a * 4 + b / 16))
        (String (ascii_of_N (b mod 16 * 16 + c / 4))
           (String (ascii_of_N (c mod 4 * 64 + d)) (bytes_of_sextets rest)))
  | [a; b; c] =>
      String (ascii_of_N (a * 4 + b / 16))
        (String (ascii_of_N (b mod 16 * 16 + c / 4)) EmptyString)
  | [a; b] => String (ascii_of_N (a * 4 + b / 16)) EmptyString
  | _ => EmptyString
  end.

(** [Buffer.from(text, 'base64')]; it never throws. *)
Definition fromBase64 (text : string) : string := bytes_of_sextets (sextets text).

End Buffer.

(** ** Conversions used by the service *)

Module Convert.

Fixpoint read_nat (acc : Z) (count : Z) (s : string) : Z * Z * string :=
  match s with
  | String c rest =>
      if is_digit c
      then read_nat (10 * acc + (Z.of_N (N_of_ascii c) - 48)) (count + 1) rest
      else (acc, count, s)
  | EmptyString => (acc, count, s)
  end.

(** The integer part (truncation towards zero) of the number a literal
    denotes. *)
Definition number_trunc (lit : Number) : Z :=
  let '(negative, body) :=
    match lit with
    | String c rest => if Ascii.eqb c "-" then (true, rest) else (false, lit)
    | EmptyString => (false, lit)
    end in
  let '(int_part, _, after_int) := read_nat 0 0 body in
  let '(mant, frac_digits, after_frac) :=
    match after_int with
    | String c rest => if Ascii.eqb c "." then read_nat int_part 0 rest else (int_part, 0, after_int)
    | EmptyString => (int_part, 0, after_int)
    end in
  let exponent :=
    match after_frac with
    | String c rest =>
        if Ascii.eqb c "e" || Ascii.eqb c "E" then
          match rest with
          | String sg rest' =>
              if Ascii.eqb sg "-" then - (fst (fst (read_nat 0 0 rest')))
              else if Ascii.eqb sg "+" then fst (fst (read_nat 0 0 rest'))
              else fst (fst (read_nat 0 0 rest))
          | EmptyString => 0
          end
        else 0
    | EmptyString => 0
    end in
  let scale := exponent - frac_digits in
  let magnitude := if 0 <=? scale then mant * 10 ^ scale else mant / 10 ^ (- scale) in
  if negative then - magnitude else magnitude.

Definition time_clip (t : Z) : option Date :=
  if (-8640000000000000 <=? t) && (t <=? 8640000000000000) then Some t else None.

(** [new Date(v)]; [None] is the invalid date.  A string is read by
    [DateTime.parse]; an object or an array converts through its string
    form, which is not a date-time of the recognised form. *)
Definition new_Date (v : JsVal) : option Date :=
  match v with
  | JDate t => Some t
  | JUndefined => None
  | JNull => Some 0
  | JBool b => Some (if b then 1 else 0)
  | JNum lit => time_clip (number_trunc lit)
  | JStr s => DateTime.parse s
  | JObjectId _ | JArr _ | JObj _ => None
  end.

(** [a < b] for a date [a] that may be invalid and a valid date [b]:
    comparing with [NaN] is false. *)
Definition date_lt (a : option Date) (b : Date) : bool :=
  match a with
  | Some x => x <? b
  | None => false
  end.

End Convert.

(** ** The data model ([src/realm.ts]) *)

(** [class DisasterData extends Realm.Object], with the property types of
    its schema: objectId, string, double, double, string, string, date. *)
Record DisasterData : Type := {
  _id : ObjectId;
  deviceId : string;
  latitude : Number;
  longitude : Number;
  batteryLevel : string;
  batteryState : string;
  timestamp : Date
}.

(** The plain JavaScript object of a record (what [JSON.stringify] sees
    and what the application passes to [updateDeviceData]). *)
Definition toJS (record : DisasterData) : JsVal :=
  JObj [("_id", JObjectId (_id record));
        ("deviceId", JStr (deviceId record));
        ("latitude", JNum (latitude record));
        ("longitude", JNum (longitude record));
        ("batteryLevel", JStr (batteryLevel record));
        ("batteryState", JStr (batteryState record));
        ("timestamp", JDate (timestamp record))].

(** The object that [JSON.parse] yields from the text of a record: the id
    is its hexadecimal string and the timestamp its ISO-8601 string. *)
Definition wire (record : DisasterData) : JsVal :=
  JObj [("_id", JStr (_id record));
        ("deviceId", JStr (deviceId record));
        ("latitude", JNum (latitude record));
        ("longitude", JNum (longitude record));
        ("batteryLevel", JStr (batteryLevel record));
        ("batteryState", JStr (batteryState record));
        ("timestamp", JStr (DateTime.toISOString (timestamp record)))].

(** A record whose position is made of numbers of the JSON grammar and
    whose timestamp is in the range of a [Date]. *)
Definition valid_record (record : DisasterData) : Prop :=
  JSON.valid_number (latitude record) = true
  /\ JSON.valid_number (longitude record) = true
  /\ DateTime.valid_time (timestamp record).

(** ** The Realm store *)

(** How Realm converts a value that is not already of the property's type
    to an objectId or a date is left to the library: the development is
    parametric in it. *)
Class RealmCoercions : Type := {
  coerceObjectId : JsVal -> option ObjectId;
  coerceDate : JsVal -> option Date
}.

Module Realm.

Record t : Type := {
  isClosed : bool;
  objects : list DisasterData
}.

Section WithCoercions.
Context `{RealmCoercions}.

Definition asObjectId (v : JsVal) : option ObjectId :=
  match v with
  | JObjectId hex => Some hex
  | _ => coerceObjectId v
  end.

Definition asDate (v : JsVal) : option Date :=
  match v with
  | JDate ms => Some ms
  | _ => coerceDate v
  end.

Definition asString (v : JsVal) : option string :=
  match v with
  | JStr s => Some s
  | _ => None
  end.

Definition asDouble (v : JsVal) : option Number :=
  match v with
  | JNum lit => Some lit
  | _ => None
  end.

Definition prop (v : JsVal) (k : string) : JsVal :=
  match JS.get v k with
  | inr w => w
  | inl _ => JUndefined
  end.

(** Validation of a plain object against [DisasterData.schema]: every
    property is required. *)
Definition cast (v : JsVal) : option DisasterData :=
  match v with
  | JObj _ =>
      id ← asObjectId (prop v "_id");
      dev ← asString (prop v "deviceId");
      lat ← asDouble (prop v "latitude");
      lon ← asDouble (prop v "longitude");
      lvl ← asString (prop v "batteryLevel");
      bst ← asString (prop v "batteryState");
      ts ← asDate (prop v "timestamp");
      Some {| _id := id; deviceId := dev; latitude := lat; longitude := lon;
              batteryLevel := lvl; batteryState := bst; timestamp := ts |}
  | _ => None
  end.

Definition find_id (id : ObjectId) (r : t) : option DisasterData :=
  List.find (fun o => String.eqb (_id o) id) (objects r).

(** [realm.objectForPrimaryKey('DisasterData', key)]. *)
Definition objectForPrimaryKey (r : t) (key : JsVal) : Error + option DisasterData :=
  match asObjectId key with
  | Some id => inr (find_id id r)
  | None => inl (JsError "objectForPrimaryKey: the key is not an objectId")
  end.

(** [realm.create('DisasterData', value)]: the object is validated and
    added; an existing primary key is an error. *)
Definition create (r : t) (v : JsVal) : Error + t :=
  match cast v with
  | Some o =>
      match find_id (_id o) r with
      | Some _ => inl (JsError "create: an object with this primary key exists")
      | None => inr {| isClosed := isClosed r; objects := objects r ++ [o] |}
      end
  | None => inl (JsError "create: the value does not conform to the schema")
  end.

(** [realm.write(callback)]: a transaction; when the callback throws the
    transaction is cancelled and the error is thrown again. *)
Definition write (r : t) (callback : t -> Error + t) : Error + t :=
  if isClosed r then inl (JsError "Cannot access realm that has been closed")
  else callback r.

(** [realm.objects('DisasterData')]. *)
Definition all (r : t) : Error + list DisasterData :=
  if isClosed r then inl (JsError "Cannot access realm that has been closed")
  else inr (objects r).

(** The transaction run by [updateDeviceData] and [handleReceivedData]. *)
Definition insertIfAbsent (data : JsVal) (r : t) : Error + t :=
  match objectForPrimaryKey r (prop data "_id") with
  | inl e => inl e
  | inr (Some existingData) => inr r
  | inr None => create r data
  end.

End WithCoercions.

End Realm.

(** ** Summary Builder and Reconciliation Engine *)

Module Summary.

Record entry : Type := { timestamp : Date }.

(** The summary as the plain object that is serialised. *)
Definition toJS (summary : gmap string entry) : JsVal :=
  JObj (List.map (fun '(origin, e) => (origin, JObj [("timestamp", JDate (timestamp e))]))
                 (map_to_list summary)).

End Summary.

(** The body of the [forEach] of [generateDataSummary]. *)
Definition summary_step (summary : gmap string Summary.entry) (record : DisasterData)
  : gmap string Summary.entry :=
  match summary !! deviceId record with
  | None => <[deviceId record := {| Summary.timestamp := timestamp record |}]> summary
  | Some seen =>
      if Summary.timestamp seen <? timestamp record
      then <[deviceId record := {| Summary.timestamp := timestamp record |}]> summary
      else summary
  end.

(** The summary that [generateDataSummary] builds from the records that
    [realm.objects] returns. *)
Definition summary_of (data : list DisasterData) : gmap string Summary.entry :=
  fold_left summary_step data ∅.

(** The condition of the [forEach] of [getMissingDataFromRemote]:
    [!remoteSummary[record.deviceId] ||
     new Date(remoteSummary[record.deviceId].timestamp) < record.timestamp]. *)
Definition remote_lacks (remoteSummary : JsVal) (record : DisasterData) : Error + bool :=
  match JS.get remoteSummary (deviceId record) with
  | inl e => inl e
  | inr known =>
      if negb (truthy known) then inr true
      else
        match JS.get known "timestamp" with
        | inl e => inl e
        | inr ts => inr (Convert.date_lt (Convert.new_Date ts) (timestamp record))
        end
  end.

Fixpoint missing_loop (remoteSummary : JsVal) (myData recordsToSend : list DisasterData)
  : Error + list DisasterData :=
  match myData with
  | [] => inr recordsToSend
  | record :: rest =>
      match remote_lacks remoteSummary record with
      | inl e => inl e
      | inr true => missing_loop remoteSummary rest (recordsToSend ++ [record])
      | inr false => missing_loop remoteSummary rest recordsToSend
      end
  end.

(** What [getMissingDataFromRemote] returns for the records that
    [realm.objects] returns; [remoteSummary] is whatever [JSON.parse]
    produced. *)
Definition missing_for (remoteSummary : JsVal) (myData : list DisasterData)
  : Error + list DisasterData :=
  missing_loop remoteSummary myData [].

(** ** The radio ([react-native-ble-plx]) *)

Module Ble.

(** What a peer does when it is asked: each operation resolves or is
    rejected with an error; the two exchanges return the [value] of the
    characteristic (a base64 string or [null]). *)
Record Device : Type := {
  id : string;
  name : option string;
  connect : option Error;
  discoverAllServicesAndCharacteristics : option Error;
  writeSummary : Error + option string;
  writeData : option Error;
  readData : Error + option string;
  cancelConnection : option Error
}.

(** The local adapter: the answer of [manager.state()] and whether
    [manager.startDeviceScan] throws. *)
Record Adapter : Type := {
  state : Error + string;
  startDeviceScan : option Error
}.

(** Whether the scan asked of [startDeviceScan] starts (the call does not
    throw) and whether [manager.state()] answers [PoweredOn]. *)
Definition scan_starts (adapter : Adapter) : bool :=
  match startDeviceScan adapter with
  | None => true
  | Some _ => false
  end.

Definition powered_on (adapter : Adapter) : bool :=
  match state adapter with
  | inr answer => String.eqb answer "PoweredOn"
  | inl _ => false
  end.

(** The calls made to the radio, oldest first.  [ScanFailed] is the radio
    reporting, through the scan listener, that the scan has failed: that
    scan is over and scanning has to be started again. *)
Inductive Call : Type :=
| StartDeviceScan (started : bool)
| StopDeviceScan
| ScanFailed
| ManagerState
| Connect
| DiscoverAllServicesAndCharacteristics
| WriteCharacteristic (uuid payload : string)
| ReadCharacteristic (uuid : string)
| CancelConnection.

(** Scans started and neither stopped nor failed since. *)
Definition activeScans_step (n : nat) (c : Call) : nat :=
  match c with
  | StartDeviceScan true => S n
  | StopDeviceScan | ScanFailed => O
  | _ => n
  end.

Definition activeScans (trace : list Call) : nat := fold_left activeScans_step trace O.

Definition is_cancel (c : Call) : bool :=
  match c with CancelConnection => true | _ => false end.

Definition is_start (c : Call) : bool :=
  match c with StartDeviceScan _ => true | _ => false end.

Definition count (p : Call -> bool) (trace : list Call) : nat := length (List.filter p trace).

(** The calls of an exchange with a connected peer. *)
Definition is_session_call (c : Call) : bool :=
  match c with
  | Connect | DiscoverAllServicesAndCharacteristics
  | WriteCharacteristic _ _ | ReadCharacteristic _ => true
  | _ => false
  end.

End Ble.

(** ** State and effects *)

Inductive Level : Type := Log | Warn | Err.

(** The fields of the service object, the store it works on, the console
    and the calls made to the radio.  [localRealm] tells whether the field
    [this.localRealm] refers to the store ([true]) or is [null]. *)
Record State : Type := {
  isScanning : bool;
  localRealm : bool;
  deviceData : option JsVal;
  realm : Realm.t;
  console : list (Level * string);
  radio : list Ble.Call
}.

Definition with_isScanning (b : bool) (s : State) : State :=
  {| isScanning := b; localRealm := localRealm s; deviceData := deviceData s;
     realm := realm s; console := console s; radio := radio s |}.

Definition with_localRealm (b : bool) (s : State) : State :=
  {| isScanning := isScanning s; localRealm := b; deviceData := deviceData s;
     realm := realm s; console := console s; radio := radio s |}.

Definition with_deviceData (d : option JsVal) (s : State) : State :=
  {| isScanning := isScanning s; localRealm := localRealm s; deviceData := d;
     realm := realm s; console := console s; radio := radio s |}.

Definition with_realm (r : Realm.t) (s : State) : State :=
  {| isScanning := isScanning s; localRealm := localRealm s; deviceData := deviceData s;
     realm := r; console := console s; radio := radio s |}.

Definition with_console (c : list (Level * string)) (s : State) : State :=
  {| isScanning := isScanning s; localRealm := localRealm s; deviceData := deviceData s;
     realm := realm s; console := c; radio := radio s |}.

Definition with_radio (t : list Ble.Call) (s : State) : State :=
  {| isScanning := isScanning s; localRealm := localRealm s; deviceData := deviceData s;
     realm := realm s; console := console s; radio := t |}.

(** Computations that read and change the state and either return a value
    or throw. *)
Definition M (A : Type) : Type := State -> (Error + A) * State.

Definition ret {A} (a : A) : M A := fun s => (inr a, s).

Definition bind {A B} (m : M A) (k : A -> M B) : M B :=
  fun s =>
    match m s with
    | (inr a, s') => k a s'
    | (inl e, s') => (inl e, s')
    end.

Definition throw {A} (e : Error) : M A := fun s => (inl e, s).

Definition lift {A} (r : Error + A) : M A := fun s => (r, s).

Definition get : M State := fun s => (inr s, s).

Definition modify (f : State -> State) : M unit := fun s => (inr tt, f s).

(** [try { body } catch (error) { handler }]. *)
Definition try_catch {A} (body : M A) (handler : Error -> M A) : M A :=
  fun s =>
    match body s with
    | (inl e, s') => handler e s'
    | ok => ok
    end.

(** [try { body } finally { final }]: the final block always runs, and an
    error it throws replaces the outcome of the body. *)
Definition try_finally {A} (body : M A) (final : M unit) : M A :=
  fun s =>
    let '(r, s1) := body s in
    match final s1 with
    | (inr _, s2) => (r, s2)
    | (inl e, s2) => (inl e, s2)
    end.

(** A call to an [async] function whose promise is not awaited: its
    effects happen, an error it ends with is not seen by the caller. *)
Definition detach (m : M unit) : M unit :=
  fun s => (inr tt, snd (m s)).

#[global] Instance M_ret : MRet M := @ret.
#[global] Instance M_bind : MBind M := fun A B k m => bind m k.

Fixpoint forEach {A} (f : A -> M unit) (l : list A) : M unit :=
  match l with
  | [] => ret tt
  | x :: rest => f x;; forEach f rest
  end.

Definition console_log (msg : string) : M unit :=
  modify (fun s => with_console (console s ++ [(Log, msg)]) s).
Definition console_warn (msg : string) : M unit :=
  modify (fun s => with_console (console s ++ [(Warn, msg)]) s).
Definition console_error (msg : string) : M unit :=
  modify (fun s => with_console (console s ++ [(Err, msg)]) s).

Definition set_isScanning (b : bool) : M unit := modify (with_isScanning b).

Definition call (c : Ble.Call) : M unit :=
  modify (fun s => with_radio (radio s ++ [c]) s).

Definition settle (outcome : option Error) : M unit :=
  match outcome with
  | None => ret tt
  | Some e => throw e
  end.

(** Running a transaction on the store of the state. *)
Definition realm_write (callback : Realm.t -> Error + Realm.t) : M unit :=
  fun s =>
    match Realm.write (realm s) callback with
    | inr r => (inr tt, with_realm r s)
    | inl e => (inl e, s)
    end.

Definition SERVICE_UUID : string := "4A13A000-8A7E-46C9-809D-1E060417E45C".
Definition CHARACTERISTIC_UUID : string := "4A13A001-8A7E-46C9-809D-1E060417E45C".
Definition DATA_CHARACTERISTIC_UUID : string := "4A13A002-8A7E-46C9-809D-1E060417E45C".

(** ** Record Codec *)

(** [Buffer.from(JSON.stringify(v)).toString('base64')]. *)
Definition encode (v : JsVal) : Error + string :=
  match JSON.stringify v with
  | Some text => inr (Buffer.toBase64 text)
  | None => inl (TypeError "The first argument must be a string or a buffer")
  end.

(** [JSON.parse(Buffer.from(text, 'base64').toString('utf8'))]. *)
Definition decode (text : string) : Error + JsVal :=
  JSON.parse (Buffer.fromBase64 text).

Definition encodeBatch (records : list DisasterData) : Error + string :=
  encode (JArr (List.map toJS records)).

Definition decodeBatch (text : string) : Error + JsVal := decode text.

Definition encodeSummary (summary : gmap string Summary.entry) : Error + string :=
  encode (Summary.toJS summary).

Definition decodeSummary (text : string) : Error + JsVal := decode text.

(** ** The exchange with a peer *)

(** [generateDataSummary] and [getMissingDataFromRemote] are the same in
    the three services; [records] is the query [realm.objects(...)] on the
    store the service works on. *)
Definition generateDataSummary (records : M (list DisasterData))
  : M (gmap string Summary.entry) :=
  data ← records;
  mret (summary_of data).

Definition getMissingDataFromRemote (records : M (list DisasterData))
    (remoteSummary : JsVal) : M (list DisasterData) :=
  myData ← records;
  lift (missing_for remoteSummary myData).

(** The [try] block of [connectToDevice], the same in the three services
    up to the store that is queried ([records]), what is done with a
    received record ([ingest]) and what is written to the console once the
    services are discovered ([connected]: [realm.ts] writes nothing). *)
Definition exchange (records : M (list DisasterData)) (ingest : JsVal -> M unit)
    (connected : M unit) (device : Ble.Device) : M unit :=
  call Ble.Connect;;
  settle (Ble.connect device);;
  call Ble.DiscoverAllServicesAndCharacteristics;;
  settle (Ble.discoverAllServicesAndCharacteristics device);;
  connected;;
  localDataSummary ← generateDataSummary records;
  localSummaryBase64 ← lift (encodeSummary localDataSummary);
  call (Ble.WriteCharacteristic CHARACTERISTIC_UUID localSummaryBase64);;
  summaryValue ← lift (Ble.writeSummary device);
  match summaryValue with
  | None | Some EmptyString =>
      throw (JsError "Did not receive a summary from the remote device.")
  | Some remoteDataSummaryBase64 =>
      remoteDataSummary ← lift (decodeSummary remoteDataSummaryBase64);
      console_log "Received remote data summary:";;
      myMissingRecordsToSend ← getMissingDataFromRemote records remoteDataSummary;
      (if (0 <? length myMissingRecordsToSend)%nat then
         console_log "Sending records to remote device.";;
         dataToSendBase64 ← lift (encodeBatch myMissingRecordsToSend);
         call (Ble.WriteCharacteristic DATA_CHARACTERISTIC_UUID dataToSendBase64);;
         settle (Ble.writeData device)
       else mret tt);;
      call (Ble.ReadCharacteristic DATA_CHARACTERISTIC_UUID);;
      receivedValue ← lift (Ble.readData device);
      match receivedValue with
      | None | Some EmptyString => mret tt
      | Some receivedDataFromRemoteBase64 =>
          receivedDataFromRemote ← lift (decodeBatch receivedDataFromRemoteBase64);
          _ ← lift (JS.get receivedDataFromRemote "length");
          console_log "Received new records from remote device.";;
          match receivedDataFromRemote with
          | JArr items => forEach ingest items
          | _ => throw (TypeError "receivedDataFromRemote.forEach is not a function")
          end
      end
  end.

(** What the radio hands to the scan listener: an error, or a device
    (possibly [null]). *)
Inductive ScanResult : Type :=
| ScanError (error : Error)
| Scanned (device : option Ble.Device).

Definition has_name (device : Ble.Device) : bool :=
  match Ble.name device with
  | Some n => negb (String.eqb n "")
  | None => false
  end.

(** ** [src/CommunicationService.ts] *)

Module CommunicationService.

Section Service.
Context `{RealmCoercions} (adapter : Ble.Adapter).

Definition updateDeviceData (data : JsVal) : M unit :=
  modify (with_deviceData (Some data));;
  s ← get;
  if localRealm s && negb (Realm.isClosed (realm s))
  then realm_write (Realm.insertIfAbsent data)
  else mret tt.

Definition handleReceivedData (receivedData : JsVal) : M unit :=
  s ← get;
  if negb (truthy receivedData) then mret tt
  else
    origin ← lift (JS.get receivedData "deviceId");
    if negb (truthy origin) || Realm.isClosed (realm s) then mret tt
    else
      try_catch (realm_write (Realm.insertIfAbsent receivedData))
                (fun err => console_error "Realm write error").

(** [bgRealm.objects<DisasterData>('DisasterData')]. *)
Definition bgObjects : M (list DisasterData) :=
  s ← get;
  lift (Realm.all (realm s)).

(** [startBleCommunication], up to the registration of the listener. *)
Definition startBleCommunication : M unit :=
  s ← get;
  if isScanning s then mret tt
  else
    set_isScanning true;;
    try_catch
      (call (Ble.StartDeviceScan (Ble.scan_starts adapter));;
       settle (Ble.startDeviceScan adapter))
      (fun error =>
         console_error "An error occurred during startDeviceScan:";;
         set_isScanning false).

Definition connectToDevice (device : Ble.Device) : M unit :=
  console_log "Attempting to connect...";;
  try_finally
    (try_catch
       (exchange bgObjects handleReceivedData
          (console_log "Connected and discovered services") device)
       (fun error => console_error "Gossip protocol connection failed:"))
    (console_log "Attempting to disconnect...";;
     call Ble.CancelConnection;;
     settle (Ble.cancelConnection device);;
     console_log "Disconnected from device. Restarting scan.";;
     set_isScanning false;;
     detach startBleCommunication).

(** The listener given to [manager.startDeviceScan]. *)
Definition scanListener (result : ScanResult) : M unit :=
  match result with
  | ScanError error =>
      console_error "BLE Scan error:";;
      set_isScanning false
  | Scanned (Some device) =>
      if has_name device then
        console_log "Found BLE device";;
        call Ble.StopDeviceScan;;
        set_isScanning false;;
        detach (connectToDevice device)
      else mret tt
  | Scanned None => mret tt
  end.

(** One turn of the loop of the background task. *)
Definition loopIteration : M unit :=
  try_catch
    (console_log "Running gossip loop...";;
     call Ble.ManagerState;;
     state ← lift (Ble.state adapter);
     if String.eqb state "PoweredOn"
     then detach startBleCommunication
     else console_warn "Bluetooth is not powered on. Waiting...")
    (fun e => console_error "Background loop error:").

Definition stopBackgroundCommunication : M unit :=
  console_log "Stopping background communication service.";;
  call Ble.StopDeviceScan;;
  set_isScanning false.

End Service.

End CommunicationService.

(** The radio delivering a result to the listener of the running scan. *)
Definition deliver (listener : ScanResult -> M unit) (result : ScanResult) : M unit :=
  match result with
  | ScanError _ => call Ble.ScanFailed;; listener result
  | Scanned _ => listener result
  end.

(** ** The service of [src/realm.ts] *)

Module RealmService.

Section Service.
Context `{RealmCoercions} (adapter : Ble.Adapter).

Definition updateDeviceData (data : JsVal) : M unit :=
  modify (with_deviceData (Some data));;
  s ← get;
  if localRealm s
  then realm_write (Realm.insertIfAbsent data)
  else mret tt.

(** [startBackgroundCommunication(realmInstance)] keeps the store in
    [this.localRealm] and starts the background job. *)
Definition startBackgroundCommunication : M unit :=
  modify (with_localRealm true);;
  console_log "Starting background communication service.".

Definition handleReceivedData (receivedData : JsVal) : M unit :=
  s ← get;
  if negb (truthy receivedData) then mret tt
  else
    origin ← lift (JS.get receivedData "deviceId");
    if negb (truthy origin) || negb (localRealm s) then mret tt
    else realm_write (Realm.insertIfAbsent receivedData).

(** [this.localRealm!.objects(...)]. *)
Definition localObjects : M (list DisasterData) :=
  s ← get;
  if localRealm s then lift (Realm.all (realm s))
  else throw (TypeError "Cannot read properties of null (reading 'objects')").

(** [checkAndStartBleScan], up to the registration of the listener. *)
Definition checkAndStartBleScan : M unit :=
  try_catch
    (call Ble.ManagerState;;
     state ← lift (Ble.state adapter);
     if negb (String.eqb state "PoweredOn")
     then console_warn "Bluetooth is not powered on. Cannot start scan."
     else
       s ← get;
       if isScanning s then mret tt
       else
         set_isScanning true;;
         call (Ble.StartDeviceScan (Ble.scan_starts adapter));;
         settle (Ble.startDeviceScan adapter))
    (fun error => console_error "Error checking Bluetooth state:").

Definition connectToDevice (device : Ble.Device) : M unit :=
  console_log "Attempting to connect...";;
  try_finally
    (try_catch
       (exchange localObjects handleReceivedData (mret tt) device)
       (fun error => console_error "Gossip protocol connection failed:"))
    (call Ble.CancelConnection;;
     settle (Ble.cancelConnection device);;
     console_log "Disconnected from device. Restarting scan.";;
     set_isScanning false;;
     detach checkAndStartBleScan).

Definition scanListener (result : ScanResult) : M unit :=
  match result with
  | ScanError error =>
      console_error "BLE Scan error:";;
      set_isScanning false
  | Scanned (Some device) =>
      if has_name device then
        console_log "Found BLE device";;
        call Ble.StopDeviceScan;;
        set_isScanning false;;
        detach (connectToDevice device)
      else mret tt
  | Scanned None => mret tt
  end.

End Service.

End RealmService.

(** ** The one-shot service of [src/unnamed/part_000] *)

Module OneShot.

Section Service.
Context `{RealmCoercions} (adapter : Ble.Adapter).

(** The body of [updateDeviceData] is empty. *)
Definition updateDeviceData (data : JsVal) : M unit := mret tt.

Definition handleReceivedData (receivedData : JsVal) : M unit :=
  CommunicationService.handleReceivedData receivedData.

Definition startBleCommunication : M unit :=
  s ← get;
  if isScanning s then console_log "Scan already in progress."
  else
    set_isScanning true;;
    console_log "Starting device scan...";;
    try_catch
      (call (Ble.StartDeviceScan (Ble.scan_starts adapter));;
       settle (Ble.startDeviceScan adapter))
      (fun error =>
         console_error "An error occurred during startDeviceScan:";;
         set_isScanning false).

Definition startCommunication : M unit :=
  console_log "Starting Bluetooth communication.";;
  detach startBleCommunication.

Definition connectToDevice (device : Ble.Device) : M unit :=
  console_log "Attempting to connect...";;
  try_finally
    (try_catch
       (exchange CommunicationService.bgObjects handleReceivedData
          (console_log "Connected and discovered services") device)
       (fun error => console_error "Gossip protocol connection failed:"))
    (console_log "Attempting to disconnect...";;
     call Ble.CancelConnection;;
     settle (Ble.cancelConnection device);;
     console_log "Disconnected from device. Communication session complete.";;
     set_isScanning false).

Definition scanListener (result : ScanResult) : M unit :=
  match result with
  | ScanError error =>
      console_error "BLE Scan error:";;
      set_isScanning false
  | Scanned (Some device) =>
      if has_name device then
        console_log "Found BLE device. Stopping scan...";;
        call Ble.StopDeviceScan;;
        set_isScanning false;;
        detach (connectToDevice device)
      else mret tt
  | Scanned None => mret tt
  end.

End Service.

End OneShot.

(** ** Sample data *)

Module Sample.

(** A Realm that takes the wire form of an objectId (its hexadecimal
    string) and of a date (its ISO-8601 string). *)
Definition wire_coercions : RealmCoercions :=
  {| coerceObjectId := fun v => match v with JStr hex => Some hex | _ => None end;
     coerceDate := fun v => match v with JStr iso => DateTime.parse iso | _ => None end |}.

(** A Realm that takes only values of the property's own type. *)
Definition strict_coercions : RealmCoercions :=
  {| coerceObjectId := fun _ => None; coerceDate := fun _ => None |}.

Definition recordA : DisasterData :=
  {| _id := "65a1f0c2b7e4d3a291c0ffee"; deviceId := "A";
     latitude := "48.8566"; longitude := "2.3522";
     batteryLevel := "30%"; batteryState := "unplugged"; timestamp := 100 |}.

Definition recordA3 : DisasterData :=
  {| _id := "65a1f0c2b7e4d3a291c0fff0"; deviceId := "A";
     latitude := "48.8570"; longitude := "2.3530";
     batteryLevel := "29%"; batteryState := "unplugged"; timestamp := 300 |}.

Definition recordB : DisasterData :=
  {| _id := "65a1f0c2b7e4d3a291c0ffef"; deviceId := "B";
     latitude := "-33.8688"; longitude := "151.2093";
     batteryLevel := "80%"; batteryState := "charging"; timestamp := 200 |}.

(** A received object without position: [create] refuses it. *)
Definition incomplete : JsVal :=
  JObj [("_id", JStr "65a1f0c2b7e4d3a291c0aaaa"); ("deviceId", JStr "C")].

(** Received objects whose origin is absent, null and empty. *)
Definition no_origin : JsVal :=
  JObj [("_id", JStr "65a1f0c2b7e4d3a291c0bbbb"); ("latitude", JNum "1"); ("longitude", JNum "2");
        ("batteryLevel", JStr "50%"); ("batteryState", JStr "full");
        ("timestamp", JStr "2024-01-01T00:00:00.000Z")].

Definition empty_realm : Realm.t := {| Realm.isClosed := false; Realm.objects := [] |}.

Definition idle : State :=
  {| isScanning := false; localRealm := false; deviceData := None;
     realm := empty_realm; console := []; radio := [] |}.

Definition attached : State := with_localRealm true idle.

Definition holding (data : list DisasterData) : State :=
  with_realm {| Realm.isClosed := false; Realm.objects := data |} attached.

Definition powered : Ble.Adapter :=
  {| Ble.state := inr "PoweredOn"; Ble.startDeviceScan := None |}.


(** A peer that answers with an empty summary and pushes nothing back. *)
Definition quiet_peer : Ble.Device :=
  {| Ble.id := "AA:BB:CC:DD:EE:FF"; Ble.name := Some "peer";
     Ble.connect := None;
     Ble.discoverAllServicesAndCharacteristics := None;
     Ble.writeSummary := inr (Some "e30=");
     Ble.writeData := None;
     Ble.readData := inr None;
     Ble.cancelConnection := None |}.

(** A peer that answers with an empty summary and pushes a batch of two
    objects, the first of them without position. *)
Definition pushed_batch : list JsVal := [incomplete; wire recordB].

Definition pushed_text : string :=
  Eval vm_compute in
    match encode (JArr pushed_batch) with
    | inr text => text
    | inl _ => EmptyString
    end.

Definition pushing_peer : Ble.Device :=
  {| Ble.id := "AA:BB:CC:DD:EE:01"; Ble.name := Some "peer";
     Ble.connect := None;
     Ble.discoverAllServicesAndCharacteristics := None;
     Ble.writeSummary := inr (Some "e30=");
     Ble.writeData := None;
     Ble.readData := inr (Some pushed_text);
     Ble.cancelConnection := None |}.

(** A peer that cannot be reached. *)
Definition unreachable_peer : Ble.Device :=
  {| Ble.id := "AA:BB:CC:DD:EE:00"; Ble.name := Some "far";
     Ble.connect := Some (BleError "Device could not be connected");
     Ble.discoverAllServicesAndCharacteristics := None;
     Ble.writeSummary := inr None;
     Ble.writeData := None;
     Ble.readData := inr None;
     Ble.cancelConnection := None |}.

End Sample.

(** ** Vocabulary of the statements *)

(** A received object whose [deviceId] is absent, [null] or empty. *)
Definition origin_missing (receivedData : JsVal) : Prop :=
  exists props, receivedData = JObj props /\
    (own_prop props "deviceId" = None
     \/ own_prop props "deviceId" = Some JNull
     \/ own_prop props "deviceId" = Some (JStr "")).

(** The store of a state holds an object with this primary key. *)
Definition stored (id : ObjectId) (s : State) : Prop :=
  is_Some (Realm.find_id id (realm s)).

(** "After the call the local store contains a record with that id", for
    every record and every state. *)
Definition submit_always_stores (updateDeviceData : JsVal -> M unit) : Prop :=
  forall (record : DisasterData) (s : State),
    stored (_id record) (snd (updateDeviceData (toJS record) s)).

(** The store after one received object has gone through the Ingestion
    Gate: the effect of [handleReceivedData] on the store. *)
Definition ingested `{RealmCoercions} (receivedData : JsVal) (r : Realm.t) : Realm.t :=
  if negb (truthy receivedData) || negb (truthy (Realm.prop receivedData "deviceId"))
     || Realm.isClosed r
  then r
  else match Realm.insertIfAbsent receivedData r with
       | inr r' => r'
       | inl _ => r
       end.

(** The calls made to the radio between two states. *)
Definition added (s s' : State) : list Ble.Call := drop (length (radio s)) (radio s').

(** Nothing but calls of the exchange were made and the scanning flag is
    what it was. *)
Definition exchange_only (s s' : State) : Prop :=
  isScanning s' = isScanning s
  /\ exists calls, radio s' = (radio s ++ calls)%list
                   /\ forallb Ble.is_session_call calls = true.

(** [m] relates every state to the state it leaves. *)
Definition preserves {A} (R : State -> State -> Prop) (m : M A) : Prop :=
  forall s, R s (snd (m s)).

(** At most one scan is running, and none when the flag is clear. *)
Definition scanner_inv (s : State) : Prop :=
  (Ble.activeScans (radio s) <= 1)%nat
  /\ (isScanning s = false -> Ble.activeScans (radio s) = 0%nat).

(** The scanner of a service: the function that starts scanning and the
    listener it registers. *)
Record Scanner : Type := {
  start : Ble.Adapter -> M unit;
  listener : Ble.Adapter -> ScanResult -> M unit
}.

Definition CommunicationService_scanner `{RealmCoercions} : Scanner :=
  {| start := CommunicationService.startBleCommunication;
     listener := CommunicationService.scanListener |}.

Definition RealmService_scanner `{RealmCoercions} : Scanner :=
  {| start := RealmService.checkAndStartBleScan;
     listener := RealmService.scanListener |}.

Definition OneShot_scanner `{RealmCoercions} : Scanner :=
  {| start := OneShot.startBleCommunication;
     listener := fun _ => OneShot.scanListener |}.

(** What happens to a scanner: a call that starts scanning, or the radio
    delivering a result to the listener (a session started by the listener
    runs to its end before the next event). *)
Inductive ScannerEvent : Type :=
| StartCall (adapter : Ble.Adapter)
| Delivery (adapter : Ble.Adapter) (result : ScanResult).

Definition on_event (sc : Scanner) (s : State) (ev : ScannerEvent) : State :=
  match ev with
  | StartCall adapter => snd (start sc adapter s)
  | Delivery adapter result => snd (deliver (listener sc adapter) result s)
  end.

Definition run (sc : Scanner) (events : list ScannerEvent) (s : State) : State :=
  fold_left (on_event sc) events s.

(** "The radio connection is closed exactly once and the scanner is
    re-armed exactly once", for every device and every state. *)
Definition closes_and_rearms_once (connectToDevice : Ble.Device -> M unit) : Prop :=
  forall (device : Ble.Device) (s : State),
    let calls := added s (snd (connectToDevice device s)) in
    Ble.count Ble.is_cancel calls = 1%nat /\ Ble.count Ble.is_start calls = 1%nat.

(** "[decodeBatch(encodeBatch(b))] equals [b] field for field", for every
    valid batch. *)
Definition codec_round_trips_exactly : Prop :=
  forall batch : list DisasterData,
    Forall valid_record batch ->
    exists text, encodeBatch batch = inr text
                 /\ decodeBatch text = inr (JArr (List.map toJS batch)).

(** The summary of a peer as it arrives: every origin with the ISO-8601
    string of its latest timestamp. *)
Definition wire_entry (e : Summary.entry) : JsVal :=
  JObj [("timestamp", JStr (DateTime.toISOString (Summary.timestamp e)))].

Definition wire_summary (summary : gmap string Summary.entry) : JsVal :=
  JObj (List.map (fun p => (fst p, wire_entry (snd p))) (map_to_list summary)).

(** The records that the summary of the peer does not cover: the origin
    is not in it, or its timestamp there is strictly older. *)
Definition not_covered (remote : gmap string Summary.entry) (record : DisasterData) : bool :=
  match remote !! deviceId record with
  | None => true
  | Some known => Summary.timestamp known <? timestamp record
  end.

(** What the summary has for an origin is the latest timestamp among what
    it had and the records of that origin that were scanned. *)
Definition latest_of (summary : gmap string Summary.entry) (data : list DisasterData)
    (origin : string) (found : option Summary.entry) : Prop :=
  match found with
  | Some e =>
      (summary !! origin = Some e
       \/ exists record, In record data /\ deviceId record = origin
                         /\ timestamp record = Summary.timestamp e)
      /\ (forall record, In record data -> deviceId record = origin ->
                         timestamp record <= Summary.timestamp e)
      /\ (forall e0, summary !! origin = Some e0 ->
                     Summary.timestamp e0 <= Summary.timestamp e)
  | None =>
      summary !! origin = None
      /\ forall record, In record data -> deviceId record <> origin
  end.


(** ** Vocabulary of the further properties *)

(** The summary of a store as a peer reads it: built by
    [generateDataSummary] and encoded on one side of the connection,
    decoded on the other. *)
Definition advertise (records : M (list DisasterData)) : M JsVal :=
  localDataSummary ← generateDataSummary records;
  localSummaryBase64 ← lift (encodeSummary localDataSummary);
  lift (decodeSummary localSummaryBase64).


(** The value conforms to [DisasterData.schema]. *)
Definition conforms `{RealmCoercions} (v : JsVal) : bool :=
  match Realm.cast v with
  | Some _ => true
  | None => false
  end.

(** No two objects of the store have the same primary key. *)
Definition ids_unique (r : Realm.t) : Prop := NoDup (List.map _id (Realm.objects r)).

(** Between two states the service works on the same store, open or
    closed as it was and with the objects it held, in place (objects may
    have been added after them); primary keys that were unique still are;
    [this.localRealm] and [this.deviceData] are what they were. *)
Definition store_kept (s s' : State) : Prop :=
  localRealm s' = localRealm s
  /\ deviceData s' = deviceData s
  /\ Realm.isClosed (realm s') = Realm.isClosed (realm s)
  /\ (exists added, Realm.objects (realm s') = (Realm.objects (realm s) ++ added)%list)
  /\ (ids_unique (realm s) -> ids_unique (realm s')).

(** The calls that carry records: writing to and reading from the data
    characteristic. *)
Definition is_data_call (c : Ble.Call) : bool :=
  match c with
  | Ble.WriteCharacteristic uuid _ => String.eqb uuid DATA_CHARACTERISTIC_UUID
  | Ble.ReadCharacteristic _ => true
  | _ => false
  end.

(** The peer cannot be connected to, or its services cannot be
    discovered, or the write of the summary is rejected or returns a
    characteristic without a value. *)
Definition handshake_fails (device : Ble.Device) : bool :=
  match Ble.connect device, Ble.discoverAllServicesAndCharacteristics device,
        Ble.writeSummary device with
  | None, None, inr (Some text) => String.eqb text EmptyString
  | _, _, _ => true
  end.

(** Nothing was done to the store and no record was exchanged: the calls
    made to the radio are not calls on the data characteristic, and the
    console has only grown. *)
Definition nothing_exchanged (s s' : State) : Prop :=
  realm s' = realm s
  /\ localRealm s' = localRealm s
  /\ deviceData s' = deviceData s
  /\ (exists lines, console s' = (console s ++ lines)%list)
  /\ exists calls, radio s' = (radio s ++ calls)%list
                   /\ forallb (fun c => negb (is_data_call c)) calls = true.

(** The scanners of the three services. *)
Definition scanners `{RealmCoercions} : list Scanner :=
  [CommunicationService_scanner; RealmService_scanner; OneShot_scanner].

(** [m] always throws, and relates every state to the state it leaves. *)
Definition fails_within {A} (R : State -> State -> Prop) (m : M A) : Prop :=
  forall s, R s (snd (m s)) /\ exists e, fst (m s) = inl e.

(** [connectToDevice] in the three services. *)
Definition sessions `{RealmCoercions} (adapter : Ble.Adapter) : list (Ble.Device -> M unit) :=
  [CommunicationService.connectToDevice adapter;
   RealmService.connectToDevice adapter;
   OneShot.connectToDevice].

(** ** The background job and the beacons *)

(** [realm.close()] on the store of the state. *)
Definition realm_close : M unit :=
  modify (fun s => with_realm {| Realm.isClosed := true;
                                 Realm.objects := Realm.objects (realm s) |} s).

Module Background.

(** Calls made to [Beacons], to [beaconsEmitter] and to
    [PermissionsAndroid], and calls made to [BackgroundJob], oldest
    first. *)
Inductive BeaconCall : Type :=
| RequestPermission
| StartRanging
| StopRanging
| AddListener
| RemoveListener.

Inductive JobCall : Type :=
| JobStart
| JobStop.

(** What the platform answers: [Platform.OS], what
    [PermissionsAndroid.request] resolves to (or is rejected with), and
    whether [Beacons.startRangingBeaconsInRegion] throws. *)
Record Env : Type := {
  os : string;
  permission : Error + string;
  startRanging : option Error
}.

(** The service object of [State], with [this.beaconSubscription] (set or
    [null]) and the two traces. *)
Record t : Type := {
  service : State;
  beaconSubscription : bool;
  beacons : list BeaconCall;
  job : list JobCall
}.

(** The listeners of [beaconsDidRange] that are registered. *)
Definition listeners_step (n : nat) (c : BeaconCall) : nat :=
  match c with
  | AddListener => S n
  | RemoveListener => pred n
  | _ => n
  end.

Definition listeners (calls : list BeaconCall) : nat := fold_left listeners_step calls O.

(** [BackgroundJob.isRunning()]. *)
Definition isRunning (calls : list JobCall) : bool :=
  match last calls with
  | Some JobStart => true
  | _ => false
  end.

Definition with_service (s : State) (b : t) : t :=
  {| service := s; beaconSubscription := beaconSubscription b;
     beacons := beacons b; job := job b |}.

Definition with_beaconSubscription (sub : bool) (b : t) : t :=
  {| service := service b; beaconSubscription := sub;
     beacons := beacons b; job := job b |}.

Definition with_beacons (calls : list BeaconCall) (b : t) : t :=
  {| service := service b; beaconSubscription := beaconSubscription b;
     beacons := calls; job := job b |}.

Definition with_job (calls : list JobCall) (b : t) : t :=
  {| service := service b; beaconSubscription := beaconSubscription b;
     beacons := beacons b; job := calls |}.

(** Computations on this larger state. *)
Definition B (A : Type) : Type := t -> (Error + A) * t.

Definition ret {A} (a : A) : B A := fun b => (inr a, b).

Definition bind {A C} (m : B A) (k : A -> B C) : B C :=
  fun b =>
    match m b with
    | (inr a, b') => k a b'
    | (inl e, b') => (inl e, b')
    end.

Definition get : B t := fun b => (inr b, b).

Definition modify (f : t -> t) : B unit := fun b => (inr tt, f b).

(** A computation of the service, run on the service of the state. *)
Definition inService {A} (m : M A) : B A :=
  fun b => let '(r, s) := m (service b) in (r, with_service s b).

Definition try_catch {A} (body : B A) (handler : Error -> B A) : B A :=
  fun b =>
    match body b with
    | (inl e, b') => handler e b'
    | ok => ok
    end.

Definition detach (m : B unit) : B unit :=
  fun b => (inr tt, snd (m b)).

Definition beacon (c : BeaconCall) : B unit :=
  modify (fun b => with_beacons (beacons b ++ [c]) b).

Definition jobCall (c : JobCall) : B unit :=
  modify (fun b => with_job (job b ++ [c]) b).

#[local] Instance B_ret : MRet B := @ret.
#[local] Instance B_bind : MBind B := fun A C k m => bind m k.

(** *** [src/CommunicationService.ts] *)

Module OfCommunicationService.

Section Service.
Context `{RealmCoercions} (adapter : Ble.Adapter) (env : Env).

Definition startBeaconCommunication : B unit :=
  try_catch
    (let range : B unit :=
       beacon StartRanging;;
       inService (settle (startRanging env));;
       b ← get;
       if negb (beaconSubscription b)
       then beacon AddListener;; modify (with_beaconSubscription true)
       else mret tt in
     if String.eqb (os env) "android" then
       beacon RequestPermission;;
       granted ← inService (lift (permission env));
       if negb (String.eqb granted "granted")
       then inService (console_log "Location permission denied for beacons.")
       else range
     else range)
    (fun error => inService (console_error "Error with Beacon communication:")).

(** One turn of the [while] loop of the background task, entered when
    [BackgroundJob.isRunning()] holds. *)
Definition loopTurn : B unit :=
  try_catch
    (inService (console_log "Running gossip loop...");;
     inService (call Ble.ManagerState);;
     state ← inService (lift (Ble.state adapter));
     if String.eqb state "PoweredOn"
     then
       detach (inService (CommunicationService.startBleCommunication adapter));;
       detach startBeaconCommunication
     else inService (console_warn "Bluetooth is not powered on. Waiting..."))
    (fun e => inService (console_error "Background loop error:")).

(** The background task when it wakes up: the condition of the [while]
    loop, one turn of it, and the [finally] block once the loop is left
    (the store that the task opened is closed). *)
Definition taskWake : B unit :=
  b ← get;
  if isRunning (job b) then loopTurn
  else
    if negb (Realm.isClosed (realm (service b)))
    then inService realm_close
    else mret tt.

Definition startBackgroundCommunication : B unit :=
  inService (console_log "Starting background communication service.");;
  jobCall JobStart.

Definition stopBackgroundCommunication : B unit :=
  inService (console_log "Stopping background communication service.");;
  jobCall JobStop;;
  inService (call Ble.StopDeviceScan);;
  inService (set_isScanning false);;
  b ← get;
  (if beaconSubscription b
   then beacon RemoveListener;; modify (with_beaconSubscription false)
   else mret tt);;
  beacon StopRanging.

End Service.

End OfCommunicationService.

(** *** The service of [src/realm.ts] *)

Module OfRealmService.

Section Service.
Context `{RealmCoercions} (adapter : Ble.Adapter) (env : Env).

Definition startBeaconCommunication : B unit :=
  try_catch
    (let range : B unit :=
       beacon StartRanging;;
       inService (settle (startRanging env));;
       beacon AddListener in
     if String.eqb (os env) "android" then
       beacon RequestPermission;;
       granted ← inService (lift (permission env));
       if negb (String.eqb granted "granted")
       then inService (console_log "Location permission denied for beacons.")
       else range
     else range)
    (fun error => inService (console_error "Error with Beacon communication:")).

(** The callback that the background task gives to [setInterval]. *)
Definition tick : B unit :=
  inService (console_log "Running gossip loop...");;
  detach (inService (RealmService.checkAndStartBleScan adapter));;
  detach startBeaconCommunication.

Definition startBackgroundCommunication : B unit :=
  inService RealmService.startBackgroundCommunication;;
  jobCall JobStart.

Definition stopBackgroundCommunication : B unit :=
  inService (console_log "Stopping background communication service.");;
  jobCall JobStop;;
  b ← get;
  (if isScanning (service b)
   then inService (call Ble.StopDeviceScan);; inService (set_isScanning false)
   else mret tt);;
  beacon StopRanging.

End Service.

End OfRealmService.

End Background.

(** ** The application ([AppContent] in [src/realm.ts]) *)

Module App.

(** The readings held by the component: [gpsLocation], [deviceId] and
    [batteryStatus], each possibly [null] still. *)
Record Readings : Type := {
  gpsLocation : option (Number * Number);
  deviceId : option string;
  batteryStatus : option (string * string)
}.

Record t : Type := {
  comms : Background.t;
  isServiceRunning : bool;
  statusMessage : string
}.

(** [startCommsService]; [id] is the [new Realm.BSON.ObjectId()] and [now]
    the [new Date()] of the call. *)
Definition startCommsService `{RealmCoercions} (readings : Readings) (id : ObjectId)
    (now : Date) (app : t) : (Error + unit) * t :=
  let waiting :=
    (inr tt, {| comms := comms app; isServiceRunning := isServiceRunning app;
                statusMessage := "Waiting for all device data to be available..." |}) in
  match gpsLocation readings, deviceId readings, batteryStatus readings with
  | Some (lat, lon), Some origin, Some (level, state) =>
      if String.eqb origin EmptyString then waiting
      else
        let collectedData :=
          toJS (Build_DisasterData id origin lat lon level state now) in
        match Background.bind
                (Background.inService (RealmService.updateDeviceData collectedData))
                (fun _ => Background.OfRealmService.startBackgroundCommunication)
                (comms app) with
        | (inr _, b) =>
            (inr tt, {| comms := b; isServiceRunning := true;
                        statusMessage := "Background communication service started." |})
        | (inl e, b) =>
            (inl e, {| comms := b; isServiceRunning := isServiceRunning app;
                       statusMessage := statusMessage app |})
        end
  | _, _, _ => waiting
  end.

End App.

(** ** Vocabulary of the properties of the background job *)

(** What happens to the service in the background: the application starts
    or stops it, or the background task wakes up (the condition of the
    loop of [CommunicationService.ts], the callback of the interval of
    [realm.ts]). *)
Inductive BackgroundEvent : Type :=
| Started
| Stopped
| Woken (adapter : Ble.Adapter) (env : Background.Env).

Definition background_step (b : Background.t) (ev : BackgroundEvent)
  : Background.t :=
  match ev with
  | Started => snd (Background.OfCommunicationService.startBackgroundCommunication b)
  | Stopped => snd (Background.OfCommunicationService.stopBackgroundCommunication b)
  | Woken adapter env => snd (Background.OfCommunicationService.taskWake adapter env b)
  end.

Definition background_run (events : list BackgroundEvent)
    (b : Background.t) : Background.t :=
  fold_left background_step events b.

Definition embedded_step (b : Background.t) (ev : BackgroundEvent)
  : Background.t :=
  match ev with
  | Started => snd (Background.OfRealmService.startBackgroundCommunication b)
  | Stopped => snd (Background.OfRealmService.stopBackgroundCommunication b)
  | Woken adapter env => snd (Background.OfRealmService.tick adapter env b)
  end.

Definition embedded_run (events : list BackgroundEvent)
    (b : Background.t) : Background.t :=
  fold_left embedded_step events b.

(** One listener is registered when [this.beaconSubscription] is set,
    none when it is [null]. *)
Definition listener_inv (b : Background.t) : Prop :=
  Background.listeners (Background.beacons b)
  = if Background.beaconSubscription b then 1%nat else 0%nat.

(** The platform lets the beacons be ranged: the permission is granted
    where it is asked for, and [startRangingBeaconsInRegion] does not
    throw. *)
Definition ranging_allowed (env : Background.Env) : bool :=
  (negb (String.eqb (Background.os env) "android")
   || match Background.permission env with
      | inr granted => String.eqb granted "granted"
      | inl _ => false
      end)
  && match Background.startRanging env with
     | None => true
     | Some _ => false
     end.

(** The wake-ups of a list of events at which the beacons can be ranged. *)
Fixpoint rangings (events : list BackgroundEvent) : nat :=
  match events with
  | [] => O
  | Woken _ env :: rest => ((if ranging_allowed env then 1 else 0) + rangings rest)%nat
  | _ :: rest => rangings rest
  end.

(** A state of the background layer in which nothing was done yet. *)
Definition fresh (s : State) : Background.t :=
  {| Background.service := s; Background.beaconSubscription := false;
     Background.beacons := []; Background.job := [] |}.

(** * Properties *)

(** ** The store *)

Section RealmFacts.
Context `{RealmCoercions}.

Lemma cast_toJS (record : DisasterData) : Realm.cast (toJS record) = Some record.
Proof. destruct record; reflexivity. Qed.

Lemma cast_key (v : JsVal) (o : DisasterData) :
  Realm.cast v = Some o -> Realm.asObjectId (Realm.prop v "_id") = Some (_id o).
Proof.
  unfold Realm.cast. destruct v; try discriminate.
  destruct (Realm.asObjectId _) as [id|]; [|discriminate]. cbn.
  repeat (match goal with
          | |- context [?x ≫= _] => destruct x; cbn; [|discriminate]
          end).
  intros [= <-]. reflexivity.
Qed.

Lemma find_id_app (id : ObjectId) (r : Realm.t) (o : DisasterData) (closed : bool) :
  Realm.find_id id {| Realm.isClosed := closed; Realm.objects := Realm.objects r ++ [o] |}
  = match Realm.find_id id r with
    | Some x => Some x
    | None => if String.eqb (_id o) id then Some o else None
    end.
Proof.
  unfold Realm.find_id. cbn. induction (Realm.objects r) as [|x l IH]; cbn.
  - reflexivity.
  - destruct (String.eqb (_id x) id); [reflexivity | exact IH].
Qed.

(** What the transaction does: nothing when the key is there, one object
    appended when it is not. *)
Lemma insertIfAbsent_inv (v : JsVal) (r r' : Realm.t) :
  Realm.insertIfAbsent v r = inr r' ->
  (r' = r /\ exists id x, Realm.asObjectId (Realm.prop v "_id") = Some id
                          /\ Realm.find_id id r = Some x)
  \/ (exists o, Realm.cast v = Some o /\ Realm.find_id (_id o) r = None
                /\ r' = {| Realm.isClosed := Realm.isClosed r;
                           Realm.objects := Realm.objects r ++ [o] |}).
Proof.
  unfold Realm.insertIfAbsent, Realm.objectForPrimaryKey.
  destruct (Realm.asObjectId (Realm.prop v "_id")) as [id|] eqn:Hid; [|discriminate].
  destruct (Realm.find_id id r) as [x|] eqn:Hfind.
  - intros [= <-]. left. eauto.
  - unfold Realm.create. destruct (Realm.cast v) as [o|] eqn:Hcast; [|discriminate].
    destruct (Realm.find_id (_id o) r) eqn:Hfind'; [discriminate|].
    intros [= <-]. right. eauto.
Qed.

Lemma insertIfAbsent_present (v : JsVal) (r : Realm.t) (id : ObjectId) (x : DisasterData) :
  Realm.asObjectId (Realm.prop v "_id") = Some id ->
  Realm.find_id id r = Some x ->
  Realm.insertIfAbsent v r = inr r.
Proof.
  intros Hid Hfind. unfold Realm.insertIfAbsent, Realm.objectForPrimaryKey.
  rewrite Hid, Hfind. reflexivity.
Qed.

(** Running the transaction again on its own result changes nothing. *)
Lemma insertIfAbsent_again (v : JsVal) (r r' : Realm.t) :
  Realm.insertIfAbsent v r = inr r' -> Realm.insertIfAbsent v r' = inr r'.
Proof.
  intros Hins. destruct (insertIfAbsent_inv _ _ _ Hins) as [[-> _]|(o & Hcast & Hnone & ->)].
  - exact Hins.
  - eapply insertIfAbsent_present; [exact (cast_key _ _ Hcast)|].
    rewrite find_id_app, Hnone, String.eqb_refl. reflexivity.
Qed.

Lemma insertIfAbsent_extends (v : JsVal) (r r' : Realm.t) :
  Realm.insertIfAbsent v r = inr r' ->
  Realm.isClosed r' = Realm.isClosed r
  /\ exists added, Realm.objects r' = (Realm.objects r ++ added)%list.
Proof.
  intros Hins. destruct (insertIfAbsent_inv _ _ _ Hins) as [[-> _]|(o & _ & _ & ->)]; cbn.
  - split; [reflexivity|]. exists []. symmetry; apply app_nil_r.
  - split; [reflexivity|]. eauto.
Qed.

End RealmFacts.

(** ** Ingestion Gate *)

Ltac unfold_M :=
  unfold mbind, mret, M_bind, M_ret, bind, ret, throw, lift, get, modify, try_catch,
    try_finally, detach, settle, call, console_log, console_error, console_warn,
    set_isScanning, realm_write in *.

Section Ingestion.
Context `{RealmCoercions}.

(** The outcome of one call of [handleReceivedData] of
    [CommunicationService.ts], case by case. *)
Lemma handleReceivedData_cases (v : JsVal) (s : State) :
  CommunicationService.handleReceivedData v s =
    if negb (truthy v) || negb (truthy (Realm.prop v "deviceId")) || Realm.isClosed (realm s)
    then (inr tt, s)
    else match Realm.insertIfAbsent v (realm s) with
         | inr r => (inr tt, with_realm r s)
         | inl _ => (inr tt, with_console (console s ++ [(Err, "Realm write error")]) s)
         end.
Proof.
  unfold CommunicationService.handleReceivedData. unfold_M.
  destruct (truthy v) eqn:Hv; cbn; [|reflexivity].
  unfold Realm.prop.
  destruct (JS.get v "deviceId") as [e|origin] eqn:Hget.
  { destruct v; cbn in Hv, Hget; discriminate. }
  destruct (truthy origin); cbn; [|reflexivity].
  destruct (Realm.isClosed (realm s)) eqn:Hclosed; cbn; [reflexivity|].
  unfold Realm.write. rewrite Hclosed.
  destruct (Realm.insertIfAbsent v (realm s)); reflexivity.
Qed.

(** The same for the service of [realm.ts], where a failed write is
    thrown to the caller. *)
Lemma RealmService_handleReceivedData_cases (v : JsVal) (s : State) :
  RealmService.handleReceivedData v s =
    if negb (truthy v) || negb (truthy (Realm.prop v "deviceId")) || negb (localRealm s)
    then (inr tt, s)
    else match Realm.write (realm s) (Realm.insertIfAbsent v) with
         | inr r => (inr tt, with_realm r s)
         | inl e => (inl e, s)
         end.
Proof.
  unfold RealmService.handleReceivedData. unfold_M.
  destruct (truthy v) eqn:Hv; cbn; [|reflexivity].
  unfold Realm.prop.
  destruct (JS.get v "deviceId") as [e|origin] eqn:Hget.
  { destruct v; cbn in Hv, Hget; discriminate. }
  destruct (truthy origin); cbn; [|reflexivity].
  destruct (localRealm s) eqn:Hlocal; cbn; [|reflexivity].
  destruct (Realm.write (realm s) (Realm.insertIfAbsent v)); reflexivity.
Qed.

Lemma handleReceivedData_returns (v : JsVal) (s : State) :
  fst (CommunicationService.handleReceivedData v s) = inr tt.
Proof.
  rewrite handleReceivedData_cases.
  destruct (_ || _); [reflexivity|]. destruct (Realm.insertIfAbsent _ _); reflexivity.
Qed.

(** Every record of a batch is handed to [handleReceivedData], whatever
    happens to the others. *)
Lemma forEach_handleReceivedData (items : list JsVal) (s : State) :
  forEach CommunicationService.handleReceivedData items s
  = (inr tt, fold_left (fun s' v => snd (CommunicationService.handleReceivedData v s')) items s).
Proof.
  revert s. induction items as [|v items IH]; intros s; cbn.
  - reflexivity.
  - unfold mbind, M_bind, bind.
    pose proof (handleReceivedData_returns v s) as Hret.
    destruct (CommunicationService.handleReceivedData v s) as [[e|[]] s']; cbn in *.
    + discriminate.
    + apply IH.
Qed.

End Ingestion.


Lemma origin_missing_falsy (v : JsVal) :
  origin_missing v -> truthy v = true /\ truthy (Realm.prop v "deviceId") = false.
Proof.
  intros (props & -> & Hprop). split; [reflexivity|].
  unfold Realm.prop. cbn. destruct Hprop as [-> | [-> | ->]]; reflexivity.
Qed.

(** C10.  A received object whose [deviceId] is absent, [null] or empty is
    dropped by [handleReceivedData] (of [CommunicationService.ts] and of
    the one-shot service): the call returns and the whole state, the store
    included, is what it was, whatever the [_id] of the object. *)
Theorem ingestion_drops_record_without_origin `{RealmCoercions}
    (receivedData : JsVal) (s : State) :
  origin_missing receivedData ->
  CommunicationService.handleReceivedData receivedData s = (inr tt, s)
  /\ OneShot.handleReceivedData receivedData s = (inr tt, s).
Proof.
  intros Hmissing. destruct (origin_missing_falsy _ Hmissing) as [Hv Ho].
  assert (CommunicationService.handleReceivedData receivedData s = (inr tt, s)) as Hdrop.
  { rewrite handleReceivedData_cases, Hv, Ho. reflexivity. }
  split; [exact Hdrop | exact Hdrop].
Qed.

Lemma ingestion_drops_record_without_origin_witness :
  origin_missing Sample.no_origin
  /\ CommunicationService.handleReceivedData (H := Sample.wire_coercions) Sample.no_origin
       (Sample.holding [Sample.recordA])
     = (inr tt, Sample.holding [Sample.recordA]).
Proof.
  split.
  - exists [("_id", JStr "65a1f0c2b7e4d3a291c0bbbb"); ("latitude", JNum "1");
            ("longitude", JNum "2"); ("batteryLevel", JStr "50%");
            ("batteryState", JStr "full"); ("timestamp", JStr "2024-01-01T00:00:00.000Z")].
    split; [reflexivity | left; reflexivity].
  - apply (ingestion_drops_record_without_origin (H := Sample.wire_coercions)).
    exists [("_id", JStr "65a1f0c2b7e4d3a291c0bbbb"); ("latitude", JNum "1");
            ("longitude", JNum "2"); ("batteryLevel", JStr "50%");
            ("batteryState", JStr "full"); ("timestamp", JStr "2024-01-01T00:00:00.000Z")].
    split; [reflexivity | left; reflexivity].
Defined.

Section IngestionGate.
Context `{RealmCoercions}.

Lemma handleReceivedData_store (v : JsVal) (s : State) :
  realm (snd (CommunicationService.handleReceivedData v s)) = ingested v (realm s).
Proof.
  rewrite handleReceivedData_cases. unfold ingested.
  destruct (_ || _); [reflexivity|].
  destruct (Realm.insertIfAbsent v (realm s)); reflexivity.
Qed.

Lemma RealmService_handleReceivedData_store (v : JsVal) (s : State) :
  realm (snd (RealmService.handleReceivedData v s))
  = (if localRealm s then ingested v (realm s) else realm s)
  /\ localRealm (snd (RealmService.handleReceivedData v s)) = localRealm s.
Proof.
  rewrite RealmService_handleReceivedData_cases. unfold ingested, Realm.write.
  destruct (truthy v); cbn; [|destruct (localRealm s); split; reflexivity].
  destruct (truthy (Realm.prop v "deviceId")); cbn;
    [|destruct (localRealm s); split; reflexivity].
  destruct (localRealm s) eqn:Hl; cbn; [|split; [reflexivity | exact Hl]].
  destruct (Realm.isClosed (realm s)); cbn; [split; [reflexivity | exact Hl]|].
  destruct (Realm.insertIfAbsent v (realm s)); cbn; (split; [reflexivity | exact Hl]).
Qed.

Lemma ingested_present (v : JsVal) (r : Realm.t) (id : ObjectId) (x : DisasterData) :
  Realm.asObjectId (Realm.prop v "_id") = Some id ->
  Realm.find_id id r = Some x ->
  ingested v r = r.
Proof.
  intros Hid Hfind. unfold ingested. destruct (_ || _); [reflexivity|].
  rewrite (insertIfAbsent_present _ _ _ _ Hid Hfind). reflexivity.
Qed.

Lemma ingested_extends (v : JsVal) (r : Realm.t) :
  Realm.isClosed (ingested v r) = Realm.isClosed r
  /\ exists added, Realm.objects (ingested v r) = (Realm.objects r ++ added)%list.
Proof.
  unfold ingested.
  assert (Hnil : exists added, Realm.objects r = (Realm.objects r ++ added)%list).
  { exists []. symmetry. apply app_nil_r. }
  destruct (_ || _); [split; [reflexivity | exact Hnil]|].
  destruct (Realm.insertIfAbsent v r) as [e|r'] eqn:Hins; [split; [reflexivity | exact Hnil]|].
  exact (insertIfAbsent_extends _ _ _ Hins).
Qed.

Lemma ingested_idempotent (v : JsVal) (r : Realm.t) :
  ingested v (ingested v r) = ingested v r.
Proof.
  remember (ingested v r) as r1 eqn:Hr1. unfold ingested in *.
  destruct (negb (truthy v) || negb (truthy (Realm.prop v "deviceId"))) eqn:Hguard; cbn in *.
  { reflexivity. }
  destruct (Realm.isClosed r) eqn:Hc.
  { subst r1. rewrite Hc. reflexivity. }
  destruct (Realm.insertIfAbsent v r) as [e|r'] eqn:Hins.
  - subst r1. rewrite Hc, Hins. reflexivity.
  - subst r1. destruct (insertIfAbsent_extends _ _ _ Hins) as [-> _].
    rewrite Hc, (insertIfAbsent_again _ _ _ Hins). reflexivity.
Qed.

End IngestionGate.

(** C3.  Ingestion never changes an object that the store holds and is
    idempotent on the store, in [CommunicationService.ts] and in
    [realm.ts]: when an object with the key of the received record is
    there the store is left as it is; in every case the objects held
    before are still there, unchanged and in place; and ingesting the same
    record once more leaves the store as the first ingestion left it. *)
Theorem ingestion_idempotent `{RealmCoercions} (receivedData : JsVal) (s : State) :
  let once := snd (CommunicationService.handleReceivedData receivedData s) in
  let once' := snd (RealmService.handleReceivedData receivedData s) in
  (forall id existing,
      Realm.asObjectId (Realm.prop receivedData "_id") = Some id ->
      Realm.find_id id (realm s) = Some existing ->
      realm once = realm s /\ realm once' = realm s)
  /\ (exists added, Realm.objects (realm once) = (Realm.objects (realm s) ++ added)%list)
  /\ (exists added, Realm.objects (realm once') = (Realm.objects (realm s) ++ added)%list)
  /\ realm (snd (CommunicationService.handleReceivedData receivedData once)) = realm once
  /\ realm (snd (RealmService.handleReceivedData receivedData once')) = realm once'.
Proof.
  intros once once'. subst once once'.
  destruct (RealmService_handleReceivedData_store receivedData s) as [Hr Hl].
  destruct (RealmService_handleReceivedData_store receivedData
              (snd (RealmService.handleReceivedData receivedData s))) as [Hr' _].
  rewrite Hr', Hl, Hr, !handleReceivedData_store.
  split; [|split; [|split; [|split]]].
  - intros id existing Hid Hfind. rewrite (ingested_present _ _ _ _ Hid Hfind).
    destruct (localRealm s); split; reflexivity.
  - apply ingested_extends.
  - destruct (localRealm s); [apply ingested_extends|].
    exists []. symmetry. apply app_nil_r.
  - apply ingested_idempotent.
  - destruct (localRealm s); [apply ingested_idempotent | reflexivity].
Qed.

Lemma ingestion_idempotent_witness :
  let s := Sample.holding [Sample.recordA] in
  Realm.asObjectId (H := Sample.wire_coercions) (Realm.prop (wire Sample.recordA) "_id")
    = Some (_id Sample.recordA)
  /\ Realm.find_id (_id Sample.recordA) (realm s) = Some Sample.recordA
  /\ realm (snd (CommunicationService.handleReceivedData (H := Sample.wire_coercions)
                   (wire Sample.recordA) s)) = realm s
  /\ realm (snd (RealmService.handleReceivedData (H := Sample.wire_coercions)
                   (wire Sample.recordA) s)) = realm s.
Proof.
  intros s. split; [reflexivity|]. split; [reflexivity|].
  exact (proj1 (ingestion_idempotent (H := Sample.wire_coercions)
                  (wire Sample.recordA) s)
           (_id Sample.recordA) Sample.recordA eq_refl eq_refl).
Defined.


(** ** Best-effort ingestion of a batch *)

Section BestEffort.
Context `{RealmCoercions}.

Lemma forEach_handleReceivedData_store (items : list JsVal) (s : State) :
  realm (snd (forEach CommunicationService.handleReceivedData items s))
  = fold_left (fun r v => ingested v r) items (realm s).
Proof.
  rewrite forEach_handleReceivedData. cbn. revert s.
  induction items as [|v items IH]; intros s; cbn; [reflexivity|].
  rewrite IH, handleReceivedData_store. reflexivity.
Qed.

(** An object that [create] refuses never changes the store. *)
Lemma ingested_refused (v : JsVal) (r : Realm.t) :
  Realm.cast v = None -> ingested v r = r.
Proof.
  intros Hcast. unfold ingested. destruct (_ || _); [reflexivity|].
  destruct (Realm.insertIfAbsent v r) as [e|r'] eqn:Hins; [reflexivity|].
  destruct (insertIfAbsent_inv _ _ _ Hins) as [[-> _]|(o & Hcast' & _)]; [reflexivity|].
  congruence.
Qed.

(** In [CommunicationService.ts] (and the one-shot service) a record that
    the store refuses is logged and the records around it are ingested as
    if it had not been in the batch. *)
Lemma batch_is_best_effort (before after : list JsVal) (bad : JsVal) (s : State) :
  Realm.cast bad = None ->
  fst (forEach CommunicationService.handleReceivedData (before ++ bad :: after) s) = inr tt
  /\ realm (snd (forEach CommunicationService.handleReceivedData (before ++ bad :: after) s))
     = realm (snd (forEach CommunicationService.handleReceivedData (before ++ after) s)).
Proof.
  intros Hbad. split.
  - rewrite forEach_handleReceivedData. reflexivity.
  - rewrite !forEach_handleReceivedData_store, !fold_left_app. cbn.
    rewrite (ingested_refused _ _ Hbad). reflexivity.
Qed.

End BestEffort.

(** C7, on [realm.ts].  [handleReceivedData] of [realm.ts] has no
    [try]/[catch] around the write.  Whatever Realm converts, a batch
    whose first object lacks its position stops at that object with the
    error of the write: the store is as it was and the second object is
    never handed to [handleReceivedData], while [CommunicationService.ts]
    goes through the same batch to its end.  With a Realm that takes the
    wire form of ids and dates the second object is stored when it comes
    alone and [CommunicationService.ts] stores it from that batch and logs
    the first; in a session with a peer that pushes the batch,
    [realm.ts] ends with an empty store and the error caught by
    [connectToDevice], [CommunicationService.ts] with the second object
    stored. *)
Theorem RealmService_batch_stops_at_refused_record `{RealmCoercions} :
  (exists e, forEach RealmService.handleReceivedData Sample.pushed_batch Sample.attached
             = (inl e, Sample.attached))
  /\ fst (forEach CommunicationService.handleReceivedData Sample.pushed_batch Sample.attached)
     = inr tt
  /\ (let handle := RealmService.handleReceivedData (H := Sample.wire_coercions) in
      let sibling := CommunicationService.handleReceivedData (H := Sample.wire_coercions) in
      let session :=
        snd (RealmService.connectToDevice (H := Sample.wire_coercions)
               Sample.powered Sample.pushing_peer Sample.attached) in
      let session' :=
        snd (CommunicationService.connectToDevice (H := Sample.wire_coercions)
               Sample.powered Sample.pushing_peer Sample.attached) in
      decodeBatch Sample.pushed_text = inr (JArr Sample.pushed_batch)
      /\ Realm.objects (realm (snd (handle (wire Sample.recordB) Sample.attached)))
         = [Sample.recordB]
      /\ forEach handle Sample.pushed_batch Sample.attached
         = (inl (JsError "create: the value does not conform to the schema"), Sample.attached)
      /\ Realm.objects (realm (snd (forEach sibling Sample.pushed_batch Sample.attached)))
         = [Sample.recordB]
      /\ console (snd (forEach sibling Sample.pushed_batch Sample.attached))
         = [(Err, "Realm write error")]
      /\ Realm.objects (realm session) = []
      /\ List.filter (fun line => match fst line with Err => true | _ => false end)
           (console session)
         = [(Err, "Gossip protocol connection failed:")]
      /\ Realm.objects (realm session') = [Sample.recordB]
      /\ List.filter (fun line => match fst line with Err => true | _ => false end)
           (console session')
         = [(Err, "Realm write error")]).
Proof.
  split; [|split].
  - cbn. unfold RealmService.handleReceivedData. unfold_M. cbn.
    unfold realm_write, Realm.write, Realm.insertIfAbsent, Realm.objectForPrimaryKey. cbn.
    destruct (coerceObjectId _) as [id|]; cbn; [|eauto].
    assert (Realm.cast Sample.incomplete = None) as Hcast.
    { unfold Realm.cast. cbn. destruct (coerceObjectId _); reflexivity. }
    unfold Realm.create. rewrite Hcast. eauto.
  - rewrite forEach_handleReceivedData. reflexivity.
  - vm_compute. repeat split.
Qed.

(** ** [updateDeviceData] *)

Section Submit.
Context `{RealmCoercions}.

Lemma insertIfAbsent_toJS (record : DisasterData) (r : Realm.t) :
  Realm.insertIfAbsent (toJS record) r
  = inr (match Realm.find_id (_id record) r with
         | Some _ => r
         | None => {| Realm.isClosed := Realm.isClosed r;
                      Realm.objects := Realm.objects r ++ [record] |}
         end).
Proof.
  unfold Realm.insertIfAbsent, Realm.objectForPrimaryKey, Realm.create.
  rewrite cast_toJS. destruct record as [id dev lat lon lvl bst ts]. cbn.
  destruct (Realm.find_id id r); reflexivity.
Qed.

Lemma updateDeviceData_cases (record : DisasterData) (s : State) :
  Realm.isClosed (realm s) = false ->
  CommunicationService.updateDeviceData (toJS record) s
  = RealmService.updateDeviceData (toJS record) s
  /\ RealmService.updateDeviceData (toJS record) s
     = (inr tt,
        if localRealm s
        then with_realm (match Realm.find_id (_id record) (realm s) with
                         | Some _ => realm s
                         | None => {| Realm.isClosed := false;
                                      Realm.objects := Realm.objects (realm s) ++ [record] |}
                         end) (with_deviceData (Some (toJS record)) s)
        else with_deviceData (Some (toJS record)) s).
Proof.
  intros Hopen.
  unfold CommunicationService.updateDeviceData, RealmService.updateDeviceData. unfold_M.
  cbn -[toJS Realm.insertIfAbsent]. rewrite Hopen.
  destruct (localRealm s); cbn -[toJS Realm.insertIfAbsent]; [|split; reflexivity].
  unfold Realm.write. cbn -[toJS Realm.insertIfAbsent].
  rewrite Hopen, insertIfAbsent_toJS, Hopen. split; reflexivity.
Qed.

End Submit.

(** C8, as the code has it.  When the service holds a store that is open,
    [updateDeviceData] of [CommunicationService.ts] and of [realm.ts]
    leaves in it an object with the id of the record: the store is
    unchanged when there was one, the record is appended when there was
    none.  When [this.localRealm] is [null] the store is not touched and
    the record is only kept in [this.deviceData]. *)
Theorem updateDeviceData_stores_when_realm_attached `{RealmCoercions}
    (record : DisasterData) (s : State) :
  Realm.isClosed (realm s) = false ->
  let s1 := snd (CommunicationService.updateDeviceData (toJS record) s) in
  let s2 := snd (RealmService.updateDeviceData (toJS record) s) in
  s1 = s2
  /\ deviceData s1 = Some (toJS record)
  /\ (localRealm s = true ->
      stored (_id record) s1
      /\ (stored (_id record) s -> realm s1 = realm s)
      /\ (~ stored (_id record) s ->
          Realm.objects (realm s1) = (Realm.objects (realm s) ++ [record])%list))
  /\ (localRealm s = false -> realm s1 = realm s).
Proof.
  intros Hopen s1 s2. subst s1 s2.
  destruct (updateDeviceData_cases record s Hopen) as [-> ->]. cbn.
  split; [reflexivity|]. split; [destruct (localRealm s); reflexivity|].
  split.
  - intros ->. cbn. unfold stored. cbn.
    destruct (Realm.find_id (_id record) (realm s)) as [x|] eqn:Hfind.
    + split; [rewrite Hfind; eauto|]. split; [reflexivity|].
      intros Hnot. exfalso. apply Hnot. eauto.
    + split.
      * rewrite (find_id_app (_id record) (realm s) record false), Hfind, String.eqb_refl.
        eauto.
      * split; [|reflexivity]. intros [x Hx]. discriminate.
  - intros ->. reflexivity.
Qed.

Lemma updateDeviceData_stores_when_realm_attached_witness :
  Realm.isClosed (realm Sample.attached) = false
  /\ localRealm Sample.attached = true
  /\ stored (_id Sample.recordA)
       (snd (RealmService.updateDeviceData (H := Sample.strict_coercions)
               (toJS Sample.recordA) Sample.attached)).
Proof.
  split; [reflexivity|]. split; [reflexivity|].
  destruct (updateDeviceData_stores_when_realm_attached (H := Sample.strict_coercions)
              Sample.recordA Sample.attached eq_refl) as (Heq & _ & Hstored & _).
  cbv zeta in Heq. rewrite <- Heq. exact (proj1 (Hstored eq_refl)).
Defined.

(** C8, as the claim has it, fails: with [this.localRealm] still [null]
    the guard of [updateDeviceData] skips the write (in [realm.ts] and in
    [CommunicationService.ts]), and the one-shot service has an empty
    body. *)
Lemma updateDeviceData_without_realm_stores_nothing :
  ~ submit_always_stores (RealmService.updateDeviceData (H := Sample.strict_coercions))
  /\ ~ submit_always_stores (CommunicationService.updateDeviceData (H := Sample.strict_coercions))
  /\ ~ submit_always_stores OneShot.updateDeviceData.
Proof.
  repeat split; intros Hclaim; destruct (Hclaim Sample.recordA Sample.idle) as [x Hx];
    vm_compute in Hx; discriminate.
Qed.


(** ** Relating the state before and after a computation *)

Section Preserves.
Context (R : State -> State -> Prop) `{!Reflexive R} `{!Transitive R}.

Lemma preserves_ret {A} (a : A) : preserves R (mret a).
Proof. intros s. cbn. reflexivity. Qed.

Lemma preserves_throw {A} (e : Error) : preserves R (@throw A e).
Proof. intros s. cbn. reflexivity. Qed.

Lemma preserves_lift {A} (r : Error + A) : preserves R (lift r).
Proof. intros s. cbn. reflexivity. Qed.

Lemma preserves_get : preserves R get.
Proof. intros s. cbn. reflexivity. Qed.

Lemma preserves_settle (o : option Error) : preserves R (settle o).
Proof. intros s. destruct o; cbn; reflexivity. Qed.

Lemma preserves_bind {A B} (m : M A) (k : A -> M B) :
  preserves R m -> (forall a, preserves R (k a)) -> preserves R (m ≫= k).
Proof.
  intros Hm Hk s. unfold mbind, M_bind, bind.
  specialize (Hm s). destruct (m s) as [[e|a] s']; cbn in *.
  - exact Hm.
  - etransitivity; [exact Hm | apply Hk].
Qed.

Lemma preserves_try_catch {A} (body : M A) (handler : Error -> M A) :
  preserves R body -> (forall e, preserves R (handler e)) ->
  preserves R (try_catch body handler).
Proof.
  intros Hb Hh s. unfold try_catch.
  specialize (Hb s). destruct (body s) as [[e|a] s']; cbn in *.
  - etransitivity; [exact Hb | apply Hh].
  - exact Hb.
Qed.

Lemma preserves_try_finally {A} (body : M A) (final : M unit) :
  preserves R body -> preserves R final -> preserves R (try_finally body final).
Proof.
  intros Hb Hf s. unfold try_finally.
  specialize (Hb s). destruct (body s) as [r s']. specialize (Hf s').
  destruct (final s') as [[e|[]] s'']; cbn in *; etransitivity; eauto.
Qed.

Lemma preserves_detach (m : M unit) : preserves R m -> preserves R (detach m).
Proof. intros Hm s. apply Hm. Qed.

Lemma preserves_forEach {A} (f : A -> M unit) (l : list A) :
  (forall x, preserves R (f x)) -> preserves R (forEach f l).
Proof.
  intros Hf. induction l as [|x l IH]; cbn.
  - apply preserves_ret.
  - apply preserves_bind; [apply Hf | intros _; exact IH].
Qed.

End Preserves.

#[global] Instance exchange_only_refl : Reflexive exchange_only.
Proof.
  intros s. split; [reflexivity|]. exists []. split; [|reflexivity].
  symmetry. apply app_nil_r.
Qed.

#[global] Instance exchange_only_trans : Transitive exchange_only.
Proof.
  intros s1 s2 s3 [Hf1 (c1 & Hr1 & Hc1)] [Hf2 (c2 & Hr2 & Hc2)]. split; [congruence|].
  exists (c1 ++ c2)%list. split.
  - rewrite Hr2, Hr1, app_assoc. reflexivity.
  - rewrite forallb_app, Hc1, Hc2. reflexivity.
Qed.

Lemma exchange_only_same (s s' : State) :
  isScanning s' = isScanning s -> radio s' = radio s -> exchange_only s s'.
Proof.
  intros Hf Hr. split; [exact Hf|]. exists []. rewrite Hr. split; [|reflexivity].
  symmetry. apply app_nil_r.
Qed.

Lemma exchange_only_console_log (msg : string) : preserves exchange_only (console_log msg).
Proof. intros s. apply exchange_only_same; reflexivity. Qed.

Lemma exchange_only_console_error (msg : string) : preserves exchange_only (console_error msg).
Proof. intros s. apply exchange_only_same; reflexivity. Qed.

Lemma exchange_only_call (c : Ble.Call) :
  Ble.is_session_call c = true -> preserves exchange_only (call c).
Proof.
  intros Hc s. split; [reflexivity|]. exists [c]. split; [reflexivity|].
  cbn. rewrite Hc. reflexivity.
Qed.

Section ExchangeOnly.
Context `{RealmCoercions}.

Lemma exchange_only_handleReceivedData (v : JsVal) :
  preserves exchange_only (CommunicationService.handleReceivedData v).
Proof.
  intros s. rewrite handleReceivedData_cases.
  destruct (_ || _); [reflexivity|].
  destruct (Realm.insertIfAbsent v (realm s)); apply exchange_only_same; reflexivity.
Qed.

Lemma exchange_only_RealmService_handleReceivedData (v : JsVal) :
  preserves exchange_only (RealmService.handleReceivedData v).
Proof.
  intros s. rewrite RealmService_handleReceivedData_cases.
  destruct (_ || _); [reflexivity|].
  destruct (Realm.write _ _); apply exchange_only_same; reflexivity.
Qed.

Lemma exchange_only_bgObjects : preserves exchange_only CommunicationService.bgObjects.
Proof.
  unfold CommunicationService.bgObjects.
  apply (preserves_bind exchange_only); [apply (preserves_get exchange_only) | intros s].
  apply (preserves_lift exchange_only).
Qed.

Lemma exchange_only_localObjects : preserves exchange_only RealmService.localObjects.
Proof.
  unfold RealmService.localObjects.
  apply (preserves_bind exchange_only); [apply (preserves_get exchange_only) | intros s].
  destruct (localRealm s);
    [apply (preserves_lift exchange_only) | apply (preserves_throw exchange_only)].
Qed.

End ExchangeOnly.

(** One step of the walk through a computation. *)
Ltac preserves_step :=
  lazymatch goal with
  | |- preserves ?R (mret _) => apply (preserves_ret R)
  | |- preserves ?R (_ ≫= _) => apply (preserves_bind R); [| intros ?]
  | |- preserves ?R (throw _) => apply (preserves_throw R)
  | |- preserves ?R (lift _) => apply (preserves_lift R)
  | |- preserves ?R (settle _) => apply (preserves_settle R)
  | |- preserves ?R get => apply (preserves_get R)
  | |- preserves ?R (try_catch _ _) => apply (preserves_try_catch R); [| intros ?]
  | |- preserves ?R (detach _) => apply (preserves_detach R)
  | |- preserves ?R (forEach _ _) => apply (preserves_forEach R); intros ?
  | |- preserves exchange_only (console_log _) => apply exchange_only_console_log
  | |- preserves exchange_only (console_error _) => apply exchange_only_console_error
  | |- preserves exchange_only (call _) => apply exchange_only_call; reflexivity
  | |- preserves _ (match ?x with _ => _ end) => destruct x
  end.

(** The exchange with a peer makes no call but those of the exchange and
    leaves the scanning flag alone. *)
Lemma exchange_only_exchange (records : M (list DisasterData)) (ingest : JsVal -> M unit)
    (connected : M unit) (device : Ble.Device) :
  preserves exchange_only records ->
  (forall v, preserves exchange_only (ingest v)) ->
  preserves exchange_only connected ->
  preserves exchange_only (exchange records ingest connected device).
Proof.
  intros Hrecords Hingest Hconnected.
  unfold exchange, generateDataSummary, getMissingDataFromRemote.
  repeat first [ exact Hrecords | apply Hingest | exact Hconnected | preserves_step ].
Qed.


(** ** Peer Scanner *)

Lemma activeScans_snoc (trace : list Ble.Call) (c : Ble.Call) :
  Ble.activeScans (trace ++ [c]) = Ble.activeScans_step (Ble.activeScans trace) c.
Proof. unfold Ble.activeScans. rewrite fold_left_app. reflexivity. Qed.

Lemma activeScans_session_calls (trace calls : list Ble.Call) :
  forallb Ble.is_session_call calls = true ->
  Ble.activeScans (trace ++ calls) = Ble.activeScans trace.
Proof.
  unfold Ble.activeScans. rewrite fold_left_app.
  generalize (fold_left Ble.activeScans_step trace 0%nat) as n.
  induction calls as [|c calls IH]; intros n Hcalls; cbn in *; [reflexivity|].
  apply andb_prop in Hcalls as [Hc Hcalls]. rewrite IH by exact Hcalls.
  destruct c; cbn in Hc; try discriminate; reflexivity.
Qed.

Lemma count_session_calls (p : Ble.Call -> bool) (calls : list Ble.Call) :
  (forall c, Ble.is_session_call c = true -> p c = false) ->
  forallb Ble.is_session_call calls = true ->
  Ble.count p calls = 0%nat.
Proof.
  intros Hp. unfold Ble.count.
  induction calls as [|c calls IH]; cbn; [reflexivity|].
  intros Hcalls. apply andb_prop in Hcalls as [Hc Hcalls].
  rewrite (Hp c Hc). apply IH, Hcalls.
Qed.

Lemma count_app (p : Ble.Call -> bool) (l1 l2 : list Ble.Call) :
  Ble.count p (l1 ++ l2) = (Ble.count p l1 + Ble.count p l2)%nat.
Proof. unfold Ble.count. rewrite List.filter_app, length_app. reflexivity. Qed.

Lemma added_app (s s' : State) (calls : list Ble.Call) :
  radio s' = (radio s ++ calls)%list -> added s s' = calls.
Proof. intros Hr. unfold added. rewrite Hr. apply drop_app_length. Qed.

Section Scanner.
Context `{RealmCoercions} (adapter : Ble.Adapter).

Lemma startBleCommunication_busy (s : State) :
  isScanning s = true ->
  CommunicationService.startBleCommunication adapter s = (inr tt, s).
Proof.
  intros Hbusy. unfold CommunicationService.startBleCommunication. unfold_M.
  rewrite Hbusy. reflexivity.
Qed.

Lemma startBleCommunication_idle (s : State) :
  isScanning s = false ->
  let s' := snd (CommunicationService.startBleCommunication adapter s) in
  fst (CommunicationService.startBleCommunication adapter s) = inr tt
  /\ radio s' = (radio s ++ [Ble.StartDeviceScan (Ble.scan_starts adapter)])%list
  /\ isScanning s' = Ble.scan_starts adapter
  /\ realm s' = realm s.
Proof.
  intros Hidle. unfold CommunicationService.startBleCommunication, Ble.scan_starts. unfold_M.
  rewrite Hidle. destruct (Ble.startDeviceScan adapter); cbn; repeat split.
Qed.

Lemma OneShot_startBleCommunication_busy (s : State) :
  isScanning s = true ->
  let s' := snd (OneShot.startBleCommunication adapter s) in
  fst (OneShot.startBleCommunication adapter s) = inr tt
  /\ radio s' = radio s /\ isScanning s' = true /\ realm s' = realm s.
Proof.
  intros Hbusy. unfold OneShot.startBleCommunication. unfold_M.
  rewrite Hbusy. cbn. repeat split. exact Hbusy.
Qed.

Lemma OneShot_startBleCommunication_idle (s : State) :
  isScanning s = false ->
  let s' := snd (OneShot.startBleCommunication adapter s) in
  fst (OneShot.startBleCommunication adapter s) = inr tt
  /\ radio s' = (radio s ++ [Ble.StartDeviceScan (Ble.scan_starts adapter)])%list
  /\ isScanning s' = Ble.scan_starts adapter
  /\ realm s' = realm s.
Proof.
  intros Hidle. unfold OneShot.startBleCommunication, Ble.scan_starts. unfold_M.
  rewrite Hidle. destruct (Ble.startDeviceScan adapter); cbn; repeat split.
Qed.

(** [checkAndStartBleScan] asks for the state of the adapter first; it
    starts a scan when the adapter is powered on and the flag is clear,
    and a call of [startDeviceScan] that throws leaves the flag set. *)
Lemma checkAndStartBleScan_spec (s : State) :
  let s' := snd (RealmService.checkAndStartBleScan adapter s) in
  fst (RealmService.checkAndStartBleScan adapter s) = inr tt
  /\ realm s' = realm s
  /\ if Ble.powered_on adapter && negb (isScanning s)
     then radio s' = (radio s ++ [Ble.ManagerState; Ble.StartDeviceScan (Ble.scan_starts adapter)])%list
          /\ isScanning s' = true
     else radio s' = (radio s ++ [Ble.ManagerState])%list /\ isScanning s' = isScanning s.
Proof.
  unfold RealmService.checkAndStartBleScan, Ble.scan_starts, Ble.powered_on. unfold_M. cbn.
  destruct (Ble.state adapter) as [e|state] eqn:Hstate; cbn.
  { repeat split. }
  destruct (String.eqb state "PoweredOn") eqn:Hon; cbn; [|repeat split].
  destruct (isScanning s) eqn:Hflag; cbn; [repeat split; exact Hflag|].
  rewrite <- app_assoc.
  destruct (Ble.startDeviceScan adapter); cbn; repeat split.
Qed.

(** *** One session, from the first log line to the end of [finally] *)

Lemma try_catch_logs (body : M unit) (msg : string) (s : State) :
  fst (try_catch body (fun _ : Error => console_error msg) s) = inr tt.
Proof.
  unfold try_catch. destruct (body s) as [[e|[]] s']; reflexivity.
Qed.

Lemma connectToDevice_spec (device : Ble.Device) (s : State) :
  let '(outcome, s') := CommunicationService.connectToDevice adapter device s in
  exists calls,
    forallb Ble.is_session_call calls = true
    /\ match Ble.cancelConnection device with
       | None =>
           outcome = inr tt
           /\ radio s' = (radio s ++ calls
                           ++ [Ble.CancelConnection;
                               Ble.StartDeviceScan (Ble.scan_starts adapter)])%list
           /\ isScanning s' = Ble.scan_starts adapter
       | Some e =>
           outcome = inl e
           /\ radio s' = (radio s ++ calls ++ [Ble.CancelConnection])%list
           /\ isScanning s' = isScanning s
       end.
Proof.
  unfold CommunicationService.connectToDevice.
  unfold mbind at 1. unfold M_bind at 1. unfold bind at 1. cbn [console_log modify].
  unfold try_finally.
  pose proof (preserves_try_catch exchange_only _ _
                (exchange_only_exchange _ _ _ device exchange_only_bgObjects
                   exchange_only_handleReceivedData
                   (exchange_only_console_log "Connected and discovered services"))
                (fun e => exchange_only_console_error "Gossip protocol connection failed:")
                (with_console (console s ++ [(Log, "Attempting to connect...")]) s)) as Hbody.
  pose proof (try_catch_logs
                (exchange CommunicationService.bgObjects
                   CommunicationService.handleReceivedData
                   (console_log "Connected and discovered services") device)
                "Gossip protocol connection failed:"
                (with_console (console s ++ [(Log, "Attempting to connect...")]) s)) as Hret.
  destruct (try_catch _ _ _) as [r s1]. cbn [snd fst] in Hbody, Hret. subst r.
  destruct Hbody as [Hflag (calls & Hradio & Hcalls)]. cbn in Hflag, Hradio.
  unfold CommunicationService.startBleCommunication, Ble.scan_starts. unfold_M.
  destruct (Ble.cancelConnection device); cbn.
  - exists calls. rewrite Hradio, Hflag, <- app_assoc. repeat split. exact Hcalls.
  - destruct (Ble.startDeviceScan adapter); cbn; exists calls;
      rewrite Hradio, <- !app_assoc; repeat split; exact Hcalls.
Qed.

Lemma OneShot_connectToDevice_spec (device : Ble.Device) (s : State) :
  let '(outcome, s') := OneShot.connectToDevice device s in
  exists calls,
    forallb Ble.is_session_call calls = true
    /\ radio s' = (radio s ++ calls ++ [Ble.CancelConnection])%list
    /\ match Ble.cancelConnection device with
       | None => outcome = inr tt /\ isScanning s' = false
       | Some e => outcome = inl e /\ isScanning s' = isScanning s
       end.
Proof.
  unfold OneShot.connectToDevice.
  unfold mbind at 1. unfold M_bind at 1. unfold bind at 1. cbn [console_log modify].
  unfold try_finally.
  pose proof (preserves_try_catch exchange_only _ _
                (exchange_only_exchange _ _ _ device exchange_only_bgObjects
                   exchange_only_handleReceivedData
                   (exchange_only_console_log "Connected and discovered services"))
                (fun e => exchange_only_console_error "Gossip protocol connection failed:")
                (with_console (console s ++ [(Log, "Attempting to connect...")]) s)) as Hbody.
  pose proof (try_catch_logs
                (exchange CommunicationService.bgObjects
                   CommunicationService.handleReceivedData
                   (console_log "Connected and discovered services") device)
                "Gossip protocol connection failed:"
                (with_console (console s ++ [(Log, "Attempting to connect...")]) s)) as Hret.
  unfold OneShot.handleReceivedData.
  destruct (try_catch _ _ _) as [r s1]. cbn [snd fst] in Hbody, Hret. subst r.
  destruct Hbody as [Hflag (calls & Hradio & Hcalls)]. cbn in Hflag, Hradio.
  unfold_M.
  destruct (Ble.cancelConnection device); cbn; exists calls;
    rewrite Hradio, <- ?app_assoc; repeat split; try exact Hcalls.
  exact Hflag.
Qed.

Lemma RealmService_connectToDevice_spec (device : Ble.Device) (s : State) :
  let '(outcome, s') := RealmService.connectToDevice adapter device s in
  exists calls,
    forallb Ble.is_session_call calls = true
    /\ match Ble.cancelConnection device with
       | None =>
           radio s' = (radio s ++ calls ++ Ble.CancelConnection :: Ble.ManagerState ::
                         (if Ble.powered_on adapter
                          then [Ble.StartDeviceScan (Ble.scan_starts adapter)] else []))%list
           /\ isScanning s' = Ble.powered_on adapter
       | Some e =>
           radio s' = (radio s ++ calls ++ [Ble.CancelConnection])%list
           /\ isScanning s' = isScanning s
       end.
Proof.
  unfold RealmService.connectToDevice.
  unfold mbind at 1. unfold M_bind at 1. unfold bind at 1. cbn [console_log modify].
  unfold try_finally.
  pose proof (preserves_try_catch exchange_only _ _
                (exchange_only_exchange _ _ _ device exchange_only_localObjects
                   exchange_only_RealmService_handleReceivedData
                   (preserves_ret exchange_only tt))
                (fun e => exchange_only_console_error "Gossip protocol connection failed:")
                (with_console (console s ++ [(Log, "Attempting to connect...")]) s)) as Hbody.
  destruct (try_catch _ _ _) as [r s1]. cbn [snd fst] in Hbody.
  destruct Hbody as [Hflag (calls & Hradio & Hcalls)]. cbn in Hflag, Hradio.
  destruct (Ble.cancelConnection device) eqn:Hcancel.
  - unfold_M. cbn. exists calls. rewrite Hradio, Hflag, <- app_assoc. repeat split.
    exact Hcalls.
  - set (s2 := with_isScanning false
                 (with_console (console s1
                                ++ [(Log, "Disconnected from device. Restarting scan.")])
                    (with_radio (radio s1 ++ [Ble.CancelConnection]) s1))).
    assert (Hfin : (call Ble.CancelConnection;;
                    settle None;;
                    console_log "Disconnected from device. Restarting scan.";;
                    set_isScanning false;;
                    detach (RealmService.checkAndStartBleScan adapter)) s1
                   = (inr tt, snd (RealmService.checkAndStartBleScan adapter s2))).
    { reflexivity. }
    rewrite Hfin. 
    destruct (checkAndStartBleScan_spec s2) as (_ & _ & Hscan).
    change (isScanning s2) with false in Hscan. cbn [negb] in Hscan.
    rewrite andb_true_r in Hscan.
    change (radio s2) with (radio s1 ++ [Ble.CancelConnection])%list in Hscan.
    exists calls. split; [exact Hcalls|].
    destruct (Ble.powered_on adapter); destruct Hscan as [-> ->];
      rewrite Hradio, <- !app_assoc; cbn; repeat split.
Qed.

End Scanner.


(** ** Session resource safety *)

Lemma count_cancel_session (calls : list Ble.Call) :
  forallb Ble.is_session_call calls = true -> Ble.count Ble.is_cancel calls = 0%nat.
Proof. apply count_session_calls. intros []; cbn; congruence. Qed.

Lemma count_start_session (calls : list Ble.Call) :
  forallb Ble.is_session_call calls = true -> Ble.count Ble.is_start calls = 0%nat.
Proof. apply count_session_calls. intros []; cbn; congruence. Qed.

(** C6, as the code has it.  On every path through [connectToDevice]
    (any outcome of connecting, of discovering, of the two exchanges and
    of decoding) [cancelConnection] is called exactly once, in
    [CommunicationService.ts] and in the one-shot service, and the calls
    before it are calls of the exchange.  When [cancelConnection] has
    resolved, [CommunicationService.ts] clears the flag and calls
    [startDeviceScan] exactly once, after the disconnection (the flag ends
    set when that scan starts); the one-shot service clears the flag and
    starts no scan. *)
Theorem session_closes_connection_once `{RealmCoercions}
    (adapter : Ble.Adapter) (device : Ble.Device) (s : State) :
  let after := snd (CommunicationService.connectToDevice adapter device s) in
  let after' := snd (OneShot.connectToDevice device s) in
  Ble.count Ble.is_cancel (added s after) = 1%nat
  /\ Ble.count Ble.is_cancel (added s after') = 1%nat
  /\ Ble.count Ble.is_start (added s after') = 0%nat
  /\ (Ble.cancelConnection device = None ->
      (exists calls,
          forallb Ble.is_session_call calls = true
          /\ added s after
             = (calls ++ [Ble.CancelConnection;
                          Ble.StartDeviceScan (Ble.scan_starts adapter)])%list)
      /\ Ble.count Ble.is_start (added s after) = 1%nat
      /\ isScanning after = Ble.scan_starts adapter
      /\ (exists calls,
             forallb Ble.is_session_call calls = true
             /\ added s after' = (calls ++ [Ble.CancelConnection])%list)
      /\ isScanning after' = false).
Proof.
  intros after after'. subst after after'.
  pose proof (connectToDevice_spec adapter device s) as Hmain.
  pose proof (OneShot_connectToDevice_spec device s) as Hone.
  destruct (CommunicationService.connectToDevice adapter device s) as [r1 s1].
  destruct (OneShot.connectToDevice device s) as [r3 s3]. cbn [snd].
  destruct Hmain as (calls & Hcalls & Hmain).
  destruct Hone as (calls' & Hcalls' & Hradio' & Hone).
  rewrite (added_app _ _ _ Hradio').
  rewrite !count_app, (count_cancel_session _ Hcalls'), (count_start_session _ Hcalls').
  destruct (Ble.cancelConnection device) as [e|].
  - destruct Hmain as (_ & Hradio & _). rewrite (added_app _ _ _ Hradio).
    rewrite count_app, (count_cancel_session _ Hcalls).
    split; [reflexivity|]. split; [reflexivity|]. split; [reflexivity|]. discriminate.
  - destruct Hmain as (_ & Hradio & Hflag). destruct Hone as [_ Hflag'].
    rewrite (added_app _ _ _ Hradio).
    rewrite !count_app, (count_cancel_session _ Hcalls), (count_start_session _ Hcalls).
    split; [reflexivity|]. split; [reflexivity|]. split; [reflexivity|]. intros _.
    split; [eauto|]. split; [reflexivity|]. split; [exact Hflag|]. split; [eauto|].
    exact Hflag'.
Qed.

Lemma session_closes_connection_once_witness :
  Ble.cancelConnection Sample.quiet_peer = None
  /\ Ble.count Ble.is_start
       (added (Sample.holding [Sample.recordA])
          (snd (CommunicationService.connectToDevice (H := Sample.wire_coercions)
                  Sample.powered Sample.quiet_peer (Sample.holding [Sample.recordA]))))
     = 1%nat.
Proof.
  split; [reflexivity|].
  exact (proj1 (proj2 (proj2 (proj2 (proj2
           (session_closes_connection_once (H := Sample.wire_coercions)
              Sample.powered Sample.quiet_peer (Sample.holding [Sample.recordA]))))
           eq_refl))).
Defined.

(** C6, as the claim has it, fails on the one-shot service: a session
    with a peer that answers ends with the connection closed once and no
    scan started. *)
Lemma OneShot_session_does_not_rearm :
  ~ closes_and_rearms_once (OneShot.connectToDevice (H := Sample.wire_coercions)).
Proof.
  intros Hclaim.
  destruct (Hclaim Sample.quiet_peer (Sample.holding [Sample.recordA])) as [_ Hrearm].
  vm_compute in Hrearm. discriminate.
Qed.

(** ** Single-flight scanning *)

Lemma activeScans_app (trace calls : list Ble.Call) :
  Ble.activeScans (trace ++ calls)
  = fold_left Ble.activeScans_step calls (Ble.activeScans trace).
Proof. unfold Ble.activeScans. apply fold_left_app. Qed.


Lemma scanner_inv_intro (s : State) (n : nat) :
  Ble.activeScans (radio s) = n ->
  (n <= 1)%nat -> (isScanning s = false -> n = 0%nat) -> scanner_inv s.
Proof. intros <- Hle Hzero. split; assumption. Qed.

Section Invariant.
Context `{RealmCoercions}.


Lemma OneShot_startBleCommunication_inv (adapter : Ble.Adapter) (s : State) :
  scanner_inv s -> scanner_inv (snd (OneShot.startBleCommunication adapter s)).
Proof.
  intros [Hle Hzero]. destruct (isScanning s) eqn:Hflag.
  - destruct (OneShot_startBleCommunication_busy adapter s Hflag) as (_ & Hradio & Hflag' & _).
    split; rewrite Hradio; [exact Hle|]. rewrite Hflag'. discriminate.
  - destruct (OneShot_startBleCommunication_idle adapter s Hflag) as (_ & Hradio & Hflag' & _).
    apply (scanner_inv_intro _ (if Ble.scan_starts adapter then 1 else 0)%nat).
    + rewrite Hradio, activeScans_snoc, (Hzero eq_refl).
      destruct (Ble.scan_starts adapter); reflexivity.
    + destruct (Ble.scan_starts adapter); lia.
    + rewrite Hflag'. intros ->. reflexivity.
Qed.





End Invariant.




(** C9.  When the radio reports a scan error to the listener (that scan
    is over), [CommunicationService.ts] and the one-shot service handle it
    in the same way: the listener returns without throwing, the error is
    written to the console, the flag is clear, no scan is running and no
    call was made to the radio.  Scanning can then be started again: with
    an adapter that is powered on and takes the scan, the next turn of the
    loop (resp. the next [startCommunication]) leaves one scan running and
    the flag set. *)
Theorem scan_error_clears_the_flag `{RealmCoercions}
    (adapter : Ble.Adapter) (error : Error) (s : State) :
  let failed := deliver (CommunicationService.scanListener adapter) (ScanError error) s in
  let failed' := deliver OneShot.scanListener (ScanError error) s in
  failed' = failed
  /\ fst failed = inr tt
  /\ isScanning (snd failed) = false
  /\ Ble.activeScans (radio (snd failed)) = 0%nat
  /\ added s (snd failed) = [Ble.ScanFailed]
  /\ console (snd failed) = (console s ++ [(Err, "BLE Scan error:")])%list
  /\ realm (snd failed) = realm s
  /\ (Ble.powered_on adapter = true -> Ble.scan_starts adapter = true ->
      let next := snd (CommunicationService.loopIteration adapter (snd failed)) in
      let next' := snd (OneShot.startCommunication adapter (snd failed')) in
      isScanning next = true /\ Ble.activeScans (radio next) = 1%nat
      /\ isScanning next' = true /\ Ble.activeScans (radio next') = 1%nat).
Proof.
  intros failed failed'. subst failed failed'. cbn.
  split; [reflexivity|]. split; [reflexivity|]. split; [reflexivity|].
  split; [apply activeScans_snoc|].
  split; [apply added_app; reflexivity|].
  split; [reflexivity|]. split; [reflexivity|].
  intros Hon Hstarts.
  unfold CommunicationService.loopIteration, OneShot.startCommunication,
    CommunicationService.startBleCommunication, OneShot.startBleCommunication,
    Ble.powered_on, Ble.scan_starts in *.
  unfold_M. cbn.
  destruct (Ble.state adapter) as [e|answer]; [discriminate|]. cbn. rewrite Hon.
  destruct (Ble.startDeviceScan adapter); [discriminate|]. cbn.
  rewrite !fold_left_app. cbn. repeat split.
Qed.

Lemma scan_error_clears_the_flag_witness :
  let failed := deliver (CommunicationService.scanListener (H := Sample.strict_coercions)
                           Sample.powered)
                  (ScanError (BleError "scan failed"))
                  (with_isScanning true
                     (with_radio [Ble.StartDeviceScan true] Sample.idle)) in
  Ble.powered_on Sample.powered = true
  /\ Ble.scan_starts Sample.powered = true
  /\ isScanning (snd failed) = false
  /\ Ble.activeScans
       (radio (snd (CommunicationService.loopIteration Sample.powered (snd failed))))
     = 1%nat.
Proof.
  intros failed. split; [reflexivity|]. split; [reflexivity|].
  pose proof (scan_error_clears_the_flag (H := Sample.strict_coercions) Sample.powered
                (BleError "scan failed")
                (with_isScanning true (with_radio [Ble.StartDeviceScan true] Sample.idle)))
    as Hthm.
  cbv zeta in Hthm. destruct Hthm as (_ & _ & Hflag & _ & _ & _ & _ & Hnext).
  split; [exact Hflag|]. exact (proj1 (proj2 (Hnext eq_refl eq_refl))).
Defined.


(** ** Base64 *)

Lemma below_64 (p : N -> bool) :
  forallb (fun i => p (N.of_nat i)) (seq 0 64) = true ->
  forall n, (n < 64)%N -> p n = true.
Proof.
  intros Hall n Hn. rewrite forallb_forall in Hall.
  specialize (Hall (N.to_nat n)). rewrite N2Nat.id in Hall.
  apply Hall, in_seq. lia.
Qed.

Lemma b64_value_char (n : N) :
  (n < 64)%N ->
  Buffer.b64_value (Buffer.b64_char n) = Some n
  /\ Ascii.eqb (Buffer.b64_char n) "=" = false.
Proof.
  intros Hn.
  pose proof (below_64
                (fun n => match Buffer.b64_value (Buffer.b64_char n) with
                          | Some m => N.eqb m n
                          | None => false
                          end && negb (Ascii.eqb (Buffer.b64_char n) "="))
                eq_refl n Hn) as Hcheck.
  cbv beta in Hcheck. apply andb_prop in Hcheck as [Hv He].
  destruct (Buffer.b64_value (Buffer.b64_char n)) as [m|]; [|discriminate].
  apply N.eqb_eq in Hv as ->. apply negb_true_iff in He. split; [reflexivity | exact He].
Qed.

Lemma sextets_cons (n : N) (rest : string) :
  (n < 64)%N ->
  Buffer.sextets (String (Buffer.b64_char n) rest) = n :: Buffer.sextets rest.
Proof.
  intros Hn. destruct (b64_value_char n Hn) as [Hv He]. cbn. rewrite He, Hv. reflexivity.
Qed.

Lemma string_ind3 (P : string -> Prop) :
  P "" ->
  (forall a, P (String a "")) ->
  (forall a b, P (String a (String b ""))) ->
  (forall a b c rest, P rest -> P (String a (String b (String c rest)))) ->
  forall s, P s.
Proof.
  intros H0 H1 H2 H3.
  assert (Hall : forall s, P s /\ (forall a, P (String a s))
                           /\ (forall a b, P (String a (String b s)))).
  { induction s as [|c s (IH0 & IH1 & IH2)].
    - split; [exact H0|]. split; [exact H1 | exact H2].
    - split; [apply IH1|]. split; [intros a; apply IH2|]. intros a b. apply H3, IH0. }
  intros s. apply Hall.
Qed.

Lemma div_add_small (q r d : N) :
  (r < d)%N -> ((q * d + r) / d = q /\ (q * d + r) mod d = r)%N.
Proof.
  intros Hr. assert (d <> 0%N) as Hd by lia. split.
  - rewrite N.div_add_l by exact Hd. rewrite (N.div_small r d Hr). lia.
  - rewrite N.add_comm, N.Div0.mod_add. apply N.mod_small, Hr.
Qed.

Lemma b64_bytes (a b c : ascii) :
  let x := N_of_ascii a in
  let y := N_of_ascii b in
  let z := N_of_ascii c in
  ((x / 4 < 64) /\ (x mod 4 * 16 + y / 16 < 64) /\ (y mod 16 * 4 + z / 64 < 64)
   /\ (z mod 64 < 64) /\ (x mod 4 * 16 < 64) /\ (y mod 16 * 4 < 64))%N
  /\ ascii_of_N (x / 4 * 4 + (x mod 4 * 16 + y / 16) / 16) = a
  /\ ascii_of_N ((x mod 4 * 16 + y / 16) mod 16 * 16 + (y mod 16 * 4 + z / 64) / 4) = b
  /\ ascii_of_N ((y mod 16 * 4 + z / 64) mod 4 * 64 + z mod 64) = c
  /\ ascii_of_N (x / 4 * 4 + (x mod 4 * 16) / 16) = a
  /\ ascii_of_N ((x mod 4 * 16 + y / 16) mod 16 * 16 + (y mod 16 * 4) / 4) = b.
Proof.
  intros x y z.
  pose proof (N_ascii_bounded a) as Ha. pose proof (N_ascii_bounded b) as Hb.
  pose proof (N_ascii_bounded c) as Hc. fold x in Ha. fold y in Hb. fold z in Hc.
  assert (Hx4 : (x / 4 < 64)%N) by (apply N.Div0.div_lt_upper_bound; lia).
  assert (Hy16 : (y / 16 < 16)%N) by (apply N.Div0.div_lt_upper_bound; lia).
  assert (Hz64 : (z / 64 < 4)%N) by (apply N.Div0.div_lt_upper_bound; lia).
  assert (Hxm : (x mod 4 < 4)%N) by (apply N.mod_upper_bound; lia).
  assert (Hym : (y mod 16 < 16)%N) by (apply N.mod_upper_bound; lia).
  assert (Hzm : (z mod 64 < 64)%N) by (apply N.mod_upper_bound; lia).
  pose proof (N.div_mod x 4 ltac:(lia)) as Dx.
  pose proof (N.div_mod y 16 ltac:(lia)) as Dy.
  pose proof (N.div_mod z 64 ltac:(lia)) as Dz.
  destruct (div_add_small (x mod 4) (y / 16) 16 Hy16) as [E1 E2].
  destruct (div_add_small (y mod 16) (z / 64) 4 Hz64) as [E3 E4].
  destruct (div_add_small (x mod 4) 0 16 ltac:(lia)) as [E5 _].
  destruct (div_add_small (y mod 16) 0 4 ltac:(lia)) as [E6 _].
  rewrite N.add_0_r in E5, E6.
  rewrite E1, E2, E3, E4, E5, E6.
  split; [repeat split; lia|].
  replace (x / 4 * 4 + x mod 4)%N with x by lia.
  replace (y / 16 * 16 + y mod 16)%N with y by lia.
  replace (z / 64 * 64 + z mod 64)%N with z by lia.
  subst x y z. rewrite !ascii_N_embedding. repeat split.
Qed.

(** Decoding the base64 text of a byte string gives the byte string. *)
Lemma fromBase64_toBase64 (bytes : string) :
  Buffer.fromBase64 (Buffer.toBase64 bytes) = bytes.
Proof.
  unfold Buffer.fromBase64.
  induction bytes as [|a|a b|a b c rest IH] using string_ind3.
  - reflexivity.
  - destruct (b64_bytes a a a) as ((H0 & _ & _ & _ & H1 & _) & _ & _ & _ & Ha & _).
    cbn [Buffer.toBase64]. rewrite !sextets_cons by assumption.
    cbn [Buffer.sextets Ascii.eqb Bool.eqb Buffer.bytes_of_sextets]. rewrite Ha.
    reflexivity.
  - destruct (b64_bytes a b b) as ((H0 & H1 & _ & _ & _ & H2) & Ha & _ & _ & _ & Hb).
    cbn [Buffer.toBase64]. rewrite !sextets_cons by assumption.
    cbn [Buffer.sextets Ascii.eqb Bool.eqb Buffer.bytes_of_sextets]. rewrite Ha, Hb.
    reflexivity.
  - destruct (b64_bytes a b c) as ((H0 & H1 & H2 & H3 & _ & _) & Ha & Hb & Hc & _ & _).
    cbn [Buffer.toBase64]. rewrite !sextets_cons by assumption.
    cbn [Buffer.bytes_of_sextets]. rewrite IH, Ha, Hb, Hc. reflexivity.
Qed.


(** ** Dates on the wire *)

Lemma digit_char_spec (n : Z) :
  is_digit (DateTime.digit_char n) = true
  /\ Z.of_N (N_of_ascii (DateTime.digit_char n)) - 48 = n mod 10
  /\ Ascii.eqb (DateTime.digit_char n) "+" = false
  /\ Ascii.eqb (DateTime.digit_char n) "-" = false.
Proof.
  unfold DateTime.digit_char.
  assert (Hm : 0 <= n mod 10 < 10) by (apply Z.mod_pos_bound; lia).
  destruct (n mod 10) as [|p|p] eqn:Hp; [| |lia].
  - vm_compute. repeat split.
  - assert (Hcases : (p = 1 \/ p = 2 \/ p = 3 \/ p = 4 \/ p = 5 \/ p = 6 \/ p = 7 \/ p = 8
                      \/ p = 9)%positive) by lia.
    repeat (destruct Hcases as [-> | Hcases]; [vm_compute; repeat split|]).
    subst p. vm_compute. repeat split.
Qed.

Lemma read_digits_pad (w w' : nat) (n acc : Z) (k : string) :
  DateTime.read_digits (w + w') acc (DateTime.pad w n k)
  = DateTime.read_digits w' (acc * 10 ^ Z.of_nat w + n mod 10 ^ Z.of_nat w) k.
Proof.
  revert w' n k. induction w as [|w IH]; intros w' n k.
  - cbn [DateTime.pad Nat.add]. rewrite Z.pow_0_r, Z.mod_1_r. f_equal. lia.
  - cbn [DateTime.pad]. replace (S w + w')%nat with (w + S w')%nat by lia.
    rewrite IH. cbn [DateTime.read_digits].
    destruct (digit_char_spec n) as (Hd & Hv & _). rewrite Hd, Hv. f_equal.
    rewrite Nat2Z.inj_succ, Z.pow_succ_r by lia.
    assert (Hpos : 0 < 10 ^ Z.of_nat w) by (apply Z.pow_pos_nonneg; lia).
    rewrite Z.rem_mul_r by lia. lia.
Qed.

Lemma read_digits_pad_exact (w : nat) (n : Z) (k : string) :
  0 <= n < 10 ^ Z.of_nat w ->
  DateTime.read_digits w 0 (DateTime.pad w n k) = Some (n, k).
Proof.
  intros Hn. pose proof (read_digits_pad w 0 n 0 k) as Hread.
  rewrite Nat.add_0_r in Hread. rewrite Hread. cbn [DateTime.read_digits].
  rewrite Z.mod_small by exact Hn. reflexivity.
Qed.

Lemma pad_head (w : nat) (n : Z) (k : string) :
  DateTime.pad (S w) n k
  = String (DateTime.digit_char (n / 10 ^ Z.of_nat w)) (DateTime.pad w n k).
Proof.
  revert n k. induction w as [|w IH]; intros n k.
  - cbn. rewrite Z.div_1_r. reflexivity.
  - change (DateTime.pad (S (S w)) n k)
      with (DateTime.pad (S w) (n / 10) (String (DateTime.digit_char n) k)).
    rewrite IH. cbn [DateTime.pad]. f_equal. f_equal.
    rewrite Nat2Z.inj_succ, Z.pow_succ_r by lia.
    rewrite Z.div_div by (try apply Z.pow_pos_nonneg; lia). reflexivity.
Qed.

Lemma read_year_string (y : Z) (k : string) :
  -999999 <= y <= 999999 ->
  DateTime.read_year (DateTime.year_string y k) = Some (y, k).
Proof.
  intros Hy. unfold DateTime.year_string.
  destruct ((0 <=? y) && (y <=? 9999)) eqn:Hrange.
  - apply andb_prop in Hrange as [H0 H1]. apply Z.leb_le in H0, H1.
    rewrite (pad_head 3 y k). unfold DateTime.read_year.
    destruct (digit_char_spec (y / 10 ^ Z.of_nat 3)) as (_ & _ & -> & ->).
    rewrite <- (pad_head 3 y k). apply read_digits_pad_exact. cbn. lia.
  - assert (Hout : y < 0 \/ 9999 < y).
    { destruct (Z.leb_spec 0 y); destruct (Z.leb_spec y 9999); cbn in Hrange;
        try discriminate; lia. }
    destruct (Z.ltb_spec y 0) as [Hneg|Hpos].
    + unfold DateTime.read_year. cbn [Ascii.eqb Bool.eqb].
      rewrite (read_digits_pad_exact 6 (Z.abs y) k) by (cbn; lia).
      destruct (Z.eqb_spec (Z.abs y) 0); [lia|]. f_equal. f_equal. lia.
    + unfold DateTime.read_year. cbn [Ascii.eqb Bool.eqb].
      rewrite (read_digits_pad_exact 6 (Z.abs y) k) by (cbn; lia).
      f_equal. f_equal. lia.
Qed.

(** The Gregorian date of a day number names that day. *)
Lemma civil_from_days_spec (z : Z) :
  let '(y, m, d) := DateTime.civil_from_days z in
  1 <= m <= 12 /\ 1 <= d <= 31 /\ DateTime.days_from_civil y m d = z
  /\ (z + 719468) / 146097 * 400 <= y <= (z + 719468) / 146097 * 400 + 400.
Proof.
  unfold DateTime.civil_from_days.
  set (era := (z + 719468) / 146097). set (doe := (z + 719468) mod 146097).
  assert (Hdoe : 0 <= doe < 146097) by (apply Z.mod_pos_bound; lia).
  assert (Hz : z + 719468 = 146097 * era + doe) by (apply Z.div_mod; lia).
  set (yoe := (doe - doe / 1460 + doe / 36524 - doe / 146096) / 365).
  set (doy := doe - (365 * yoe + yoe / 4 - yoe / 100)).
  assert (Hyoe : 0 <= yoe <= 399 /\ 0 <= doy <= 365).
  { subst doy yoe. clearbody doe. clear Hz. Z.div_mod_to_equations. lia. }
  destruct Hyoe as [Hyoe Hdoy].
  set (mp := (5 * doy + 2) / 153).
  set (d := doy - (153 * mp + 2) / 5 + 1).
  assert (Hmp : 0 <= mp <= 11 /\ 1 <= d <= 31).
  { subst d mp. clearbody doy. Z.div_mod_to_equations. lia. }
  destruct Hmp as [Hmp Hd].
  assert (Hera : forall y', y' = yoe + era * 400 -> y' / 400 = era /\ y' mod 400 = yoe).
  { intros y' ->. split.
    - rewrite Z.div_add by lia. rewrite Z.div_small by lia. lia.
    - rewrite Z.mod_add by lia. apply Z.mod_small. lia. }
  unfold DateTime.days_from_civil.
  destruct (Z.ltb_spec mp 10) as [Hlt|Hge].
  - destruct (Z.leb_spec (mp + 3) 2) as [|_]; [lia|].
    destruct (Z.ltb_spec 2 (mp + 3)) as [_|]; [|lia].
    destruct (Hera _ eq_refl) as [-> ->].
    replace (mp + 3 - 3) with mp by lia. fold d.
    repeat split; lia.
  - destruct (Z.leb_spec (mp - 9) 2) as [_|]; [|lia].
    destruct (Z.ltb_spec 2 (mp - 9)) as [|_]; [lia|].
    destruct (Hera (yoe + era * 400 + 1 - 1) ltac:(lia)) as [-> ->].
    replace (mp - 9 + 9) with mp by lia. fold d.
    repeat split; lia.
Qed.

Lemma time_of_day (ms : Z) :
  0 <= ms < 86400000 ->
  0 <= ms / 3600000 <= 23 /\ 0 <= ms / 60000 mod 60 <= 59
  /\ 0 <= ms / 1000 mod 60 <= 59 /\ 0 <= ms mod 1000 <= 999
  /\ ms / 3600000 * 3600000 + ms / 60000 mod 60 * 60000 + ms / 1000 mod 60 * 1000
     + ms mod 1000 = ms.
Proof. intros Hms. Z.div_mod_to_equations. lia. Qed.

(** [new Date(date.toISOString())] is an equal date. *)
Lemma parse_toISOString (t : Z) :
  DateTime.valid_time t -> DateTime.parse (DateTime.toISOString t) = Some t.
Proof.
  unfold DateTime.valid_time. intros Ht.
  unfold DateTime.toISOString, DateTime.toISOString_k, DateTime.msPerDay.
  pose proof (civil_from_days_spec (t / 86400000)) as Hcivil.
  destruct (DateTime.civil_from_days (t / 86400000)) as [[y m] d].
  destruct Hcivil as (Hm & Hd & Hdays & Hy).
  assert (Hms : 0 <= t mod 86400000 < 86400000) by (apply Z.mod_pos_bound; lia).
  destruct (time_of_day _ Hms) as (Hhh & Hmi & Hss & Hmsec & Hsum).
  assert (Hyear : -999999 <= y <= 999999).
  { assert (Hday : -100000001 <= t / 86400000 <= 100000001).
    { clear - Ht. Z.div_mod_to_equations. lia. }
    revert Hy Hday. generalize (t / 86400000). intros day Hy Hday.
    assert (Hera : -690 <= (day + 719468) / 146097 <= 690).
    { clear - Hday. Z.div_mod_to_equations. lia. }
    lia. }
  unfold DateTime.parse.
  rewrite read_year_string by exact Hyear. cbn [mbind option_bind DateTime.expect Ascii.eqb Bool.eqb].
  rewrite (read_digits_pad_exact 2 m) by (cbn; lia).
  cbn [mbind option_bind DateTime.expect Ascii.eqb Bool.eqb].
  rewrite (read_digits_pad_exact 2 d) by (cbn; lia).
  cbn [mbind option_bind DateTime.expect Ascii.eqb Bool.eqb].
  rewrite (read_digits_pad_exact 2 (t mod 86400000 / 3600000)) by (cbn; lia).
  cbn [mbind option_bind DateTime.expect Ascii.eqb Bool.eqb].
  rewrite (read_digits_pad_exact 2 (t mod 86400000 / 60000 mod 60)) by (cbn; lia).
  cbn [mbind option_bind DateTime.expect Ascii.eqb Bool.eqb].
  rewrite (read_digits_pad_exact 2 (t mod 86400000 / 1000 mod 60)) by (cbn; lia).
  cbn [mbind option_bind DateTime.expect Ascii.eqb Bool.eqb].
  rewrite (read_digits_pad_exact 3 (t mod 86400000 mod 1000)) by (cbn; lia).
  cbn [mbind option_bind DateTime.expect Ascii.eqb Bool.eqb String.eqb negb].
  replace ((1 <=? m) && (m <=? 12) && (1 <=? d) && (d <=? 31)) with true
    by (symmetry; repeat (apply andb_true_intro; split); apply Z.leb_le; lia).
  replace ((t mod 86400000 / 3600000 <=? 23) && (t mod 86400000 / 60000 mod 60 <=? 59)
           && (t mod 86400000 / 1000 mod 60 <=? 59)) with true
    by (symmetry; repeat (apply andb_true_intro; split); apply Z.leb_le; lia).
  cbn [negb orb]. unfold DateTime.msPerDay. rewrite Hdays.
  replace (t / 86400000 * 86400000 + t mod 86400000 / 3600000 * 3600000
           + t mod 86400000 / 60000 mod 60 * 60000 + t mod 86400000 / 1000 mod 60 * 1000
           + t mod 86400000 mod 1000) with t.
  - replace ((-8640000000000000 <=? t) && (t <=? 8640000000000000)) with true; [reflexivity|].
    symmetry. apply andb_true_intro. split; apply Z.leb_le; lia.
  - pose proof (Z.div_mod t 86400000 ltac:(lia)). lia.
Qed.


(** ** JSON text read back *)

(** Induction on values, with the hypothesis for every element and for
    the value of every member. *)
Lemma JsVal_ind (P : JsVal -> Prop) :
  P JUndefined -> P JNull -> (forall b, P (JBool b)) -> (forall lit, P (JNum lit)) ->
  (forall s, P (JStr s)) -> (forall t, P (JDate t)) -> (forall hex, P (JObjectId hex)) ->
  (forall items, Forall P items -> P (JArr items)) ->
  (forall props, Forall (fun p => P (snd p)) props -> P (JObj props)) ->
  forall v, P v.
Proof.
  intros Hu Hn Hb Hnum Hs Hd Ho Ha Hobj.
  fix IH 1. intros [| |b|lit|s|t|hex|items|props].
  - exact Hu.
  - exact Hn.
  - apply Hb.
  - apply Hnum.
  - apply Hs.
  - apply Hd.
  - apply Ho.
  - apply Ha. induction items as [|v items IHitems]; constructor; [apply IH | exact IHitems].
  - apply Hobj. induction props as [|[name v] props IHprops]; constructor;
      [apply IH | exact IHprops].
Qed.

(** *** String literals *)

Lemma parse_string_body_quote_char (c : ascii) (body : string) :
  JSON.parse_string_body (JSON.quote_char c body)
  = match JSON.parse_string_body body with
    | Some (str, rest) => Some (String c str, rest)
    | None => None
    end.
Proof.
  destruct c as [[] [] [] [] [] [] [] []]; reflexivity.
Qed.

Lemma parse_string_body_quote_chars (s k : string) :
  JSON.parse_string_body (JSON.quote_chars s (String JSON.dquote k)) = Some (s, k).
Proof.
  induction s as [|c s IH]; cbn [JSON.quote_chars].
  - reflexivity.
  - rewrite parse_string_body_quote_char, IH. reflexivity.
Qed.

Lemma length_quote_char (c : ascii) (body : string) :
  (String.length body < String.length (JSON.quote_char c body))%nat.
Proof.
  unfold JSON.quote_char. repeat (destruct (_ =? _)%N; [cbn; lia|]).
  destruct (_ <? _)%N; cbn; lia.
Qed.

Lemma length_quote (s k : string) :
  (2 + String.length k <= String.length (JSON.quote s k))%nat.
Proof.
  unfold JSON.quote. cbn [String.length].
  assert (S (String.length k) <= String.length (JSON.quote_chars s (String JSON.dquote k)))%nat;
    [|lia].
  induction s as [|c s IH]; cbn [JSON.quote_chars].
  - cbn. lia.
  - pose proof (length_quote_char c (JSON.quote_chars s (String JSON.dquote k))). lia.
Qed.

(** *** Numbers *)


(** *** Numbers *)

Lemma digit_is_num_char (c : ascii) : is_digit c = true -> JSON.is_num_char c = true.
Proof. intros Hc. unfold JSON.is_num_char. rewrite Hc. reflexivity. Qed.

Lemma number_chars_skip_digits (s : string) :
  JSON.number_chars (JSON.skip_digits s) = true -> JSON.number_chars s = true.
Proof.
  induction s as [|c s IH]; cbn; [reflexivity|].
  destruct (is_digit c) eqn:Hc.
  - intros Hrest. rewrite (digit_is_num_char c Hc), (IH Hrest). reflexivity.
  - cbn. intros Hrest. exact Hrest.
Qed.

Lemma number_chars_digits1 (s rest : string) :
  JSON.digits1 s = Some rest -> JSON.number_chars rest = true -> JSON.number_chars s = true.
Proof.
  destruct s as [|c s]; cbn; [discriminate|].
  destruct (is_digit c) eqn:Hc; [|discriminate].
  intros [= <-] Hrest. rewrite (digit_is_num_char c Hc). cbn.
  apply number_chars_skip_digits, Hrest.
Qed.

Lemma number_chars_exp (s : string) :
  JSON.number_exp s = true -> JSON.number_chars s = true.
Proof.
  destruct s as [|c s]; [reflexivity|]. unfold JSON.number_exp.
  destruct (Ascii.eqb c "e" || Ascii.eqb c "E") eqn:He; [|discriminate].
  assert (Hc : JSON.is_num_char c = true).
  { unfold JSON.is_num_char. apply orb_prop in He as [-> | ->];
      rewrite ?orb_true_r; reflexivity. }
  cbn [JSON.number_chars]. rewrite Hc. cbn [andb].
  assert (Hdigits : forall r, match JSON.digits1 r with
                              | Some EmptyString => true
                              | _ => false
                              end = true -> JSON.number_chars r = true).
  { intros r Hr. destruct (JSON.digits1 r) as [[|]|] eqn:Hd; try discriminate.
    apply (number_chars_digits1 _ _ Hd). reflexivity. }
  destruct s as [|sg s']; [intros Hr; apply Hdigits, Hr|].
  destruct (Ascii.eqb sg "+" || Ascii.eqb sg "-") eqn:Hsg.
  - intros Hr. cbn [JSON.number_chars]. rewrite (Hdigits _ Hr), andb_true_r.
    unfold JSON.is_num_char. apply orb_prop in Hsg as [-> | ->];
      rewrite ?orb_true_r; reflexivity.
  - intros Hr. apply Hdigits, Hr.
Qed.

Lemma number_chars_frac (s : string) :
  JSON.number_frac s = true -> JSON.number_chars s = true.
Proof.
  destruct s as [|c s]; [reflexivity|]. unfold JSON.number_frac.
  destruct (Ascii.eqb c ".") eqn:Hdot.
  - destruct (JSON.digits1 s) as [rest|] eqn:Hd; [|discriminate].
    intros Hexp. cbn [JSON.number_chars].
    rewrite (number_chars_digits1 _ _ Hd (number_chars_exp _ Hexp)), andb_true_r.
    unfold JSON.is_num_char. rewrite Hdot, ?orb_true_r. reflexivity.
  - apply number_chars_exp.
Qed.

Lemma nonzero_digit_is_digit (c : ascii) : is_nonzero_digit c = true -> is_digit c = true.
Proof.
  unfold is_nonzero_digit, is_digit. intros Hc. apply andb_prop in Hc as [H1 H2].
  rewrite H2, andb_true_r. apply N.leb_le in H1. apply N.leb_le. lia.
Qed.

(** A number of the grammar starts with a digit or a minus sign and is
    made of characters of numbers. *)
Lemma valid_number_shape (lit : string) :
  JSON.valid_number lit = true ->
  JSON.number_chars lit = true
  /\ exists c rest, lit = String c rest /\ (is_digit c || Ascii.eqb c "-") = true.
Proof.
  assert (Hbody : forall body,
             match body with
             | String c rest =>
                 if Ascii.eqb c "0" then JSON.number_frac rest
                 else if is_nonzero_digit c then JSON.number_frac (JSON.skip_digits rest)
                 else false
             | EmptyString => false
             end = true ->
             JSON.number_chars body = true
             /\ exists c rest, body = String c rest /\ is_digit c = true).
  { intros [|c rest]; [discriminate|].
    destruct (Ascii.eqb c "0") eqn:H0.
    - apply Ascii.eqb_eq in H0 as ->. intros Hfrac.
      split; [|eauto]. cbn [JSON.number_chars]. rewrite (number_chars_frac _ Hfrac).
      reflexivity.
    - destruct (is_nonzero_digit c) eqn:Hnz; [|discriminate].
      intros Hfrac. apply nonzero_digit_is_digit in Hnz.
      split; [|eauto]. cbn [JSON.number_chars].
      rewrite (digit_is_num_char c Hnz).
      rewrite (number_chars_skip_digits _ (number_chars_frac _ Hfrac)). reflexivity. }
  unfold JSON.valid_number. destruct lit as [|c rest]; [discriminate|].
  destruct (Ascii.eqb c "-") eqn:Hminus.
  - intros Hvalid. destruct (Hbody rest Hvalid) as [Hchars _].
    split.
    + cbn [JSON.number_chars]. rewrite Hchars, andb_true_r.
      unfold JSON.is_num_char. rewrite Hminus, ?orb_true_r. reflexivity.
    + exists c, rest. rewrite Hminus, orb_true_r. split; reflexivity.
  - intros Hvalid.
    destruct (Hbody (String c rest) Hvalid) as [Hchars (c' & rest' & [= <- <-] & Hd)].
    split; [exact Hchars|]. exists c, rest. rewrite Hd. split; reflexivity.
Qed.

Lemma append_cons (c : ascii) (s k : string) : String c s +:+ k = String c (s +:+ k).
Proof. reflexivity. Qed.

Lemma span_num_append (lit k : string) :
  JSON.number_chars lit = true -> JSON.terminated k = true ->
  JSON.span_num (lit +:+ k) = (lit, k).
Proof.
  intros Hlit Hk. induction lit as [|c lit IH].
  - change ("" +:+ k) with k. destruct k as [|c k]; [reflexivity|].
    cbn in *. apply negb_true_iff in Hk. rewrite Hk. reflexivity.
  - cbn [JSON.number_chars] in Hlit. apply andb_prop in Hlit as [Hc Hlit].
    rewrite append_cons. cbn [JSON.span_num]. rewrite Hc, (IH Hlit). reflexivity.
Qed.

(** The first character of a number is neither blank nor the first
    character of another kind of value. *)
Lemma number_head (c : ascii) :
  (is_digit c || Ascii.eqb c "-") = true ->
  JSON.is_ws c = false
  /\ Ascii.eqb c "{" = false /\ Ascii.eqb c "[" = false
  /\ Ascii.eqb c JSON.dquote = false /\ Ascii.eqb c "t" = false
  /\ Ascii.eqb c "f" = false /\ Ascii.eqb c "n" = false
  /\ Ascii.eqb c "]" = false /\ Ascii.eqb c "}" = false.
Proof.
  destruct c as [[] [] [] [] [] [] [] []]; vm_compute; intros Hc;
    first [discriminate | repeat split].
Qed.

Lemma parse_value_number (lit k : string) (fuel : nat) :
  JSON.valid_number lit = true -> JSON.terminated k = true ->
  JSON.parse_value (S fuel) (lit +:+ k) = Some (JNum lit, k).
Proof.
  intros Hvalid Hk.
  destruct (valid_number_shape lit Hvalid) as [Hchars (c & rest & -> & Hhead)].
  destruct (number_head c Hhead) as (Hws & H1 & H2 & H3 & H4 & H5 & H6 & _).
  rewrite append_cons. cbn [JSON.parse_value JSON.skip_ws].
  rewrite Hws, H1, H2, H3, H4, H5, H6. rewrite <- append_cons.
  rewrite (span_num_append _ _ Hchars Hk), Hvalid. reflexivity.
Qed.

(** *** Values *)

Lemma write_members_undefined (k : string) (pending : bool) (name : string)
    (ps : list (string * JsVal)) :
  JSON.write_members k pending ((name, JUndefined) :: ps) = JSON.write_members k pending ps.
Proof. reflexivity. Qed.

Lemma write_members_cons (k : string) (pending : bool) (name : string) (v : JsVal)
    (ps : list (string * JsVal)) :
  v <> JUndefined ->
  JSON.write_members k pending ((name, v) :: ps)
  = let body := JSON.quote name (String ":" (JSON.write_value v (JSON.write_members k true ps))) in
    if pending then String "," body else body.
Proof. intros Hv. destruct v; [contradiction|reflexivity..]. Qed.

Lemma toJSON_members_cons (name : string) (v : JsVal) (ps : list (string * JsVal)) :
  v <> JUndefined ->
  JSON.toJSON_members ((name, v) :: ps) = (name, JSON.toJSON v) :: JSON.toJSON_members ps.
Proof. intros Hv. destruct v; [contradiction|reflexivity..]. Qed.

Lemma write_elements_cons (k : string) (pending : bool) (v : JsVal) (vs : list JsVal) :
  JSON.write_elements k pending (v :: vs)
  = let body := JSON.write_value v (JSON.write_elements k true vs) in
    if pending then String "," body else body.
Proof. reflexivity. Qed.

(** The text of a value starts with a character that is not blank and
    closes neither an array nor an object. *)
Lemma write_value_head (v : JsVal) (k : string) :
  JSON.serialisable v = true ->
  exists c rest, JSON.write_value v k = String c rest
                 /\ JSON.is_ws c = false /\ Ascii.eqb c "]" = false.
Proof.
  destruct v as [| |[]|lit|s|t|hex|items|props]; intros Hser;
    try (eexists _, _; split; [reflexivity|]; split; reflexivity).
  cbn in Hser. destruct (valid_number_shape lit Hser) as [_ (c & rest & -> & Hhead)].
  destruct (number_head c Hhead) as (Hws & _ & _ & _ & _ & _ & _ & Hclose & _).
  exists c, (rest +:+ k). repeat split; assumption.
Qed.

Lemma write_elements_pending (k : string) (vs : list JsVal) :
  JSON.terminated (JSON.write_elements k true vs) = true.
Proof. destruct vs; reflexivity. Qed.

Lemma skip_ws_cons (c : ascii) (s : string) :
  JSON.is_ws c = false -> JSON.skip_ws (String c s) = String c s.
Proof. intros Hc. cbn [JSON.skip_ws]. rewrite Hc. reflexivity. Qed.

Lemma parse_elements_written (vs : list JsVal) :
  Forall JSON.reads vs -> forallb JSON.serialisable vs = true ->
  forall (v : JsVal) (k : string) (fuel : nat),
    JSON.reads v -> JSON.serialisable v = true ->
    (S (JSON.size v) + list_sum (List.map (fun v => S (JSON.size v)) vs) <= fuel)%nat ->
    JSON.parse_elements fuel (JSON.write_value v (JSON.write_elements k true vs))
    = Some (JSON.toJSON v :: List.map JSON.toJSON vs, k).
Proof.
  induction vs as [|v' vs IH]; intros Hreads Hser v k fuel Hv Hserv Hfuel;
    (destruct fuel as [|n]; [lia|]); cbn [JSON.parse_elements].
  - rewrite (Hv Hserv _ n (write_elements_pending k [])) by lia.
    reflexivity.
  - rewrite (Hv Hserv _ n (write_elements_pending k (v' :: vs))) by lia.
    rewrite write_elements_cons. cbv zeta.
    rewrite (skip_ws_cons "," _ eq_refl).
    change (Ascii.eqb "," ",") with true. cbv iota.
    inversion Hreads as [|? ? Hv' Hreads']; subst. cbn [forallb] in Hser.
    apply andb_prop in Hser as [Hserv' Hser].
    change (list_sum (List.map (fun v => S (JSON.size v)) (v' :: vs)))
      with (S (JSON.size v') + list_sum (List.map (fun v => S (JSON.size v)) vs))%nat
      in Hfuel.
    rewrite (IH Hreads' Hser v' k n Hv' Hserv') by lia.
    reflexivity.
Qed.

Lemma undefined_or_not (v : JsVal) : v = JUndefined \/ v <> JUndefined.
Proof. destruct v; [left; reflexivity | right; discriminate ..]. Qed.

Lemma member_size_defined (name : string) (v : JsVal) :
  v <> JUndefined -> JSON.member_size (name, v) = S (JSON.size v).
Proof. intros Hv. destruct v; [contradiction|reflexivity..]. Qed.

Lemma write_members_pending (ps : list (string * JsVal)) (k : string) :
  (JSON.toJSON_members ps = [] ->
   forall pending, JSON.write_members k pending ps = String "}" k)
  /\ (JSON.toJSON_members ps <> [] ->
      JSON.write_members k true ps = String "," (JSON.write_members k false ps)
      /\ exists rest, JSON.write_members k false ps = String JSON.dquote rest).
Proof.
  induction ps as [|[name v] ps [IHnone IHsome]].
  - split; [reflexivity | intros Hne; contradiction Hne; reflexivity].
  - destruct (undefined_or_not v) as [->|Hv].
    + change (JSON.toJSON_members ((name, JUndefined) :: ps)) with (JSON.toJSON_members ps).
      split.
      * intros Hnone pending. rewrite write_members_undefined. apply IHnone, Hnone.
      * intros Hsome. rewrite !write_members_undefined. apply IHsome, Hsome.
    + rewrite (toJSON_members_cons name v ps Hv). split; [discriminate|]. intros _.
      rewrite !(write_members_cons k _ name v ps Hv). cbv zeta. split; [reflexivity|].
      unfold JSON.quote. eauto.
Qed.

Lemma write_members_terminated (ps : list (string * JsVal)) (k : string) :
  JSON.terminated (JSON.write_members k true ps) = true.
Proof.
  destruct (write_members_pending ps k) as [Hnone Hsome].
  destruct (JSON.toJSON_members ps) as [|m ms] eqn:Hms.
  - rewrite (Hnone eq_refl true). reflexivity.
  - destruct (Hsome ltac:(discriminate)) as [-> _]. reflexivity.
Qed.

Lemma parse_members_written (ps : list (string * JsVal)) :
  Forall (fun p => JSON.reads (snd p)) ps ->
  forallb (fun p => JSON.serialisable (snd p)) ps = true ->
  JSON.toJSON_members ps <> [] ->
  forall (k : string) (fuel : nat),
    (list_sum (List.map JSON.member_size ps) <= fuel)%nat ->
    JSON.parse_members fuel (JSON.write_members k false ps)
    = Some (JSON.toJSON_members ps, k).
Proof.
  induction ps as [|[name v] ps IH]; intros Hreads Hser Hsome k fuel Hfuel;
    [contradiction Hsome; reflexivity|].
  inversion Hreads as [|? ? Hv Hreads']; subst. cbn [snd] in Hv.
  cbn [forallb snd] in Hser. apply andb_prop in Hser as [Hserv Hser].
  change (list_sum (List.map JSON.member_size ((name, v) :: ps)))
    with (JSON.member_size (name, v) + list_sum (List.map JSON.member_size ps))%nat
    in Hfuel.
  destruct (undefined_or_not v) as [->|Hdef];
    [|rewrite (member_size_defined name v Hdef) in Hfuel].
  - rewrite write_members_undefined.
    change (JSON.toJSON_members ((name, JUndefined) :: ps)) with (JSON.toJSON_members ps)
      in *.
    apply IH; [exact Hreads' | exact Hser | exact Hsome | lia].
  - rewrite (toJSON_members_cons name v ps Hdef), (write_members_cons k false name v ps Hdef).
    cbv zeta. destruct fuel as [|n]; [lia|].
    unfold JSON.quote. cbn [JSON.parse_members].
    rewrite (skip_ws_cons JSON.dquote _ eq_refl).
    change (Ascii.eqb JSON.dquote JSON.dquote) with true. cbv iota.
    rewrite parse_string_body_quote_chars.
    rewrite (skip_ws_cons ":" _ eq_refl).
    change (Ascii.eqb ":" ":") with true. cbv iota.
    rewrite (Hv Hserv _ n (write_members_terminated ps k)) by lia.
    destruct (write_members_pending ps k) as [Hnone Hmore].
    destruct (JSON.toJSON_members ps) as [|m ms] eqn:Hms.
    + rewrite (Hnone eq_refl true). reflexivity.
    + destruct (Hmore ltac:(discriminate)) as [-> _].
      rewrite (skip_ws_cons "," _ eq_refl).
      change (Ascii.eqb "," ",") with true. cbv iota.
      rewrite (IH Hreads' Hser ltac:(discriminate) k n) by lia. reflexivity.
Qed.

(** Every value is read back from its text. *)
Lemma parse_write_value (v : JsVal) : JSON.reads v.
Proof.
  induction v as [| |b|lit|s|t|hex|items IH|props IH] using JsVal_ind;
    intros Hser k fuel Hk Hfuel; (destruct fuel as [|n]; [cbn in Hfuel; lia|]).
  - reflexivity.
  - reflexivity.
  - destruct b; reflexivity.
  - apply parse_value_number; assumption.
  - change (JSON.write_value (JStr s) k) with (JSON.quote s k). unfold JSON.quote.
    cbn [JSON.parse_value]. rewrite (skip_ws_cons JSON.dquote _ eq_refl).
    change (Ascii.eqb JSON.dquote "{") with false.
    change (Ascii.eqb JSON.dquote "[") with false.
    change (Ascii.eqb JSON.dquote JSON.dquote) with true. cbv iota.
    rewrite parse_string_body_quote_chars. reflexivity.
  - change (JSON.write_value (JDate t) k) with (JSON.quote (DateTime.toISOString t) k).
    unfold JSON.quote.
    cbn [JSON.parse_value]. rewrite (skip_ws_cons JSON.dquote _ eq_refl).
    change (Ascii.eqb JSON.dquote "{") with false.
    change (Ascii.eqb JSON.dquote "[") with false.
    change (Ascii.eqb JSON.dquote JSON.dquote) with true. cbv iota.
    rewrite parse_string_body_quote_chars. reflexivity.
  - change (JSON.write_value (JObjectId hex) k) with (JSON.quote hex k). unfold JSON.quote.
    cbn [JSON.parse_value]. rewrite (skip_ws_cons JSON.dquote _ eq_refl).
    change (Ascii.eqb JSON.dquote "{") with false.
    change (Ascii.eqb JSON.dquote "[") with false.
    change (Ascii.eqb JSON.dquote JSON.dquote) with true. cbv iota.
    rewrite parse_string_body_quote_chars. reflexivity.
  - change (JSON.write_value (JArr items) k)
      with (String "[" (JSON.write_elements k false items)).
    change (JSON.toJSON (JArr items)) with (JArr (List.map JSON.toJSON items)).
    cbn [JSON.parse_value]. rewrite (skip_ws_cons "[" _ eq_refl).
    change (Ascii.eqb "[" "{") with false. change (Ascii.eqb "[" "[") with true. cbv iota.
    destruct items as [|v vs]; [reflexivity|].
    rewrite write_elements_cons. cbv zeta.
    inversion IH as [|? ? Hv Hvs]; subst.
    change (JSON.serialisable (JArr (v :: vs)))
      with (JSON.serialisable v && forallb JSON.serialisable vs) in Hser.
    apply andb_prop in Hser as [Hserv Hservs].
    destruct (write_value_head v (JSON.write_elements k true vs) Hserv)
      as (c & rest & Htext & Hws & Hclose).
    rewrite Htext at 1. rewrite (skip_ws_cons c rest Hws), Hclose.
    change (JSON.size (JArr (v :: vs)))
      with (S (S (JSON.size v) + list_sum (List.map (fun v => S (JSON.size v)) vs)))
      in Hfuel.
    rewrite (parse_elements_written vs Hvs Hservs v k n Hv Hserv) by lia. reflexivity.
  - change (JSON.write_value (JObj props) k)
      with (String "{" (JSON.write_members k false props)).
    change (JSON.toJSON (JObj props)) with (JObj (JSON.toJSON_members props)).
    cbn [JSON.parse_value]. rewrite (skip_ws_cons "{" _ eq_refl).
    change (Ascii.eqb "{" "{") with true. cbv iota.
    change (JSON.serialisable (JObj props))
      with (forallb (fun p => JSON.serialisable (snd p)) props) in Hser.
    change (JSON.size (JObj props))
      with (S (list_sum (List.map JSON.member_size props))) in Hfuel.
    destruct (write_members_pending props k) as [Hnone Hsome].
    destruct (JSON.toJSON_members props) as [|m ms] eqn:Hms.
    + rewrite (Hnone eq_refl false). reflexivity.
    + destruct (Hsome ltac:(discriminate)) as [_ [rest Htext]].
      rewrite Htext at 1. rewrite (skip_ws_cons JSON.dquote rest eq_refl).
      change (Ascii.eqb JSON.dquote "}") with false. cbv iota.
      rewrite (parse_members_written props IH Hser) by (rewrite ?Hms; try discriminate; lia).
      rewrite Hms. reflexivity.
Qed.

(** *** The length of a text bounds the fuel *)

Lemma length_append (s k : string) :
  String.length (s +:+ k) = (String.length s + String.length k)%nat.
Proof. induction s as [|c s IH]; [reflexivity|]. rewrite append_cons. cbn. rewrite IH. lia. Qed.

Lemma length_write_value (v : JsVal) (k : string) :
  JSON.serialisable v = true ->
  (JSON.size v + String.length k <= String.length (JSON.write_value v k))%nat.
Proof.
  revert k. induction v as [| |b|lit|s|t|hex|items IH|props IH] using JsVal_ind;
    intros k Hser.
  - cbn. lia.
  - cbn. lia.
  - destruct b; cbn; lia.
  - cbn in Hser. destruct (valid_number_shape lit Hser) as [_ (c & rest & -> & _)].
    change (JSON.write_value (JNum (String c rest)) k) with (String c rest +:+ k).
    rewrite length_append. cbn. lia.
  - pose proof (length_quote s k). cbn [JSON.write_value JSON.size]. lia.
  - pose proof (length_quote (DateTime.toISOString t) k). cbn [JSON.write_value JSON.size]. lia.
  - pose proof (length_quote hex k). cbn [JSON.write_value JSON.size]. lia.
  - change (JSON.write_value (JArr items) k)
      with (String "[" (JSON.write_elements k false items)).
    change (JSON.size (JArr items))
      with (S (list_sum (List.map (fun v => S (JSON.size v)) items))).
    change (JSON.serialisable (JArr items)) with (forallb JSON.serialisable items) in Hser.
    cbn [String.length].
    assert (Helems : forall pending : bool,
               (list_sum (List.map (fun v => S (JSON.size v)) items) + String.length k
                + (if pending then 1 else 0)
                <= String.length (JSON.write_elements k pending items))%nat).
    { induction items as [|v vs IHvs]; intros pending.
      - cbn. destruct pending; lia.
      - inversion IH as [|? ? Hv Hvs]; subst. cbn [forallb] in Hser.
        apply andb_prop in Hser as [Hserv Hservs].
        rewrite write_elements_cons. cbv zeta.
        change (list_sum (List.map (fun v => S (JSON.size v)) (v :: vs)))
          with (S (JSON.size v) + list_sum (List.map (fun v => S (JSON.size v)) vs))%nat.
        specialize (IHvs Hvs Hservs true).
        specialize (Hv (JSON.write_elements k true vs) Hserv). cbv iota in IHvs.
        destruct pending; cbn [String.length]; lia. }
    specialize (Helems false). cbv iota in Helems. lia.
  - change (JSON.write_value (JObj props) k)
      with (String "{" (JSON.write_members k false props)).
    change (JSON.size (JObj props)) with (S (list_sum (List.map JSON.member_size props))).
    change (JSON.serialisable (JObj props))
      with (forallb (fun p => JSON.serialisable (snd p)) props) in Hser.
    cbn [String.length].
    assert (Hmembers : forall pending : bool,
               (list_sum (List.map JSON.member_size props) + String.length k
                <= String.length (JSON.write_members k pending props))%nat).
    { induction props as [|[name v] ps IHps]; intros pending.
      - cbn. lia.
      - inversion IH as [|? ? Hv Hvs]; subst. cbn [forallb snd] in Hser, Hv.
        apply andb_prop in Hser as [Hserv Hservs].
        change (list_sum (List.map JSON.member_size ((name, v) :: ps)))
          with (JSON.member_size (name, v) + list_sum (List.map JSON.member_size ps))%nat.
        destruct (undefined_or_not v) as [->|Hdef].
        + rewrite write_members_undefined.
          specialize (IHps Hvs Hservs pending). cbn [JSON.member_size snd]. lia.
        + rewrite (member_size_defined name v Hdef),
            (write_members_cons k pending name v ps Hdef). cbv zeta.
          specialize (IHps Hvs Hservs true).
          specialize (Hv (JSON.write_members k true ps) Hserv).
          pose proof (length_quote name
                        (String ":" (JSON.write_value v (JSON.write_members k true ps))))
            as Hq. cbn [String.length] in Hq.
          destruct pending; cbn [String.length]; lia. }
    specialize (Hmembers false). lia.
Qed.

(** [JSON.parse(JSON.stringify(v))] is the value that the text of [v]
    denotes. *)
Lemma parse_stringify (v : JsVal) :
  JSON.serialisable v = true -> v <> JUndefined ->
  exists text, JSON.stringify v = Some text /\ JSON.parse text = inr (JSON.toJSON v).
Proof.
  intros Hser Hdef. exists (JSON.write_value v "").
  split; [destruct v; [contradiction|reflexivity..]|].
  unfold JSON.parse.
  rewrite (parse_write_value v Hser "" _ eq_refl).
  - reflexivity.
  - pose proof (length_write_value v "" Hser). cbn [String.length] in *. lia.
Qed.


(** ** Record Codec *)

(** Decoding what [encode] produced gives the value that the text
    denotes. *)
Lemma decode_encode (v : JsVal) :
  JSON.serialisable v = true -> v <> JUndefined ->
  exists text, encode v = inr text /\ decode text = inr (JSON.toJSON v).
Proof.
  intros Hser Hdef. destruct (parse_stringify v Hser Hdef) as (json & Hjson & Hparse).
  exists (Buffer.toBase64 json). unfold encode, decode. rewrite Hjson.
  split; [reflexivity|]. rewrite fromBase64_toBase64. exact Hparse.
Qed.

Lemma toJSON_toJS (record : DisasterData) : JSON.toJSON (toJS record) = wire record.
Proof. reflexivity. Qed.

Lemma serialisable_batch (batch : list DisasterData) :
  Forall valid_record batch ->
  JSON.serialisable (JArr (List.map toJS batch)) = true.
Proof.
  intros Hvalid. change (forallb JSON.serialisable (List.map toJS batch) = true).
  induction Hvalid as [|record batch (Hlat & Hlon & _) _ IH]; [reflexivity|].
  cbn [List.map forallb]. rewrite IH, andb_true_r.
  cbn. rewrite Hlat, Hlon. reflexivity.
Qed.

Lemma decodeBatch_encodeBatch (batch : list DisasterData) :
  Forall valid_record batch ->
  exists text, encodeBatch batch = inr text
               /\ decodeBatch text = inr (JArr (List.map wire batch)).
Proof.
  intros Hvalid.
  destruct (decode_encode (JArr (List.map toJS batch)) (serialisable_batch batch Hvalid)
              ltac:(discriminate)) as (text & Henc & Hdec).
  exists text. split; [exact Henc|]. unfold decodeBatch. rewrite Hdec.
  change (JSON.toJSON (JArr (List.map toJS batch)))
    with (JArr (List.map JSON.toJSON (List.map toJS batch))).
  rewrite List.map_map. reflexivity.
Qed.

Lemma decode_error (text : string) (e : Error) :
  decode text = inl e -> exists msg, e = SyntaxError msg.
Proof.
  unfold decode, JSON.parse.
  destruct (JSON.parse_value _ _) as [[v rest]|]; [destruct (JSON.skip_ws rest)|];
    intros [= <-]; eauto.
Qed.

(** C4, as the code has it.  For every valid batch, decoding the text
    that [encodeBatch] produces gives the records in order, each as an
    object with the same seven properties: [deviceId], [latitude],
    [longitude], [batteryLevel] and [batteryState] are what they were,
    while [_id] is the hexadecimal string of the id and [timestamp] the
    ISO-8601 string of the date (from which [new Date] gives the date
    back), not an [ObjectId] and a [Date].  An input that cannot be decoded
    makes [decodeBatch] end with a [SyntaxError] (a truncated text is an
    instance), and no error of the exchange leaves [connectToDevice]. *)
Theorem codec_round_trip_on_the_wire `{RealmCoercions} (batch : list DisasterData) :
  Forall valid_record batch ->
  (exists text, encodeBatch batch = inr text
                /\ decodeBatch text = inr (JArr (List.map wire batch)))
  /\ (forall record, In record batch ->
        Realm.prop (wire record) "_id" = JStr (_id record)
        /\ Realm.prop (wire record) "deviceId" = JStr (deviceId record)
        /\ Realm.prop (wire record) "latitude" = JNum (latitude record)
        /\ Realm.prop (wire record) "longitude" = JNum (longitude record)
        /\ Realm.prop (wire record) "batteryLevel" = JStr (batteryLevel record)
        /\ Realm.prop (wire record) "batteryState" = JStr (batteryState record)
        /\ Realm.prop (wire record) "timestamp"
           = JStr (DateTime.toISOString (timestamp record))
        /\ Convert.new_Date (Realm.prop (wire record) "timestamp") = Some (timestamp record))
  /\ (forall text e, decodeBatch text = inl e -> exists msg, e = SyntaxError msg)
  /\ decodeBatch "W3siX2lkIjoiNjVhMWYwYzJi" = inl (SyntaxError "Unexpected token in JSON")
  /\ (forall adapter device s,
        Ble.cancelConnection device = None ->
        fst (CommunicationService.connectToDevice adapter device s) = inr tt).
Proof.
  intros Hvalid. split; [exact (decodeBatch_encodeBatch batch Hvalid)|].
  split.
  { intros record Hin. rewrite List.Forall_forall in Hvalid.
    destruct (Hvalid record Hin) as (_ & _ & Htime).
    repeat (split; [reflexivity|]).
    change (Realm.prop (wire record) "timestamp")
      with (JStr (DateTime.toISOString (timestamp record))).
    cbn [Convert.new_Date]. apply parse_toISOString, Htime. }
  split; [exact decode_error|]. split; [vm_compute; reflexivity|].
  intros adapter device s Hcancel.
  pose proof (connectToDevice_spec adapter device s) as Hspec.
  destruct (CommunicationService.connectToDevice adapter device s) as [outcome s'].
  destruct Hspec as (calls & _ & Hspec). rewrite Hcancel in Hspec. apply Hspec.
Qed.

Lemma codec_round_trip_on_the_wire_witness :
  Forall valid_record [Sample.recordA; Sample.recordB]
  /\ exists text, encodeBatch [Sample.recordA; Sample.recordB] = inr text
                  /\ decodeBatch text = inr (JArr [wire Sample.recordA; wire Sample.recordB]).
Proof.
  assert (Hvalid : Forall valid_record [Sample.recordA; Sample.recordB]).
  { repeat constructor; cbn; unfold DateTime.valid_time; cbn; lia. }
  split; [exact Hvalid|].
  exact (proj1 (codec_round_trip_on_the_wire (H := Sample.strict_coercions)
                  [Sample.recordA; Sample.recordB] Hvalid)).
Defined.

(** C4, as the claim has it, fails: the timestamp of a decoded record is
    a string where the record had a [Date] (and its id a string where the
    record had an [ObjectId]). *)
Lemma codec_loses_dates_and_ids : ~ codec_round_trips_exactly.
Proof.
  intros Hclaim.
  assert (Hvalid : Forall valid_record [Sample.recordA]).
  { repeat constructor; cbn; unfold DateTime.valid_time; cbn; lia. }
  destruct (Hclaim [Sample.recordA] Hvalid) as (text & Henc & Hdec).
  destruct (decodeBatch_encodeBatch [Sample.recordA] Hvalid) as (text' & Henc' & Hdec').
  rewrite Henc in Henc'. injection Henc' as <-. rewrite Hdec in Hdec'.
  discriminate.
Qed.


(** ** Reconciliation Engine *)

Lemma own_prop_entries (l : list (string * Summary.entry)) (origin : string) :
  NoDup (l.*1) ->
  own_prop (List.map (fun p => (fst p, wire_entry (snd p))) l) origin
  = wire_entry <$> ((list_to_map l : gmap string Summary.entry) !! origin).
Proof.
  induction l as [|[o e] l IH]; intros Hnodup.
  - reflexivity.
  - cbn [fmap list_fmap fst] in Hnodup. apply NoDup_cons in Hnodup as [Hfresh Hnodup].
    cbn [List.map own_prop list_to_map foldr fst snd]. rewrite (IH Hnodup).
    change (foldr (fun p => <[p.1:=p.2]>) ∅ l) with (list_to_map l : gmap string Summary.entry).
    destruct (String.eqb_spec o origin) as [->|Hne].
    + rewrite lookup_insert_eq.
      rewrite (not_elem_of_list_to_map_1 (M := gmap string) l origin Hfresh). reflexivity.
    + rewrite lookup_insert_ne by exact Hne.
      destruct ((list_to_map l : gmap string Summary.entry) !! origin); reflexivity.
Qed.

Lemma get_wire_summary (remote : gmap string Summary.entry) (origin : string) :
  JS.get (wire_summary remote) origin
  = inr (match remote !! origin with
         | Some e => wire_entry e
         | None => JUndefined
         end).
Proof.
  unfold wire_summary. cbn [JS.get].
  rewrite own_prop_entries by apply NoDup_fst_map_to_list.
  rewrite list_to_map_to_list. destruct (remote !! origin); reflexivity.
Qed.

Lemma toJSON_summary (remote : gmap string Summary.entry) :
  JSON.toJSON (Summary.toJS remote) = wire_summary remote
  /\ JSON.serialisable (Summary.toJS remote) = true.
Proof.
  unfold Summary.toJS, wire_summary.
  change (JSON.toJSON (JObj ?ps)) with (JObj (JSON.toJSON_members ps)).
  change (JSON.serialisable (JObj ?ps)) with (forallb (fun p => JSON.serialisable (snd p)) ps).
  induction (map_to_list remote) as [|[o e] l [IH1 IH2]]; [split; reflexivity|].
  cbn [List.map forallb fst snd]. injection IH1 as IH1.
  split; [|exact IH2].
  change (JSON.toJSON_members ((o, JObj [("timestamp", JDate (Summary.timestamp e))]) :: ?ps))
    with ((o, wire_entry e) :: JSON.toJSON_members ps).
  rewrite IH1. reflexivity.
Qed.

(** The summary of a peer is read as [wire_summary] gives it. *)
Lemma decodeSummary_encodeSummary (remote : gmap string Summary.entry) :
  exists text, encodeSummary remote = inr text
               /\ decodeSummary text = inr (wire_summary remote).
Proof.
  destruct (toJSON_summary remote) as [Hjson Hser].
  destruct (decode_encode (Summary.toJS remote) Hser ltac:(discriminate))
    as (text & Henc & Hdec).
  exists text. split; [exact Henc|]. unfold decodeSummary. rewrite Hdec, Hjson. reflexivity.
Qed.

Lemma remote_lacks_wire_summary (remote : gmap string Summary.entry) (record : DisasterData) :
  (forall origin e, remote !! origin = Some e -> DateTime.valid_time (Summary.timestamp e)) ->
  remote_lacks (wire_summary remote) record = inr (not_covered remote record).
Proof.
  intros Hvalid. unfold remote_lacks, not_covered. rewrite get_wire_summary.
  destruct (remote !! deviceId record) as [e|] eqn:Hknown; [|reflexivity].
  change (truthy (wire_entry e)) with true.
  change (JS.get (wire_entry e) "timestamp")
    with (@inr Error JsVal (JStr (DateTime.toISOString (Summary.timestamp e)))).
  cbn [negb Convert.new_Date].
  rewrite (parse_toISOString _ (Hvalid _ _ Hknown)). reflexivity.
Qed.

Lemma missing_loop_filter (remoteSummary : JsVal) (keep : DisasterData -> bool)
    (myData recordsToSend : list DisasterData) :
  (forall record, remote_lacks remoteSummary record = inr (keep record)) ->
  missing_loop remoteSummary myData recordsToSend
  = inr (recordsToSend ++ List.filter keep myData)%list.
Proof.
  intros Hkeep. revert recordsToSend.
  induction myData as [|record myData IH]; intros recordsToSend; cbn.
  - rewrite app_nil_r. reflexivity.
  - rewrite Hkeep. destruct (keep record); rewrite IH; [|reflexivity].
    rewrite <- app_assoc. reflexivity.
Qed.




(** ** Summary Builder *)

Lemma summary_step_lookup (summary : gmap string Summary.entry) (record : DisasterData)
    (origin : string) :
  summary_step summary record !! origin
  = if String.eqb (deviceId record) origin
    then match summary !! origin with
         | Some seen =>
             if Summary.timestamp seen <? timestamp record
             then Some {| Summary.timestamp := timestamp record |}
             else Some seen
         | None => Some {| Summary.timestamp := timestamp record |}
         end
    else summary !! origin.
Proof.
  unfold summary_step. destruct (String.eqb_spec (deviceId record) origin) as [<-|Hne].
  - destruct (summary !! deviceId record) as [seen|] eqn:Hseen.
    + destruct (Summary.timestamp seen <? timestamp record);
        [apply lookup_insert_eq | exact Hseen].
    + apply lookup_insert_eq.
  - destruct (summary !! deviceId record) as [seen|].
    + destruct (Summary.timestamp seen <? timestamp record);
        [apply lookup_insert_ne, Hne | reflexivity].
    + apply lookup_insert_ne, Hne.
Qed.

Lemma fold_summary_step_latest (data : list DisasterData)
    (summary : gmap string Summary.entry) (origin : string) :
  latest_of summary data origin (fold_left summary_step data summary !! origin).
Proof.
  revert summary. induction data as [|record data IH]; intros summary.
  - cbn. destruct (summary !! origin) as [e|] eqn:He; cbn.
    + split; [left; exact He|]. split; [intros ? []|]. rewrite He. intros e0 [= <-]. lia.
    + split; [exact He | intros ? []].
  - cbn [fold_left]. specialize (IH (summary_step summary record)).
    pose proof (summary_step_lookup summary record origin) as Hstep.
    destruct (fold_left summary_step data (summary_step summary record) !! origin)
      as [e|]; cbn in IH |- *.
    + destruct IH as (Hfrom & Hdata & Hacc).
      destruct (String.eqb_spec (deviceId record) origin) as [Horigin|Hother].
      * assert (Hrecord : timestamp record <= Summary.timestamp e
                          /\ forall e0, summary !! origin = Some e0 ->
                                        Summary.timestamp e0 <= Summary.timestamp e).
        { destruct (summary !! origin) as [seen|].
          - destruct (Z.ltb_spec (Summary.timestamp seen) (timestamp record)).
            + specialize (Hacc _ Hstep). cbn in Hacc.
              split; [lia|]. intros e0 [= <-]. lia.
            + specialize (Hacc _ Hstep). split; [lia|]. intros e0 [= <-]. lia.
          - specialize (Hacc _ Hstep). cbn in Hacc. split; [lia | discriminate]. }
        destruct Hrecord as [Hrecord Hseen].
        split; [|split].
        -- destruct Hfrom as [Hfrom|(r & Hin & Hr & Ht)].
           ++ rewrite Hstep in Hfrom. destruct (summary !! origin) as [seen|].
              ** destruct (Summary.timestamp seen <? timestamp record).
                 --- injection Hfrom as <-. right. exists record. cbn. auto.
                 --- left. exact Hfrom.
              ** injection Hfrom as <-. right. exists record. cbn. auto.
           ++ right. exists r. cbn. auto.
        -- intros r [<-|Hin] Hr; [exact Hrecord | exact (Hdata r Hin Hr)].
        -- exact Hseen.
      * rewrite Hstep in Hfrom, Hacc. split; [|split].
        -- destruct Hfrom as [Hfrom|(r & Hin & Hr & Ht)]; [left; exact Hfrom|].
           right. exists r. cbn. auto.
        -- intros r [<-|Hin] Hr; [contradiction | exact (Hdata r Hin Hr)].
        -- exact Hacc.
    + destruct IH as [Hnone Hdata]. rewrite Hstep in Hnone.
      destruct (String.eqb_spec (deviceId record) origin) as [Horigin|Hother].
      * destruct (summary !! origin) as [seen|]; [|discriminate].
        destruct (Summary.timestamp seen <? timestamp record); discriminate.
      * split; [exact Hnone|]. intros r [<-|Hin]; [exact Hother | exact (Hdata r Hin)].
Qed.


Lemma summary_of_latest (data : list DisasterData) (origin : string) :
  latest_of ∅ data origin (summary_of data !! origin).
Proof. apply fold_summary_step_latest. Qed.





(** * Further properties *)

(** ** The summary on the wire *)

Lemma toBase64_empty (bytes : string) : Buffer.toBase64 bytes = EmptyString -> bytes = EmptyString.
Proof. destruct bytes as [|a [|b [|c rest]]]; cbn; [reflexivity|discriminate..]. Qed.


Lemma encodeBatch_not_empty (batch : list DisasterData) (text : string) :
  encodeBatch batch = inr text -> text <> EmptyString.
Proof.
  unfold encodeBatch, encode.
  change (JSON.stringify (JArr ?vs)) with (Some (String "[" (JSON.write_elements "" false vs))).
  generalize (JSON.write_elements "" false (List.map toJS batch)).
  intros elements Henc ->.
  assert (Buffer.toBase64 (String "[" elements) = EmptyString) as Hempty by congruence.
  apply toBase64_empty in Hempty. discriminate.
Qed.



(** ** One round of reconciliation *)

Lemma advertise_spec (s : State) :
  Realm.isClosed (realm s) = false ->
  advertise CommunicationService.bgObjects s
  = (inr (wire_summary (summary_of (Realm.objects (realm s)))), s).
Proof.
  intros Hopen.
  destruct (decodeSummary_encodeSummary (summary_of (Realm.objects (realm s))))
    as (text & Henc & Hdec).
  unfold advertise, generateDataSummary, CommunicationService.bgObjects. unfold_M.
  unfold Realm.all. rewrite Hopen, Henc, Hdec. reflexivity.
Qed.

Lemma summary_of_valid (data : list DisasterData) :
  (forall record, In record data -> DateTime.valid_time (timestamp record)) ->
  forall origin e, summary_of data !! origin = Some e -> DateTime.valid_time (Summary.timestamp e).
Proof.
  intros Hvalid origin e Hknown. pose proof (summary_of_latest data origin) as Hlatest.
  rewrite Hknown in Hlatest. cbn in Hlatest.
  destruct Hlatest as ([Hempty|(record & Hin & _ & Hstamp)] & _).
  - rewrite lookup_empty in Hempty. discriminate.
  - rewrite <- Hstamp. exact (Hvalid _ Hin).
Qed.

Lemma getMissingDataFromRemote_spec (remote : gmap string Summary.entry) (s : State) :
  (forall origin e, remote !! origin = Some e -> DateTime.valid_time (Summary.timestamp e)) ->
  Realm.isClosed (realm s) = false ->
  getMissingDataFromRemote CommunicationService.bgObjects (wire_summary remote) s
  = (inr (List.filter (not_covered remote) (Realm.objects (realm s))), s).
Proof.
  intros Hvalid Hopen.
  unfold getMissingDataFromRemote, CommunicationService.bgObjects, missing_for.
  unfold_M. unfold Realm.all. rewrite Hopen.
  rewrite (missing_loop_filter _ (not_covered remote)); [reflexivity|].
  intros record. apply remote_lacks_wire_summary, Hvalid.
Qed.

(** A store whose summary covers a record does not get older for it when
    records are added. *)
Lemma covered_by_member (data : list DisasterData) (held record : DisasterData) :
  In held data -> deviceId held = deviceId record -> timestamp record <= timestamp held ->
  not_covered (summary_of data) record = false.
Proof.
  intros Hin Horigin Hle. unfold not_covered.
  pose proof (summary_of_latest data (deviceId record)) as Hlatest.
  destruct (summary_of data !! deviceId record) as [e|]; cbn in Hlatest.
  - destruct Hlatest as (_ & Hmax & _). specialize (Hmax held Hin Horigin).
    apply Z.ltb_ge. lia.
  - destruct Hlatest as [_ Hnone]. exfalso. exact (Hnone held Hin Horigin).
Qed.

(** X2.  One push makes the receiver cover the sender.  Let [b] advertise
    its summary to [a], and let [a] compute from it the records to push.
    For every later store [b'] of the receiver that still holds what [b]
    held and holds the pushed records, [a] has nothing left to send against
    the summary that [b'] advertises.  (In particular a device sends
    nothing to a peer that holds all its records.) *)
Theorem push_round_covers_sender (a b b' : State)
    (remoteSummary : JsVal) (pushed : list DisasterData) :
  Realm.isClosed (realm a) = false ->
  Realm.isClosed (realm b) = false ->
  Realm.isClosed (realm b') = false ->
  (forall record, In record (Realm.objects (realm b')) ->
                  DateTime.valid_time (timestamp record)) ->
  fst (advertise CommunicationService.bgObjects b) = inr remoteSummary ->
  fst (getMissingDataFromRemote CommunicationService.bgObjects remoteSummary a) = inr pushed ->
  (forall record, In record (Realm.objects (realm b)) -> In record (Realm.objects (realm b'))) ->
  (forall record, In record pushed -> In record (Realm.objects (realm b'))) ->
  exists remoteSummary',
    advertise CommunicationService.bgObjects b' = (inr remoteSummary', b')
    /\ getMissingDataFromRemote CommunicationService.bgObjects remoteSummary' a = (inr [], a).
Proof.
  intros Ha Hb Hb' Hvalid Hadv Hpush Hkept Hgot.
  rewrite (advertise_spec b Hb) in Hadv. injection Hadv as <-.
  assert (Hvalid_b : forall origin e,
             summary_of (Realm.objects (realm b)) !! origin = Some e ->
             DateTime.valid_time (Summary.timestamp e)).
  { apply summary_of_valid. intros record Hin. exact (Hvalid _ (Hkept _ Hin)). }
  rewrite (getMissingDataFromRemote_spec _ a Hvalid_b Ha) in Hpush. injection Hpush as <-.
  exists (wire_summary (summary_of (Realm.objects (realm b')))).
  split; [exact (advertise_spec b' Hb')|].
  rewrite (getMissingDataFromRemote_spec _ a (summary_of_valid _ Hvalid) Ha).
  f_equal. f_equal.
  induction (Realm.objects (realm a)) as [|record data IH]; [reflexivity|].
  cbn [List.filter] in Hgot |- *.
  destruct (not_covered (summary_of (Realm.objects (realm b))) record) eqn:Hsent.
  - rewrite (covered_by_member _ record record (Hgot _ (or_introl eq_refl)) eq_refl)
      by lia.
    apply IH. intros r Hin. apply Hgot. right. exact Hin.
  - assert (not_covered (summary_of (Realm.objects (realm b'))) record = false) as ->.
    { unfold not_covered in Hsent.
      pose proof (summary_of_latest (Realm.objects (realm b)) (deviceId record)) as Hlatest.
      destruct (summary_of (Realm.objects (realm b)) !! deviceId record) as [e|];
        [|discriminate].
      cbn in Hlatest. destruct Hlatest as ([Hempty|(held & Hin & Horigin & Hstamp)] & _).
      { rewrite lookup_empty in Hempty. discriminate. }
      apply Z.ltb_ge in Hsent.
      apply (covered_by_member _ held record (Hkept _ Hin) Horigin). lia. }
    apply IH. exact Hgot.
Qed.

Lemma push_round_covers_sender_witness :
  let a := Sample.holding [Sample.recordA; Sample.recordA3; Sample.recordB] in
  let b := Sample.holding [Sample.recordA] in
  let b' := Sample.holding [Sample.recordA; Sample.recordA3; Sample.recordB] in
  exists remoteSummary,
    fst (advertise CommunicationService.bgObjects b) = inr remoteSummary
    /\ fst (getMissingDataFromRemote CommunicationService.bgObjects remoteSummary a)
       = inr [Sample.recordA3; Sample.recordB]
    /\ exists remoteSummary',
         advertise CommunicationService.bgObjects b' = (inr remoteSummary', b')
         /\ getMissingDataFromRemote CommunicationService.bgObjects remoteSummary' a
            = (inr [], a).
Proof.
  intros a b b'.
  assert (Hvalid : forall record, In record (Realm.objects (realm b')) ->
                                  DateTime.valid_time (timestamp record)).
  { intros record [<-|[<-|[<-|[]]]]; unfold DateTime.valid_time; cbn; lia. }
  assert (Hadv : fst (advertise CommunicationService.bgObjects b)
                 = inr (wire_summary (summary_of (Realm.objects (realm b))))).
  { rewrite (advertise_spec b eq_refl). reflexivity. }
  assert (Hpush : fst (getMissingDataFromRemote CommunicationService.bgObjects
                         (wire_summary (summary_of (Realm.objects (realm b)))) a)
                  = inr [Sample.recordA3; Sample.recordB]).
  { rewrite getMissingDataFromRemote_spec; [reflexivity| |reflexivity].
    apply summary_of_valid. intros record [<-|[]]. unfold DateTime.valid_time; cbn; lia. }
  eexists. split; [exact Hadv|]. split; [exact Hpush|].
  apply (push_round_covers_sender a b b' _ _
           eq_refl eq_refl eq_refl Hvalid Hadv Hpush).
  - intros record [<-|[]]. left. reflexivity.
  - intros record [<-|[<-|[]]]; cbn; auto.
Defined.

(** ** Summaries that are not of the expected form *)






(** ** Received records in the store *)

Section Received.
Context `{RealmCoercions}.




End Received.


Lemma find_id_None (id : ObjectId) (r : Realm.t) :
  Realm.find_id id r = None <-> ~ In id (List.map _id (Realm.objects r)).
Proof.
  unfold Realm.find_id. induction (Realm.objects r) as [|x l IH]; cbn.
  - tauto.
  - destruct (String.eqb_spec (_id x) id) as [Heq|Hne].
    + split; [discriminate|]. intros Hno. exfalso. apply Hno. left. exact Heq.
    + rewrite IH. tauto.
Qed.





(** ** Batches with objects that the store refuses *)

Section Refused.
Context `{RealmCoercions}.

Lemma insertIfAbsent_fails (v : JsVal) (r : Realm.t) (e : Error) :
  Realm.insertIfAbsent v r = inl e -> conforms v = false.
Proof.
  unfold conforms, Realm.insertIfAbsent, Realm.objectForPrimaryKey, Realm.create.
  destruct (Realm.cast v) as [o|] eqn:Hcast; [|reflexivity].
  rewrite (cast_key _ _ Hcast). destruct (Realm.find_id (_id o) r); discriminate.
Qed.

(** One call of [handleReceivedData]: the store is the ingested one, and
    at most one line is written, for an object that does not conform. *)
Lemma handleReceivedData_step (v : JsVal) (s : State) :
  exists logged : bool,
    CommunicationService.handleReceivedData v s
    = (inr tt,
       with_console (console s ++ (if logged then [(Err, "Realm write error")] else []))
         (with_realm (ingested v (realm s)) s))
    /\ (logged = true -> conforms v = false).
Proof.
  rewrite handleReceivedData_cases. unfold ingested.
  destruct (_ || _).
  - exists false. split; [|discriminate]. destruct s; cbn. rewrite app_nil_r. reflexivity.
  - destruct (Realm.insertIfAbsent v (realm s)) as [e|r] eqn:Hins.
    + exists true. split; [destruct s; reflexivity|]. intros _.
      exact (insertIfAbsent_fails _ _ _ Hins).
    + exists false. split; [|discriminate]. destruct s; cbn. rewrite app_nil_r. reflexivity.
Qed.

Lemma forEach_handleReceivedData_state (items : list JsVal) (s : State) :
  exists errors : nat,
    forEach CommunicationService.handleReceivedData items s
    = (inr tt,
       with_console (console s ++ repeat (Err, "Realm write error") errors)
         (with_realm (fold_left (fun r v => ingested v r) items (realm s)) s))
    /\ (errors <= length (List.filter (fun v => negb (conforms v)) items))%nat.
Proof.
  revert s. induction items as [|v items IH]; intros s.
  - exists 0%nat. split; [|cbn; lia]. destruct s; cbn. rewrite app_nil_r. reflexivity.
  - destruct (handleReceivedData_step v s) as (logged & Hstep & Hlogged).
    cbn [forEach fold_left List.filter]. unfold mbind, M_bind, bind. rewrite Hstep.
    destruct (IH (with_console (console s ++ (if logged then [(Err, "Realm write error")]
                                              else []))
                    (with_realm (ingested v (realm s)) s))) as (errors & Hrun & Hle).
    rewrite Hrun. cbn [console realm with_console with_realm].
    destruct logged.
    + exists (S errors). rewrite (Hlogged eq_refl). cbn [negb length].
      split; [|lia]. unfold with_console, with_realm. cbn.
      rewrite <- app_assoc. reflexivity.
    + exists errors. split.
      * unfold with_console, with_realm. cbn. rewrite app_nil_r. reflexivity.
      * destruct (negb (conforms v)); cbn [length]; lia.
Qed.

Lemma fold_ingested_conforming (items : list JsVal) (r : Realm.t) :
  fold_left (fun r v => ingested v r) items r
  = fold_left (fun r v => ingested v r) (List.filter conforms items) r.
Proof.
  revert r. induction items as [|v items IH]; intros r; [reflexivity|].
  cbn [fold_left List.filter]. unfold conforms at 1.
  destruct (Realm.cast v) eqn:Hcast; cbn [fold_left].
  - apply IH.
  - rewrite (ingested_refused _ _ Hcast). apply IH.
Qed.

End Refused.

(** X5.  A batch is ingested as if the objects that the store refuses
    were not in it ([CommunicationService.ts], one-shot service).  Whatever
    the received array holds and whatever the state, the [forEach] over
    [handleReceivedData] ends normally; the store it leaves is the store
    left by the objects of the batch that conform to the schema, taken
    alone; these write nothing to the console; the whole batch writes only
    [Realm write error] lines, at most one for each object that does not
    conform; and the flag, [deviceData] and the calls to the radio are what
    they were. *)
Theorem batch_ingestion_skips_refused_objects `{RealmCoercions} (items : list JsVal)
    (s : State) :
  let whole := forEach CommunicationService.handleReceivedData items s in
  let kept := forEach CommunicationService.handleReceivedData (List.filter conforms items) s in
  fst whole = inr tt
  /\ realm (snd whole) = realm (snd kept)
  /\ console (snd kept) = console s
  /\ (exists errors : nat,
         console (snd whole) = (console s ++ repeat (Err, "Realm write error") errors)%list
         /\ (errors <= length (List.filter (fun v => negb (conforms v)) items))%nat)
  /\ isScanning (snd whole) = isScanning s
  /\ localRealm (snd whole) = localRealm s
  /\ deviceData (snd whole) = deviceData s
  /\ radio (snd whole) = radio s.
Proof.
  intros whole kept. subst whole kept.
  destruct (forEach_handleReceivedData_state items s) as (errors & Hrun & Hle).
  destruct (forEach_handleReceivedData_state (List.filter conforms items) s)
    as (none & Hkept & Hnone).
  assert (none = 0%nat) as ->.
  { assert (List.filter (fun v => negb (conforms v)) (List.filter conforms items) = [])
      as Hempty.
    { clear. induction items as [|v items IH]; [reflexivity|]. cbn [List.filter].
      destruct (conforms v) eqn:Hv; [|exact IH]. cbn [List.filter]. rewrite Hv. exact IH. }
    rewrite Hempty in Hnone. cbn in Hnone. lia. }
  rewrite Hrun, Hkept. cbn [fst snd realm console isScanning localRealm deviceData radio
                             with_console with_realm].
  split; [reflexivity|]. split; [apply fold_ingested_conforming|].
  split; [apply app_nil_r|]. split; [eauto|]. repeat split.
Qed.

(** ** [updateDeviceData] when the write cannot be done *)

(** X6.  [updateDeviceData] assigns [this.deviceData] before it writes,
    and nothing catches a failed write.  In [CommunicationService.ts] and
    in [realm.ts], for every value and every state: [deviceData] holds the
    value afterwards, also when the call throws; a call that throws leaves
    the store as it was; with an open store held by the service the two
    behave alike, and the call throws as soon as the value does not
    conform to the schema and its key is not in the store.  With a closed
    store held by the service, [CommunicationService.ts] skips the write
    and returns, while [realm.ts], which does not look at [isClosed],
    throws the error of Realm. *)
Theorem updateDeviceData_assigns_before_writing `{RealmCoercions} (data : JsVal) (s : State) :
  let submitted := CommunicationService.updateDeviceData data s in
  let submitted' := RealmService.updateDeviceData data s in
  deviceData (snd submitted) = Some data
  /\ deviceData (snd submitted') = Some data
  /\ (forall e, fst submitted = inl e -> realm (snd submitted) = realm s)
  /\ (forall e, fst submitted' = inl e -> realm (snd submitted') = realm s)
  /\ (localRealm s = true -> Realm.isClosed (realm s) = false ->
      submitted = submitted'
      /\ (conforms data = false ->
          (forall id, Realm.asObjectId (Realm.prop data "_id") = Some id -> ~ stored id s) ->
          exists e, fst submitted = inl e))
  /\ (localRealm s = true -> Realm.isClosed (realm s) = true ->
      submitted = (inr tt, with_deviceData (Some data) s)
      /\ submitted' = (inl (JsError "Cannot access realm that has been closed"),
                       with_deviceData (Some data) s)).
Proof.
  intros submitted submitted'. subst submitted submitted'.
  unfold CommunicationService.updateDeviceData, RealmService.updateDeviceData, stored.
  unfold_M. unfold Realm.write.
  destruct s as [flag attached kept [closed objects] lines calls]. cbn.
  destruct attached, closed; cbn.
  - repeat split; try reflexivity; try discriminate.
  - destruct (Realm.insertIfAbsent data _) as [e|r] eqn:Hins; cbn.
    + repeat split; try reflexivity; try discriminate. eauto.
    + repeat split; try reflexivity; try discriminate.
      intros Hbad Hfresh. exfalso.
      destruct (insertIfAbsent_inv _ _ _ Hins) as [(_ & id & x & Hid & Hfind)|(o & Hcast & _)].
      * apply (Hfresh id Hid). cbn in Hfind. unfold Realm.find_id in *. cbn in *.
        rewrite Hfind. eauto.
      * unfold conforms in Hbad. rewrite Hcast in Hbad. discriminate.
  - repeat split; try reflexivity; try discriminate.
  - repeat split; try reflexivity; try discriminate.
Qed.

Lemma updateDeviceData_assigns_before_writing_witness :
  let s := with_realm {| Realm.isClosed := true; Realm.objects := [] |} Sample.attached in
  localRealm s = true
  /\ Realm.isClosed (realm s) = true
  /\ CommunicationService.updateDeviceData (H := Sample.strict_coercions)
       (toJS Sample.recordA) s
     = (inr tt, with_deviceData (Some (toJS Sample.recordA)) s)
  /\ fst (RealmService.updateDeviceData (H := Sample.strict_coercions)
            (toJS Sample.recordA) s)
     = inl (JsError "Cannot access realm that has been closed").
Proof.
  intros s. split; [reflexivity|]. split; [reflexivity|].
  destruct (updateDeviceData_assigns_before_writing (H := Sample.strict_coercions)
              (toJS Sample.recordA) s) as (_ & _ & _ & _ & _ & Hclosed).
  destruct (Hclosed eq_refl eq_refl) as [Hmain Hrealm].
  split; [exact Hmain|]. cbv zeta in Hrealm. rewrite Hrealm. reflexivity.
Defined.


(** ** What the scanner and its sessions never do to the store *)

Lemma preserves_modify (R : State -> State -> Prop) (f : State -> State) :
  (forall s, R s (f s)) -> preserves R (modify f).
Proof. intros Hf s. apply Hf. Qed.

#[global] Instance store_kept_refl : Reflexive store_kept.
Proof.
  intros s. repeat split; try reflexivity; [|auto].
  exists []. symmetry. apply app_nil_r.
Qed.

#[global] Instance store_kept_trans : Transitive store_kept.
Proof.
  intros s1 s2 s3 (Hl1 & Hd1 & Hc1 & (a1 & Ha1) & Hu1) (Hl2 & Hd2 & Hc2 & (a2 & Ha2) & Hu2).
  repeat split; try congruence; [|auto].
  exists (a1 ++ a2)%list. rewrite Ha2, Ha1, app_assoc. reflexivity.
Qed.

Lemma store_kept_same (s s' : State) :
  realm s' = realm s -> localRealm s' = localRealm s -> deviceData s' = deviceData s ->
  store_kept s s'.
Proof.
  intros Hr Hl Hd. unfold store_kept. rewrite Hr, Hl, Hd.
  repeat split; [|auto]. exists []. symmetry. apply app_nil_r.
Qed.

Section StoreKept.
Context `{RealmCoercions}.

Lemma insertIfAbsent_kept (v : JsVal) (r r' : Realm.t) :
  Realm.insertIfAbsent v r = inr r' ->
  Realm.isClosed r' = Realm.isClosed r
  /\ (exists added, Realm.objects r' = (Realm.objects r ++ added)%list)
  /\ (ids_unique r -> ids_unique r').
Proof.
  intros Hins. destruct (insertIfAbsent_extends _ _ _ Hins) as [Hclosed Hadded].
  split; [exact Hclosed|]. split; [exact Hadded|].
  destruct (insertIfAbsent_inv _ _ _ Hins) as [[-> _]|(o & _ & Hfresh & ->)]; [auto|].
  unfold ids_unique. cbn. intros Huniq. rewrite List.map_app. cbn.
  apply find_id_None in Hfresh.
  apply NoDup_ListNoDup. apply NoDup_ListNoDup in Huniq.
  apply List.NoDup_app; [exact Huniq | repeat constructor; intros [] |].
  intros id Hin [<-|[]]. exact (Hfresh Hin).
Qed.

Lemma store_kept_with_realm (s : State) (r : Realm.t) (lines : list (Level * string)) :
  Realm.isClosed r = Realm.isClosed (realm s) ->
  (exists added, Realm.objects r = (Realm.objects (realm s) ++ added)%list) ->
  (ids_unique (realm s) -> ids_unique r) ->
  store_kept s (with_console lines (with_realm r s)).
Proof. intros Hc Ha Hu. repeat split; assumption. Qed.

Lemma store_kept_handleReceivedData (v : JsVal) :
  preserves store_kept (CommunicationService.handleReceivedData v).
Proof.
  intros s. rewrite handleReceivedData_cases.
  destruct (_ || _); [reflexivity|].
  destruct (Realm.insertIfAbsent v (realm s)) as [e|r] eqn:Hins; cbn [snd].
  - apply store_kept_same; reflexivity.
  - destruct (insertIfAbsent_kept _ _ _ Hins) as (Hc & Ha & Hu).
    repeat split; assumption.
Qed.

Lemma store_kept_RealmService_handleReceivedData (v : JsVal) :
  preserves store_kept (RealmService.handleReceivedData v).
Proof.
  intros s. rewrite RealmService_handleReceivedData_cases.
  destruct (_ || _); [reflexivity|]. unfold Realm.write.
  destruct (Realm.isClosed (realm s)); [reflexivity|].
  destruct (Realm.insertIfAbsent v (realm s)) as [e|r] eqn:Hins; cbn [snd]; [reflexivity|].
  destruct (insertIfAbsent_kept _ _ _ Hins) as (Hc & Ha & Hu).
  repeat split; assumption.
Qed.

End StoreKept.

(** A walk through a computation for a relation that the primitive steps
    [prim] keep. *)
Ltac walk prim := repeat first [ preserves_step | prim ].

Ltac kept_prim :=
  first
    [ apply store_kept_handleReceivedData
    | apply store_kept_RealmService_handleReceivedData
    | apply (preserves_modify store_kept); intros ?; apply store_kept_same; reflexivity ].

Section StoreKeptServices.
Context `{RealmCoercions}.

Lemma store_kept_exchange (records : M (list DisasterData)) (ingest : JsVal -> M unit)
    (connected : M unit) (device : Ble.Device) :
  preserves store_kept records ->
  (forall v, preserves store_kept (ingest v)) ->
  preserves store_kept connected ->
  preserves store_kept (exchange records ingest connected device).
Proof.
  intros Hrecords Hingest Hconnected.
  unfold exchange, generateDataSummary, getMissingDataFromRemote.
  repeat first [ exact Hrecords | apply Hingest | exact Hconnected | preserves_step | kept_prim ].
Qed.

Lemma store_kept_startBleCommunication (adapter : Ble.Adapter) :
  preserves store_kept (CommunicationService.startBleCommunication adapter).
Proof. unfold CommunicationService.startBleCommunication. walk kept_prim. Qed.

Lemma store_kept_checkAndStartBleScan (adapter : Ble.Adapter) :
  preserves store_kept (RealmService.checkAndStartBleScan adapter).
Proof. unfold RealmService.checkAndStartBleScan. walk kept_prim. Qed.

Lemma store_kept_OneShot_startBleCommunication (adapter : Ble.Adapter) :
  preserves store_kept (OneShot.startBleCommunication adapter).
Proof. unfold OneShot.startBleCommunication. walk kept_prim. Qed.

Lemma store_kept_connectToDevice (adapter : Ble.Adapter) (device : Ble.Device) :
  preserves store_kept (CommunicationService.connectToDevice adapter device).
Proof.
  unfold CommunicationService.connectToDevice.
  apply (preserves_bind store_kept); [kept_prim | intros _].
  apply (preserves_try_finally store_kept).
  - apply (preserves_try_catch store_kept); [|intros e; kept_prim].
    apply store_kept_exchange; [|intros v; kept_prim|kept_prim].
    unfold CommunicationService.bgObjects. walk kept_prim.
  - repeat first [ apply store_kept_startBleCommunication | preserves_step | kept_prim ].
Qed.

Lemma store_kept_RealmService_connectToDevice (adapter : Ble.Adapter) (device : Ble.Device) :
  preserves store_kept (RealmService.connectToDevice adapter device).
Proof.
  unfold RealmService.connectToDevice.
  apply (preserves_bind store_kept); [kept_prim | intros _].
  apply (preserves_try_finally store_kept).
  - apply (preserves_try_catch store_kept); [|intros e; kept_prim].
    apply store_kept_exchange; [|intros v; kept_prim|apply (preserves_ret store_kept)].
    unfold RealmService.localObjects. walk kept_prim.
  - repeat first [ apply store_kept_checkAndStartBleScan | preserves_step | kept_prim ].
Qed.

Lemma store_kept_OneShot_connectToDevice (device : Ble.Device) :
  preserves store_kept (OneShot.connectToDevice device).
Proof.
  unfold OneShot.connectToDevice, OneShot.handleReceivedData.
  apply (preserves_bind store_kept); [kept_prim | intros _].
  apply (preserves_try_finally store_kept).
  - apply (preserves_try_catch store_kept); [|intros e; kept_prim].
    apply store_kept_exchange; [|intros v; kept_prim|kept_prim].
    unfold CommunicationService.bgObjects. walk kept_prim.
  - walk kept_prim.
Qed.

End StoreKeptServices.

Section StoreKeptScanner.
Context `{RealmCoercions}.

Lemma store_kept_deliver (listener : ScanResult -> M unit) (result : ScanResult) :
  preserves store_kept (listener result) -> preserves store_kept (deliver listener result).
Proof.
  intros Hlistener. unfold deliver. destruct result; [|exact Hlistener].
  apply (preserves_bind store_kept); [kept_prim | intros _; exact Hlistener].
Qed.

Ltac kept_session :=
  lazymatch goal with
  | |- preserves _ (CommunicationService.connectToDevice _ _) =>
      apply store_kept_connectToDevice
  | |- preserves _ (RealmService.connectToDevice _ _) =>
      apply store_kept_RealmService_connectToDevice
  | |- preserves _ (OneShot.connectToDevice _) =>
      apply store_kept_OneShot_connectToDevice
  end.

Lemma store_kept_scanListener (adapter : Ble.Adapter) (result : ScanResult) :
  preserves store_kept (CommunicationService.scanListener adapter result).
Proof.
  unfold CommunicationService.scanListener.
  repeat first [ preserves_step | kept_session | kept_prim ].
Qed.

Lemma store_kept_RealmService_scanListener (adapter : Ble.Adapter) (result : ScanResult) :
  preserves store_kept (RealmService.scanListener adapter result).
Proof.
  unfold RealmService.scanListener.
  repeat first [ preserves_step | kept_session | kept_prim ].
Qed.

Lemma store_kept_OneShot_scanListener (result : ScanResult) :
  preserves store_kept (OneShot.scanListener result).
Proof.
  unfold OneShot.scanListener.
  repeat first [ preserves_step | kept_session | kept_prim ].
Qed.

Lemma run_kept (sc : Scanner) (events : list ScannerEvent) (s : State) :
  (forall adapter, preserves store_kept (start sc adapter)) ->
  (forall adapter result, preserves store_kept (deliver (listener sc adapter) result)) ->
  store_kept s (run sc events s).
Proof.
  intros Hstart Hdeliver. unfold run. revert s.
  induction events as [|ev events IH]; intros s; cbn [fold_left]; [reflexivity|].
  etransitivity; [|apply IH].
  destruct ev as [adapter|adapter result]; cbn; [apply Hstart | apply Hdeliver].
Qed.

Lemma scanners_keep_the_store (events : list ScannerEvent) (s : State) :
  store_kept s (run CommunicationService_scanner events s)
  /\ store_kept s (run RealmService_scanner events s)
  /\ store_kept s (run OneShot_scanner events s).
Proof.
  split; [|split]; apply run_kept; cbn [start listener CommunicationService_scanner
                                         RealmService_scanner OneShot_scanner].
  - apply store_kept_startBleCommunication.
  - intros adapter result. apply store_kept_deliver, store_kept_scanListener.
  - apply store_kept_checkAndStartBleScan.
  - intros adapter result. apply store_kept_deliver, store_kept_RealmService_scanListener.
  - apply store_kept_OneShot_startBleCommunication.
  - intros adapter result. apply store_kept_deliver, store_kept_OneShot_scanListener.
Qed.

End StoreKeptScanner.

(** X7.  Scanning and sessions never lose or alter a stored record.
    Whatever calls to start scanning and deliveries of the radio follow
    one another (with the sessions they start, whatever the peers answer
    and push), in each of the three services: the objects that the store
    held are still there, unchanged and in place, before any object that
    was added; the store is open or closed as it was; primary keys that
    were unique are still unique; [this.localRealm] and [this.deviceData]
    are what they were. *)
Theorem scanning_never_loses_a_record `{RealmCoercions} (events : list ScannerEvent)
    (s : State) :
  forall sc, In sc scanners ->
    let s' := run sc events s in
    (exists added, Realm.objects (realm s') = (Realm.objects (realm s) ++ added)%list)
    /\ Realm.isClosed (realm s') = Realm.isClosed (realm s)
    /\ (ids_unique (realm s) -> ids_unique (realm s'))
    /\ localRealm s' = localRealm s
    /\ deviceData s' = deviceData s.
Proof.
  intros sc Hsc s'. subst s'.
  destruct (scanners_keep_the_store events s) as (H1 & H2 & H3).
  assert (Hkept : store_kept s (run sc events s)).
  { destruct Hsc as [<-|[<-|[<-|[]]]]; assumption. }
  destruct Hkept as (Hl & Hd & Hc & Ha & Hu). repeat split; assumption.
Qed.

Lemma scanning_never_loses_a_record_witness :
  let s := Sample.holding [Sample.recordA] in
  let s' := run (CommunicationService_scanner (H := Sample.wire_coercions))
              [StartCall Sample.powered;
               Delivery Sample.powered (Scanned (Some Sample.pushing_peer))] s in
  In (CommunicationService_scanner (H := Sample.wire_coercions))
     (scanners (H := Sample.wire_coercions))
  /\ Realm.objects (realm s') = [Sample.recordA; Sample.recordB]
  /\ exists added, Realm.objects (realm s') = (Realm.objects (realm s) ++ added)%list.
Proof.
  intros s s'.
  assert (Hin : In (CommunicationService_scanner (H := Sample.wire_coercions))
                   (scanners (H := Sample.wire_coercions))).
  { left. reflexivity. }
  split; [exact Hin|]. split; [vm_compute; reflexivity|].
  exact (proj1 (scanning_never_loses_a_record (H := Sample.wire_coercions)
                  [StartCall Sample.powered;
                   Delivery Sample.powered (Scanned (Some Sample.pushing_peer))] s _ Hin)).
Defined.

(** ** The summary over time *)

Lemma summary_of_grows (data added : list DisasterData) (origin : string)
    (e : Summary.entry) :
  summary_of data !! origin = Some e ->
  exists e', summary_of (data ++ added) !! origin = Some e'
             /\ Summary.timestamp e <= Summary.timestamp e'.
Proof.
  intros Hknown. unfold summary_of. rewrite fold_left_app.
  pose proof (fold_summary_step_latest added (summary_of data) origin) as Hlatest.
  unfold summary_of in *.
  destruct (fold_left summary_step added (fold_left summary_step data ∅) !! origin)
    as [e'|]; cbn in Hlatest.
  - exists e'. split; [reflexivity|]. destruct Hlatest as (_ & _ & Hge).
    exact (Hge e Hknown).
  - destruct Hlatest as [Hnone _]. congruence.
Qed.

(** X8.  The summary that a device advertises never regresses.  Take
    any sequence of calls to start scanning and of deliveries of the radio,
    in any of the three services, on an open store.  [generateDataSummary]
    succeeds before and after; every origin of the summary before is in the
    summary after, with a timestamp that is not older. *)
Theorem advertised_summary_never_regresses `{RealmCoercions}
    (events : list ScannerEvent) (s : State) :
  Realm.isClosed (realm s) = false ->
  forall sc, In sc scanners ->
    let s' := run sc events s in
    exists summary summary',
      generateDataSummary CommunicationService.bgObjects s = (inr summary, s)
      /\ generateDataSummary CommunicationService.bgObjects s' = (inr summary', s')
      /\ forall origin e,
           summary !! origin = Some e ->
           exists e', summary' !! origin = Some e'
                      /\ Summary.timestamp e <= Summary.timestamp e'.
Proof.
  intros Hopen sc Hsc s'. subst s'.
  destruct (scanners_keep_the_store events s) as (H1 & H2 & H3).
  assert (Hkept : store_kept s (run sc events s)).
  { destruct Hsc as [<-|[<-|[<-|[]]]]; assumption. }
  destruct Hkept as (_ & _ & Hc & (added & Ha) & _).
  exists (summary_of (Realm.objects (realm s))),
         (summary_of (Realm.objects (realm (run sc events s)))).
  unfold generateDataSummary, CommunicationService.bgObjects. unfold_M. unfold Realm.all.
  rewrite Hc, Hopen. split; [reflexivity|]. split; [reflexivity|].
  intros origin e Hknown. rewrite Ha. exact (summary_of_grows _ added origin e Hknown).
Qed.

Lemma advertised_summary_never_regresses_witness :
  let s := Sample.holding [Sample.recordA] in
  let sc := CommunicationService_scanner (H := Sample.wire_coercions) in
  let s' := run sc [StartCall Sample.powered;
                    Delivery Sample.powered (Scanned (Some Sample.pushing_peer))] s in
  Realm.isClosed (realm s) = false
  /\ In sc (scanners (H := Sample.wire_coercions))
  /\ exists summary summary',
       generateDataSummary CommunicationService.bgObjects s = (inr summary, s)
       /\ generateDataSummary CommunicationService.bgObjects s' = (inr summary', s')
       /\ forall origin e,
            summary !! origin = Some e ->
            exists e', summary' !! origin = Some e'
                       /\ Summary.timestamp e <= Summary.timestamp e'.
Proof.
  intros s sc s'.
  assert (Hin : In sc (scanners (H := Sample.wire_coercions))).
  { left. reflexivity. }
  split; [reflexivity|]. split; [exact Hin|].
  exact (advertised_summary_never_regresses (H := Sample.wire_coercions)
           [StartCall Sample.powered;
            Delivery Sample.powered (Scanned (Some Sample.pushing_peer))] s eq_refl sc Hin).
Defined.


(** ** Sessions that stop at the handshake *)

#[global] Instance nothing_exchanged_refl : Reflexive nothing_exchanged.
Proof.
  intros s. repeat split; try reflexivity.
  - exists []. symmetry. apply app_nil_r.
  - exists []. split; [symmetry; apply app_nil_r | reflexivity].
Qed.

#[global] Instance nothing_exchanged_trans : Transitive nothing_exchanged.
Proof.
  intros s1 s2 s3 (Hr1 & Hl1 & Hd1 & (l1 & Hc1) & (c1 & Ht1 & Hq1))
         (Hr2 & Hl2 & Hd2 & (l2 & Hc2) & (c2 & Ht2 & Hq2)).
  repeat split; try congruence.
  - exists (l1 ++ l2)%list. rewrite Hc2, Hc1, app_assoc. reflexivity.
  - exists (c1 ++ c2)%list. split; [rewrite Ht2, Ht1, app_assoc; reflexivity|].
    rewrite forallb_app, Hq1, Hq2. reflexivity.
Qed.

Lemma nothing_exchanged_console (s : State) (lines : list (Level * string)) :
  nothing_exchanged s (with_console (console s ++ lines) s).
Proof.
  repeat split; [eauto|]. exists []. split; [symmetry; apply app_nil_r | reflexivity].
Qed.

Lemma nothing_exchanged_flag (s : State) (b : bool) :
  nothing_exchanged s (with_isScanning b s).
Proof.
  repeat split.
  - exists []. symmetry. apply app_nil_r.
  - exists []. split; [symmetry; apply app_nil_r | reflexivity].
Qed.

Lemma nothing_exchanged_call (c : Ble.Call) :
  is_data_call c = false -> preserves nothing_exchanged (call c).
Proof.
  intros Hc s. repeat split.
  - exists []. symmetry. apply app_nil_r.
  - exists [c]. split; [reflexivity|]. cbn. rewrite Hc. reflexivity.
Qed.

Ltac quiet_prim :=
  first
    [ apply nothing_exchanged_call; reflexivity
    | apply (preserves_modify nothing_exchanged); intros ?;
      first [ apply nothing_exchanged_console | apply nothing_exchanged_flag ] ].

Section FailsWithin.
Context (R : State -> State -> Prop) `{!Reflexive R} `{!Transitive R}.

Lemma fails_within_throw {A} (e : Error) : fails_within R (@throw A e).
Proof. intros s. split; [reflexivity | eauto]. Qed.

Lemma fails_within_lift {A} (e : Error) : fails_within R (@lift A (inl e)).
Proof. intros s. split; [reflexivity | eauto]. Qed.

Lemma fails_within_settle (e : Error) : fails_within R (settle (Some e)).
Proof. intros s. split; [reflexivity | eauto]. Qed.

Lemma fails_within_bind {A B} (m : M A) (k : A -> M B) :
  fails_within R m -> fails_within R (m ≫= k).
Proof.
  intros Hm s. destruct (Hm s) as [HR [e He]]. unfold mbind, M_bind, bind.
  destruct (m s) as [[e'|a] s']; cbn in *; [eauto | discriminate].
Qed.

Lemma fails_within_then {A B} (m : M A) (k : A -> M B) :
  preserves R m -> (forall a, fails_within R (k a)) -> fails_within R (m ≫= k).
Proof.
  intros Hm Hk s. specialize (Hm s). unfold mbind, M_bind, bind.
  destruct (m s) as [[e|a] s']; cbn in *; [eauto|].
  destruct (Hk a s') as [HR He]. split; [etransitivity; eassumption | exact He].
Qed.

Lemma fails_within_lifted {A B} (a : A) (k : A -> M B) :
  fails_within R (k a) -> fails_within R (lift (inr a) ≫= k).
Proof. intros Hk s. exact (Hk s). Qed.

(** A [catch] that only logs turns a failure into a normal end. *)
Lemma fails_within_caught (body : M unit) (msg : string) (s : State) :
  fails_within R body ->
  (forall s0, R s0 (with_console (console s0 ++ [(Err, msg)]) s0)) ->
  let s' := snd (try_catch body (fun _ : Error => console_error msg) s) in
  R s s' /\ In (Err, msg) (console s').
Proof.
  intros Hbody Hlog. destruct (Hbody s) as [HR [e He]]. unfold try_catch.
  destruct (body s) as [[e'|[]] s1]; cbn in *; [|discriminate].
  split; [etransitivity; [exact HR | apply Hlog]|].
  apply List.in_app_iff. right. left. reflexivity.
Qed.

End FailsWithin.

Section Handshake.
Context `{RealmCoercions}.

Lemma exchange_stops_at_handshake (records : M (list DisasterData))
    (ingest : JsVal -> M unit) (connected : M unit) (device : Ble.Device) :
  handshake_fails device = true ->
  preserves nothing_exchanged records ->
  preserves nothing_exchanged connected ->
  fails_within nothing_exchanged (exchange records ingest connected device).
Proof.
  intros Hfails Hrecords Hconnected.
  unfold exchange, generateDataSummary. unfold handshake_fails in Hfails.
  assert (Hstep : forall (B : Type) (m : M unit) (k : unit -> M B),
             preserves nothing_exchanged m ->
             fails_within nothing_exchanged (k tt) ->
             fails_within nothing_exchanged (m ≫= k)).
  { intros B m k Hm Hk. apply (fails_within_then nothing_exchanged); [exact Hm|].
    intros []. exact Hk. }
  apply Hstep; [quiet_prim|].
  destruct (Ble.connect device) as [e|].
  { apply (fails_within_bind nothing_exchanged), (fails_within_settle nothing_exchanged). }
  apply Hstep; [apply (preserves_settle nothing_exchanged)|].
  apply Hstep; [quiet_prim|].
  destruct (Ble.discoverAllServicesAndCharacteristics device) as [e|].
  { apply (fails_within_bind nothing_exchanged), (fails_within_settle nothing_exchanged). }
  apply Hstep; [apply (preserves_settle nothing_exchanged)|].
  apply Hstep; [exact Hconnected|].
  apply (fails_within_then nothing_exchanged).
  { apply (preserves_bind nothing_exchanged); [exact Hrecords|].
    intros data. apply (preserves_ret nothing_exchanged). }
  intros localDataSummary.
  apply (fails_within_then nothing_exchanged); [apply (preserves_lift nothing_exchanged)|].
  intros localSummaryBase64.
  apply Hstep; [quiet_prim|].
  destruct (Ble.writeSummary device) as [e|[text|]].
  - apply (fails_within_bind nothing_exchanged), (fails_within_lift nothing_exchanged).
  - apply (fails_within_lifted nothing_exchanged).
    destruct text as [|c text]; [|discriminate].
    apply (fails_within_throw nothing_exchanged).
  - apply (fails_within_lifted nothing_exchanged), (fails_within_throw nothing_exchanged).
Qed.

End Handshake.

Lemma count_none (p : Ble.Call -> bool) (calls : list Ble.Call) :
  forallb (fun c => negb (p c)) calls = true -> Ble.count p calls = 0%nat.
Proof.
  unfold Ble.count. induction calls as [|c calls IH]; cbn; [reflexivity|].
  intros Hall. apply andb_prop in Hall as [Hc Hall].
  destruct (p c); [discriminate | exact (IH Hall)].
Qed.

Lemma session_stops_at_handshake (body final : M unit) (s : State) :
  fails_within nothing_exchanged body ->
  preserves nothing_exchanged final ->
  let s' := snd ((console_log "Attempting to connect...";;
                  try_finally
                    (try_catch body
                       (fun _ : Error => console_error "Gossip protocol connection failed:"))
                    final) s) in
  nothing_exchanged s s' /\ In (Err, "Gossip protocol connection failed:") (console s').
Proof.
  intros Hbody Hfinal. unfold mbind, M_bind, bind. cbn [console_log modify].
  set (s0 := with_console (console s ++ [(Log, "Attempting to connect...")]) s).
  assert (H0 : nothing_exchanged s s0) by apply nothing_exchanged_console.
  destruct (fails_within_caught nothing_exchanged body
              "Gossip protocol connection failed:" s0 Hbody)
    as [H1 Hlogged].
  { intros s1. apply nothing_exchanged_console. }
  unfold try_finally.
  destruct (try_catch body _ s0) as [r s1]. cbn [snd] in H1, Hlogged.
  specialize (Hfinal s1). destruct (final s1) as [[e|[]] s2]; cbn [snd] in *.
  - split; [etransitivity; [exact H0|]; etransitivity; eassumption|].
    destruct Hfinal as (_ & _ & _ & (lines & ->) & _).
    apply List.in_app_iff. left. exact Hlogged.
  - split; [etransitivity; [exact H0|]; etransitivity; eassumption|].
    destruct Hfinal as (_ & _ & _ & (lines & ->) & _).
    apply List.in_app_iff. left. exact Hlogged.
Qed.

Section HandshakeSessions.
Context `{RealmCoercions}.

Lemma nothing_exchanged_startBleCommunication (adapter : Ble.Adapter) :
  preserves nothing_exchanged (CommunicationService.startBleCommunication adapter).
Proof. unfold CommunicationService.startBleCommunication. walk quiet_prim. Qed.

Lemma nothing_exchanged_checkAndStartBleScan (adapter : Ble.Adapter) :
  preserves nothing_exchanged (RealmService.checkAndStartBleScan adapter).
Proof. unfold RealmService.checkAndStartBleScan. walk quiet_prim. Qed.

Lemma nothing_exchanged_bgObjects : preserves nothing_exchanged CommunicationService.bgObjects.
Proof. unfold CommunicationService.bgObjects. walk quiet_prim. Qed.

Lemma nothing_exchanged_localObjects : preserves nothing_exchanged RealmService.localObjects.
Proof. unfold RealmService.localObjects. walk quiet_prim. Qed.

Lemma sessions_stop_at_handshake (adapter : Ble.Adapter) (device : Ble.Device) (s : State) :
  handshake_fails device = true ->
  forall connectToDevice, In connectToDevice (sessions adapter) ->
    let s' := snd (connectToDevice device s) in
    nothing_exchanged s s' /\ In (Err, "Gossip protocol connection failed:") (console s').
Proof.
  intros Hfails connectToDevice [<-|[<-|[<-|[]]]].
  - apply session_stops_at_handshake.
    + apply exchange_stops_at_handshake;
        [exact Hfails | apply nothing_exchanged_bgObjects | quiet_prim].
    + repeat first [ apply nothing_exchanged_startBleCommunication
                   | preserves_step | quiet_prim ].
  - apply session_stops_at_handshake.
    + apply exchange_stops_at_handshake;
        [exact Hfails | apply nothing_exchanged_localObjects
        | apply (preserves_ret nothing_exchanged)].
    + repeat first [ apply nothing_exchanged_checkAndStartBleScan
                   | preserves_step | quiet_prim ].
  - apply session_stops_at_handshake.
    + apply exchange_stops_at_handshake;
        [exact Hfails | apply nothing_exchanged_bgObjects | quiet_prim].
    + walk quiet_prim.
Qed.

End HandshakeSessions.

(** X9.  A session that stops at the handshake exchanges nothing.  When
    the peer cannot be connected to, or its services cannot be discovered,
    or the write of the summary is rejected or comes back without a value,
    then in each of the three services [connectToDevice] logs
    [Gossip protocol connection failed:], makes no call on the data
    characteristic (no record is written to the peer, none is read from
    it), and leaves the store and [this.deviceData] as they were. *)
Theorem failed_handshake_exchanges_nothing `{RealmCoercions}
    (adapter : Ble.Adapter) (device : Ble.Device) (s : State) :
  handshake_fails device = true ->
  forall connectToDevice, In connectToDevice (sessions adapter) ->
    let s' := snd (connectToDevice device s) in
    realm s' = realm s
    /\ deviceData s' = deviceData s
    /\ Ble.count is_data_call (added s s') = 0%nat
    /\ In (Err, "Gossip protocol connection failed:") (console s').
Proof.
  intros Hfails connectToDevice Hin s'. subst s'.
  destruct (sessions_stop_at_handshake adapter device s Hfails connectToDevice Hin)
    as [(Hrealm & _ & Hdata & _ & (calls & Hradio & Hquiet)) Hlogged].
  split; [exact Hrealm|]. split; [exact Hdata|]. split; [|exact Hlogged].
  rewrite (added_app _ _ _ Hradio). exact (count_none _ _ Hquiet).
Qed.

Lemma failed_handshake_exchanges_nothing_witness :
  let s := Sample.holding [Sample.recordA] in
  let connectToDevice :=
    CommunicationService.connectToDevice (H := Sample.wire_coercions) Sample.powered in
  handshake_fails Sample.unreachable_peer = true
  /\ In connectToDevice (sessions (H := Sample.wire_coercions) Sample.powered)
  /\ realm (snd (connectToDevice Sample.unreachable_peer s)) = realm s
  /\ added s (snd (connectToDevice Sample.unreachable_peer s))
     = [Ble.Connect; Ble.CancelConnection; Ble.StartDeviceScan true].
Proof.
  intros s connectToDevice.
  assert (Hin : In connectToDevice (sessions (H := Sample.wire_coercions) Sample.powered)).
  { left. reflexivity. }
  split; [reflexivity|]. split; [exact Hin|].
  split; [|reflexivity].
  exact (proj1 (failed_handshake_exchanges_nothing (H := Sample.wire_coercions)
                  Sample.powered Sample.unreachable_peer s eq_refl connectToDevice Hin)).
Defined.


(** ** The calls of a session that passes the handshake *)







(** ** The scanner of [realm.ts] *)

(** X11.  A session of [realm.ts] and the scanner.  On every path
    through [connectToDevice] of [realm.ts], [cancelConnection] is called
    exactly once, after the calls of the exchange.  When it resolves, the
    flag is cleared and [checkAndStartBleScan] asks for the state of the
    adapter: [startDeviceScan] is called, once, exactly when the adapter is
    powered on, and the flag is then set (also when that call throws);
    otherwise no scan is started and the flag stays clear.  When the
    cancellation is rejected nothing of this is done: no scan is started
    and the flag is what it was. *)
Theorem RealmService_session_rearms_when_powered `{RealmCoercions}
    (adapter : Ble.Adapter) (device : Ble.Device) (s : State) :
  let s' := snd (RealmService.connectToDevice adapter device s) in
  Ble.count Ble.is_cancel (added s s') = 1%nat
  /\ (exists calls,
         forallb Ble.is_session_call calls = true
         /\ exists rest, added s s' = (calls ++ Ble.CancelConnection :: rest)%list
                         /\ Ble.count Ble.is_cancel rest = 0%nat)
  /\ match Ble.cancelConnection device with
     | None =>
         isScanning s' = Ble.powered_on adapter
         /\ Ble.count Ble.is_start (added s s') = (if Ble.powered_on adapter then 1 else 0)%nat
     | Some _ =>
         isScanning s' = isScanning s
         /\ Ble.count Ble.is_start (added s s') = 0%nat
     end.
Proof.
  intros s'. subst s'.
  pose proof (RealmService_connectToDevice_spec adapter device s) as Hspec.
  destruct (RealmService.connectToDevice adapter device s) as [outcome s']. cbn [snd].
  destruct Hspec as (calls & Hcalls & Hspec).
  destruct (Ble.cancelConnection device) as [e|].
  - destruct Hspec as [Hradio Hflag]. rewrite (added_app _ _ _ Hradio).
    rewrite !count_app, (count_cancel_session _ Hcalls), (count_start_session _ Hcalls).
    split; [reflexivity|]. split; [|split; [exact Hflag | reflexivity]].
    exists calls. split; [exact Hcalls|]. exists []. split; reflexivity.
  - destruct Hspec as [Hradio Hflag]. rewrite (added_app _ _ _ Hradio).
    rewrite !count_app, (count_cancel_session _ Hcalls), (count_start_session _ Hcalls).
    split; [destruct (Ble.powered_on adapter); reflexivity|].
    split; [|split; [exact Hflag | destruct (Ble.powered_on adapter); reflexivity]].
    exists calls. split; [exact Hcalls|]. eexists. split; [reflexivity|].
    destruct (Ble.powered_on adapter); reflexivity.
Qed.

(** ** A call of [startDeviceScan] that throws *)

Section FailedStart.
Context `{RealmCoercions}.

Lemma checkAndStartBleScan_busy (later : list Ble.Adapter) (s : State) :
  isScanning s = true ->
  let s' := run RealmService_scanner (List.map StartCall later) s in
  isScanning s' = true
  /\ Ble.count Ble.is_start (added s s') = 0%nat
  /\ Ble.activeScans (radio s') = Ble.activeScans (radio s).
Proof.
  revert s. induction later as [|adapter later IH]; intros s Hbusy; cbn zeta.
  - unfold run, added. cbn. rewrite drop_all. repeat split. exact Hbusy.
  - unfold run. cbn [List.map fold_left on_event start RealmService_scanner].
    destruct (checkAndStartBleScan_spec adapter s) as (_ & _ & Hscan).
    rewrite Hbusy, andb_false_r in Hscan. destruct Hscan as [Hradio Hflag].
    destruct (IH (snd (RealmService.checkAndStartBleScan adapter s)) Hflag)
      as (Hflag' & Hcount & Hscans).
    unfold run in *. split; [exact Hflag'|].
    set (s1 := snd (RealmService.checkAndStartBleScan adapter s)) in *.
    set (s2 := fold_left (on_event RealmService_scanner) (List.map StartCall later) s1) in *.
    assert (Hgrow : exists more, radio s2 = (radio s1 ++ more)%list /\ added s1 s2 = more).
    { clear. subst s2. generalize s1. clear s1.
      induction later as [|a later IH]; intros s1; cbn [List.map fold_left].
      - exists []. split; [symmetry; apply app_nil_r|].
        unfold added. apply drop_all.
      - cbn [on_event start RealmService_scanner].
        destruct (checkAndStartBleScan_spec a s1) as (_ & _ & Hscan).
        destruct (IH (snd (RealmService.checkAndStartBleScan a s1))) as (more & Hr & _).
        destruct (Ble.powered_on a && negb (isScanning s1)); destruct Hscan as [Hr1 _];
          rewrite Hr1, <- app_assoc in Hr; eexists; (split; [exact Hr|]);
          exact (added_app _ _ _ Hr). }
    destruct Hgrow as (more & Hr2 & Hadded). rewrite Hadded in Hcount.
    split.
    + assert (radio s2 = (radio s ++ Ble.ManagerState :: more)%list) as Hr.
      { rewrite Hr2, Hradio, <- app_assoc. reflexivity. }
      rewrite (added_app _ _ _ Hr). unfold Ble.count in *. cbn. exact Hcount.
    + rewrite Hscans, Hradio, activeScans_snoc. reflexivity.
Qed.

End FailedStart.

(** X12.  When [startDeviceScan] throws.  From rest, with an adapter that
    is powered on and a call of [startDeviceScan] that throws:
    [startBleCommunication] of [CommunicationService.ts] logs the error,
    clears the flag again and returns, so that the next call calls
    [startDeviceScan] again.  [checkAndStartBleScan] of [realm.ts] logs the
    error and returns too, but its [catch] leaves the flag set: no scan is
    running, and however many times [checkAndStartBleScan] is called
    afterwards, with whatever adapter, [startDeviceScan] is not called
    again and the flag stays set. *)
Theorem failed_start_is_retried_or_wedges `{RealmCoercions}
    (adapter : Ble.Adapter) (later : list Ble.Adapter) (s : State) :
  isScanning s = false ->
  Ble.powered_on adapter = true ->
  Ble.scan_starts adapter = false ->
  let tried := CommunicationService.startBleCommunication adapter s in
  let tried' := RealmService.checkAndStartBleScan adapter s in
  let later' := run RealmService_scanner (List.map StartCall later) (snd tried') in
  (fst tried = inr tt
   /\ isScanning (snd tried) = false
   /\ console (snd tried)
      = (console s ++ [(Err, "An error occurred during startDeviceScan:")])%list
   /\ Ble.activeScans (radio (snd tried)) = Ble.activeScans (radio s)
   /\ forall next,
        Ble.count Ble.is_start
          (added (snd tried) (snd (CommunicationService.startBleCommunication next (snd tried))))
        = 1%nat)
  /\ (fst tried' = inr tt
      /\ isScanning (snd tried') = true
      /\ console (snd tried') = (console s ++ [(Err, "Error checking Bluetooth state:")])%list
      /\ Ble.activeScans (radio (snd tried')) = Ble.activeScans (radio s)
      /\ isScanning later' = true
      /\ Ble.count Ble.is_start (added (snd tried') later') = 0%nat
      /\ Ble.activeScans (radio later') = Ble.activeScans (radio s)).
Proof.
  intros Hidle Hon Hthrows tried tried' later'. subst tried tried' later'.
  split.
  - destruct (startBleCommunication_idle adapter s Hidle) as (Hret & Hradio & Hflag & _).
    rewrite Hthrows in Hradio, Hflag.
    split; [exact Hret|]. split; [exact Hflag|].
    split.
    { unfold CommunicationService.startBleCommunication. unfold Ble.scan_starts in Hthrows.
      unfold_M. rewrite Hidle. destruct (Ble.startDeviceScan adapter); [reflexivity|discriminate]. }
    split; [rewrite Hradio, activeScans_snoc; reflexivity|].
    intros next.
    destruct (startBleCommunication_idle next _ Hflag) as (_ & Hradio' & _).
    rewrite (added_app _ _ _ Hradio'). reflexivity.
  - destruct (checkAndStartBleScan_spec adapter s) as (Hret & _ & Hscan).
    rewrite Hon, Hidle in Hscan. cbn in Hscan. destruct Hscan as [Hradio Hflag].
    rewrite Hthrows in Hradio.
    assert (Hscans : Ble.activeScans (radio (snd (RealmService.checkAndStartBleScan adapter s)))
                     = Ble.activeScans (radio s)).
    { rewrite Hradio, activeScans_app. reflexivity. }
    destruct (checkAndStartBleScan_busy later _ Hflag) as (Hflag' & Hcount & Hscans').
    split; [exact Hret|]. split; [exact Hflag|].
    split.
    { unfold RealmService.checkAndStartBleScan. unfold Ble.scan_starts in Hthrows.
      unfold Ble.powered_on in Hon. unfold_M. cbn.
      destruct (Ble.state adapter) as [e|state]; [discriminate|]. cbn. rewrite Hon. cbn.
      rewrite Hidle. cbn.
      destruct (Ble.startDeviceScan adapter); [reflexivity|discriminate]. }
    split; [exact Hscans|]. split; [exact Hflag'|]. split; [exact Hcount|].
    rewrite Hscans'. exact Hscans.
Qed.

Lemma failed_start_is_retried_or_wedges_witness :
  let adapter := {| Ble.state := inr "PoweredOn";
                    Ble.startDeviceScan := Some (BleError "BluetoothLE is unsupported") |} in
  let tried' := RealmService.checkAndStartBleScan adapter Sample.attached in
  isScanning Sample.attached = false
  /\ Ble.powered_on adapter = true
  /\ Ble.scan_starts adapter = false
  /\ isScanning (snd tried') = true
  /\ Ble.count Ble.is_start
       (added (snd tried')
          (run (RealmService_scanner (H := Sample.wire_coercions))
             (List.map StartCall [Sample.powered; Sample.powered]) (snd tried')))
     = 0%nat.
Proof.
  intros adapter tried'.
  split; [reflexivity|]. split; [reflexivity|]. split; [reflexivity|].
  destruct (failed_start_is_retried_or_wedges (H := Sample.wire_coercions)
              adapter [Sample.powered; Sample.powered] Sample.attached
              eq_refl eq_refl eq_refl) as (_ & _ & Hflag & _ & _ & _ & Hcount & _).
  split; [exact Hflag | exact Hcount].
Defined.


(** ** The background job and the beacons *)

Ltac unfold_B :=
  unfold Background.bind, Background.ret, Background.get, Background.modify,
    Background.try_catch, Background.detach, Background.beacon, Background.jobCall,
    Background.inService in *.

Lemma listeners_snoc (calls : list Background.BeaconCall) (c : Background.BeaconCall) :
  Background.listeners (calls ++ [c])
  = Background.listeners_step (Background.listeners calls) c.
Proof. unfold Background.listeners. rewrite fold_left_app. reflexivity. Qed.

Section Beacons.
Context `{RealmCoercions}.

(** The outcome of [startBeaconCommunication] of
    [CommunicationService.ts]: the service only sees its console change;
    a listener is added exactly when the beacons can be ranged and none is
    registered. *)
Lemma startBeaconCommunication_spec (env : Background.Env) (b : Background.t) :
  let b' := snd (Background.OfCommunicationService.startBeaconCommunication env b) in
  fst (Background.OfCommunicationService.startBeaconCommunication env b) = inr tt
  /\ Background.job b' = Background.job b
  /\ radio (Background.service b') = radio (Background.service b)
  /\ isScanning (Background.service b') = isScanning (Background.service b)
  /\ realm (Background.service b') = realm (Background.service b)
  /\ Background.beaconSubscription b'
     = (Background.beaconSubscription b || ranging_allowed env)
  /\ Background.listeners (Background.beacons b')
     = (Background.listeners (Background.beacons b)
        + if ranging_allowed env && negb (Background.beaconSubscription b) then 1 else 0)%nat.
Proof.
  unfold Background.OfCommunicationService.startBeaconCommunication, ranging_allowed.
  unfold mbind, mret, Background.B_bind, Background.B_ret. unfold_B. unfold_M.
  destruct b as [s sub calls jobs]. cbn -[Background.listeners].
  destruct (String.eqb (Background.os env) "android"), (Background.permission env) as [e|granted],
    (Background.startRanging env), sub;
    cbn -[Background.listeners];
    try destruct (String.eqb granted "granted"); cbn -[Background.listeners];
    rewrite ?listeners_snoc; cbn; repeat split; lia.
Qed.

End Beacons.

Section BackgroundSteps.
Context `{RealmCoercions}.

Lemma startBeaconCommunication_inv (env : Background.Env) (b : Background.t) :
  listener_inv b ->
  listener_inv (snd (Background.OfCommunicationService.startBeaconCommunication env b)).
Proof.
  unfold listener_inv. intros Hinv.
  destruct (startBeaconCommunication_spec env b) as (_ & _ & _ & _ & _ & Hsub & Hcount).
  cbv zeta in Hsub, Hcount. rewrite Hsub, Hcount, Hinv.
  destruct (Background.beaconSubscription b), (ranging_allowed env); reflexivity.
Qed.

(** A computation of the service leaves the beacons and the job alone. *)
Lemma inService_frame {A} (m : M A) (b : Background.t) :
  Background.inService m b
  = (fst (m (Background.service b)),
     Background.with_service (snd (m (Background.service b))) b).
Proof. unfold Background.inService. destruct (m (Background.service b)); reflexivity. Qed.

Lemma startBleCommunication_realm (adapter : Ble.Adapter) (s : State) :
  realm (snd (CommunicationService.startBleCommunication adapter s)) = realm s.
Proof.
  destruct (isScanning s) eqn:Hflag.
  - rewrite (startBleCommunication_busy adapter s Hflag). reflexivity.
  - apply (startBleCommunication_idle adapter s Hflag).
Qed.

Lemma loopTurn_spec (adapter : Ble.Adapter) (env : Background.Env) (b : Background.t) :
  let b' := snd (Background.OfCommunicationService.loopTurn adapter env b) in
  fst (Background.OfCommunicationService.loopTurn adapter env b) = inr tt
  /\ Background.job b' = Background.job b
  /\ realm (Background.service b') = realm (Background.service b)
  /\ (if Ble.powered_on adapter
      then Background.beaconSubscription b'
           = (Background.beaconSubscription b || ranging_allowed env)
           /\ Background.listeners (Background.beacons b')
              = (Background.listeners (Background.beacons b)
                 + if ranging_allowed env && negb (Background.beaconSubscription b)
                   then 1 else 0)%nat
      else Background.beaconSubscription b' = Background.beaconSubscription b
           /\ Background.beacons b' = Background.beacons b)
  /\ radio (Background.service b')
     = radio (snd (CommunicationService.loopIteration adapter (Background.service b)))
  /\ isScanning (Background.service b')
     = isScanning (snd (CommunicationService.loopIteration adapter (Background.service b))).
Proof.
  unfold Background.OfCommunicationService.loopTurn, CommunicationService.loopIteration,
    Ble.powered_on.
  unfold mbind, mret, Background.B_bind, Background.B_ret, M_bind, M_ret.
  unfold Background.bind at 1 2 3, Background.try_catch, Background.detach.
  rewrite !inService_frame. unfold_M. cbn [fst snd].
  destruct b as [s sub calls jobs].
  destruct (Ble.state adapter) as [e|state]; cbn.
  { repeat split. }
  destruct (String.eqb state "PoweredOn"); cbn; [|repeat split].
  rewrite inService_frame.
  match goal with
  | |- context [Background.OfCommunicationService.startBeaconCommunication env ?b1] =>
      destruct (startBeaconCommunication_spec env b1)
        as (_ & Hjob & Hradio & Hflag & Hrealm & Hsub & Hcount)
  end.
  cbv zeta in Hjob, Hradio, Hflag, Hrealm, Hsub, Hcount.
  cbn -[CommunicationService.startBleCommunication
        Background.OfCommunicationService.startBeaconCommunication
        Background.listeners ranging_allowed] in *.
  rewrite Hjob, Hradio, Hflag, Hrealm, Hsub, Hcount, startBleCommunication_realm.
  repeat split.
Qed.

Lemma taskWake_spec (adapter : Ble.Adapter) (env : Background.Env) (b : Background.t) :
  Background.OfCommunicationService.taskWake adapter env b
  = if Background.isRunning (Background.job b)
    then Background.OfCommunicationService.loopTurn adapter env b
    else if Realm.isClosed (realm (Background.service b))
         then (inr tt, b)
         else (inr tt,
               Background.with_service
                 (with_realm {| Realm.isClosed := true;
                                Realm.objects :=
                                  Realm.objects (realm (Background.service b)) |}
                    (Background.service b)) b).
Proof.
  unfold Background.OfCommunicationService.taskWake.
  unfold mbind, mret, Background.B_bind, Background.B_ret.
  unfold Background.bind at 1, Background.get at 1.
  destruct (Background.isRunning (Background.job b)); [reflexivity|].
  destruct (Realm.isClosed (realm (Background.service b))); reflexivity.
Qed.

Lemma stopBackgroundCommunication_spec (b : Background.t) :
  Background.OfCommunicationService.stopBackgroundCommunication b
  = (inr tt,
     {| Background.service :=
          with_isScanning false
            (with_radio (radio (Background.service b) ++ [Ble.StopDeviceScan])
               (with_console
                  (console (Background.service b)
                   ++ [(Log, "Stopping background communication service.")])
                  (Background.service b)));
        Background.beaconSubscription := false;
        Background.beacons :=
          (Background.beacons b
           ++ (if Background.beaconSubscription b then [Background.RemoveListener] else [])
           ++ [Background.StopRanging])%list;
        Background.job := (Background.job b ++ [Background.JobStop])%list |}).
Proof.
  unfold Background.OfCommunicationService.stopBackgroundCommunication.
  unfold mbind, mret, Background.B_bind, Background.B_ret. unfold_B. unfold_M.
  destruct b as [s sub calls jobs]. destruct sub; cbv -[app]; rewrite <- ?app_assoc; reflexivity.
Qed.

Lemma startBackgroundCommunication_spec (b : Background.t) :
  Background.OfCommunicationService.startBackgroundCommunication b
  = (inr tt,
     Background.with_job (Background.job b ++ [Background.JobStart])
       (Background.with_service
          (with_console (console (Background.service b)
                         ++ [(Log, "Starting background communication service.")])
             (Background.service b)) b)).
Proof.
  unfold Background.OfCommunicationService.startBackgroundCommunication.
  unfold mbind, mret, Background.B_bind, Background.B_ret. unfold_B. unfold_M.
  destruct b as [s sub calls jobs]. reflexivity.
Qed.

Lemma background_step_inv (b : Background.t) (ev : BackgroundEvent) :
  listener_inv b -> listener_inv (background_step b ev).
Proof.
  intros Hinv. destruct ev as [| |adapter env]; unfold background_step.
  - rewrite startBackgroundCommunication_spec. exact Hinv.
  - rewrite stopBackgroundCommunication_spec. unfold listener_inv in *.
    cbn [snd Background.beacons Background.beaconSubscription].
    rewrite app_assoc, listeners_snoc. cbn [Background.listeners_step].
    destruct (Background.beaconSubscription b).
    + rewrite listeners_snoc, Hinv. reflexivity.
    + rewrite app_nil_r. exact Hinv.
  - rewrite taskWake_spec. destruct (Background.isRunning (Background.job b)).
    + destruct (loopTurn_spec adapter env b) as (_ & _ & _ & Hbeacons & _).
      cbv zeta in Hbeacons. unfold listener_inv in *.
      destruct (Ble.powered_on adapter); destruct Hbeacons as [Hsub Hcount].
      * rewrite Hsub, Hcount, Hinv.
        destruct (Background.beaconSubscription b), (ranging_allowed env); reflexivity.
      * rewrite Hsub, Hcount. exact Hinv.
    + destruct (Realm.isClosed (realm (Background.service b))); exact Hinv.
Qed.

Lemma background_run_inv (events : list BackgroundEvent) (b : Background.t) :
  listener_inv b -> listener_inv (background_run events b).
Proof.
  unfold background_run. revert b.
  induction events as [|ev events IH]; intros b Hinv; cbn [fold_left]; [exact Hinv|].
  apply IH, background_step_inv, Hinv.
Qed.

End BackgroundSteps.

Section EmbeddedSteps.
Context `{RealmCoercions}.

(** [startBeaconCommunication] of [realm.ts] adds a listener every time
    the beacons can be ranged. *)
Lemma RealmService_startBeaconCommunication_spec (env : Background.Env) (b : Background.t) :
  let b' := snd (Background.OfRealmService.startBeaconCommunication env b) in
  fst (Background.OfRealmService.startBeaconCommunication env b) = inr tt
  /\ Background.job b' = Background.job b
  /\ Background.beaconSubscription b' = Background.beaconSubscription b
  /\ radio (Background.service b') = radio (Background.service b)
  /\ isScanning (Background.service b') = isScanning (Background.service b)
  /\ realm (Background.service b') = realm (Background.service b)
  /\ Background.listeners (Background.beacons b')
     = (Background.listeners (Background.beacons b)
        + if ranging_allowed env then 1 else 0)%nat.
Proof.
  unfold Background.OfRealmService.startBeaconCommunication, ranging_allowed.
  unfold mbind, mret, Background.B_bind, Background.B_ret. unfold_B. unfold_M.
  destruct b as [s sub calls jobs]. cbn -[Background.listeners].
  destruct (String.eqb (Background.os env) "android"), (Background.permission env) as [e|granted],
    (Background.startRanging env);
    cbn -[Background.listeners];
    try destruct (String.eqb granted "granted"); cbn -[Background.listeners];
    rewrite ?listeners_snoc; cbn -[Background.listeners];
    rewrite ?listeners_snoc; cbn -[Background.listeners];
    rewrite ?listeners_snoc; cbn -[Background.listeners];
    repeat split; lia.
Qed.

Lemma tick_spec (adapter : Ble.Adapter) (env : Background.Env) (b : Background.t) :
  let b' := snd (Background.OfRealmService.tick adapter env b) in
  fst (Background.OfRealmService.tick adapter env b) = inr tt
  /\ Background.job b' = Background.job b
  /\ Background.beaconSubscription b' = Background.beaconSubscription b
  /\ realm (Background.service b') = realm (Background.service b)
  /\ Background.listeners (Background.beacons b')
     = (Background.listeners (Background.beacons b)
        + if ranging_allowed env then 1 else 0)%nat
  /\ (if Ble.powered_on adapter && negb (isScanning (Background.service b))
      then radio (Background.service b')
           = (radio (Background.service b)
              ++ [Ble.ManagerState; Ble.StartDeviceScan (Ble.scan_starts adapter)])%list
           /\ isScanning (Background.service b') = true
      else radio (Background.service b')
           = (radio (Background.service b) ++ [Ble.ManagerState])%list
           /\ isScanning (Background.service b') = isScanning (Background.service b)).
Proof.
  unfold Background.OfRealmService.tick.
  unfold mbind, mret, Background.B_bind, Background.B_ret.
  unfold Background.bind, Background.detach.
  rewrite !inService_frame. cbn [fst snd].
  match goal with
  | |- context [Background.OfRealmService.startBeaconCommunication env ?b1] =>
      destruct (RealmService_startBeaconCommunication_spec env b1)
        as (_ & Hjob & Hsub & Hradio & Hflag & Hrealm & Hcount)
  end.
  cbv zeta in Hjob, Hsub, Hradio, Hflag, Hrealm, Hcount.
  match goal with
  | |- context [RealmService.checkAndStartBleScan adapter ?s1] =>
      destruct (checkAndStartBleScan_spec adapter s1) as (_ & Hrealm1 & Hscan)
  end.
  destruct b as [s sub calls jobs].
  cbn -[RealmService.checkAndStartBleScan Background.OfRealmService.startBeaconCommunication
        Background.listeners ranging_allowed Ble.powered_on Ble.scan_starts] in *.
  rewrite Hjob, Hsub, Hradio, Hflag, Hrealm, Hcount, Hrealm1.
  split; [reflexivity|]. split; [reflexivity|]. split; [reflexivity|].
  split; [reflexivity|]. split; [reflexivity|]. exact Hscan.
Qed.

Lemma RealmService_stopBackgroundCommunication_spec (b : Background.t) :
  Background.OfRealmService.stopBackgroundCommunication b
  = (inr tt,
     {| Background.service :=
          (let logged :=
             with_console
               (console (Background.service b)
                ++ [(Log, "Stopping background communication service.")])
               (Background.service b) in
           if isScanning (Background.service b)
           then with_isScanning false
                  (with_radio (radio (Background.service b) ++ [Ble.StopDeviceScan]) logged)
           else logged);
        Background.beaconSubscription := Background.beaconSubscription b;
        Background.beacons := (Background.beacons b ++ [Background.StopRanging])%list;
        Background.job := (Background.job b ++ [Background.JobStop])%list |}).
Proof.
  unfold Background.OfRealmService.stopBackgroundCommunication.
  unfold mbind, mret, Background.B_bind, Background.B_ret. unfold_B. unfold_M.
  destruct b as [[flag attached kept store lines calls] sub beacons jobs].
  destruct flag; reflexivity.
Qed.

Lemma RealmService_startBackgroundCommunication_spec (b : Background.t) :
  Background.OfRealmService.startBackgroundCommunication b
  = (inr tt,
     Background.with_job (Background.job b ++ [Background.JobStart])
       (Background.with_service
          (with_console (console (Background.service b)
                         ++ [(Log, "Starting background communication service.")])
             (with_localRealm true (Background.service b))) b)).
Proof.
  unfold Background.OfRealmService.startBackgroundCommunication,
    RealmService.startBackgroundCommunication.
  unfold mbind, mret, Background.B_bind, Background.B_ret, M_bind, M_ret. unfold_B. unfold_M.
  destruct b as [s sub calls jobs]. reflexivity.
Qed.

Lemma embedded_run_listeners (events : list BackgroundEvent) (b : Background.t) :
  Background.listeners (Background.beacons (embedded_run events b))
  = (Background.listeners (Background.beacons b) + rangings events)%nat.
Proof.
  unfold embedded_run. revert b.
  induction events as [|ev events IH]; intros b; cbn [fold_left rangings]; [lia|].
  rewrite IH. destruct ev as [| |adapter env]; unfold embedded_step.
  - rewrite RealmService_startBackgroundCommunication_spec. reflexivity.
  - rewrite RealmService_stopBackgroundCommunication_spec.
    cbn [snd Background.beacons]. rewrite listeners_snoc. reflexivity.
  - destruct (tick_spec adapter env b) as (_ & _ & _ & _ & Hcount & _).
    cbv zeta in Hcount. rewrite Hcount. lia.
Qed.

End EmbeddedSteps.

(** X13.  The listener of [beaconsDidRange].  In
    [CommunicationService.ts], whatever the sequence of starts, stops and
    wake-ups of the background task and whatever the platform answers,
    from a state where one listener is registered exactly when
    [this.beaconSubscription] is set: at most one listener is registered,
    one exactly when [this.beaconSubscription] is set, and none once
    [stopBackgroundCommunication] has run.  In [realm.ts] the same events
    leave one more listener for every tick at which the beacons can be
    ranged, and [stopBackgroundCommunication] removes none. *)
Theorem beacon_listener_is_registered_once
    (events : list BackgroundEvent) (b : Background.t) :
  listener_inv b ->
  let b' := background_run events b in
  (Background.listeners (Background.beacons b') <= 1)%nat
  /\ (Background.beaconSubscription b' = true
      <-> Background.listeners (Background.beacons b') = 1%nat)
  /\ Background.listeners (Background.beacons (background_step b' Stopped)) = 0%nat
  /\ Background.listeners (Background.beacons (embedded_run events b))
     = (Background.listeners (Background.beacons b) + rangings events)%nat.
Proof.
  intros Hinv b'. subst b'.
  pose proof (background_run_inv events b Hinv) as Hrun.
  pose proof (background_step_inv _ Stopped Hrun) as Hstop.
  unfold listener_inv in Hrun, Hstop.
  split; [rewrite Hrun; destruct (Background.beaconSubscription _); lia|].
  split.
  { rewrite Hrun. destruct (Background.beaconSubscription _); split; congruence. }
  split; [|apply embedded_run_listeners].
  rewrite Hstop. unfold background_step. rewrite stopBackgroundCommunication_spec. reflexivity.
Qed.

Lemma beacon_listener_is_registered_once_witness :
  let env := {| Background.os := "android"; Background.permission := inr "granted";
                Background.startRanging := None |} in
  let events := [Started; Woken Sample.powered env; Woken Sample.powered env] in
  let b := fresh Sample.idle in
  listener_inv b
  /\ Background.listeners
       (Background.beacons (background_run events b)) = 1%nat
  /\ Background.listeners
       (Background.beacons (embedded_run events b)) = 2%nat.
Proof.
  intros env events b.
  assert (Hinv : listener_inv b) by reflexivity.
  split; [exact Hinv|].
  destruct (beacon_listener_is_registered_once events b Hinv)
    as (_ & Hsub & _ & Hembedded).
  split; [apply Hsub; reflexivity | exact Hembedded].
Defined.


(** ** Stopping the service, and the turns of the loop *)

Lemma isRunning_snoc (calls : list Background.JobCall) (c : Background.JobCall) :
  Background.isRunning (calls ++ [c])
  = match c with Background.JobStart => true | Background.JobStop => false end.
Proof. unfold Background.isRunning. rewrite last_snoc. destruct c; reflexivity. Qed.

Section Turns.
Context `{RealmCoercions}.


End Turns.





(** ** The application *)

Lemma RealmService_updateDeviceData_detached `{RealmCoercions} (data : JsVal) (s : State) :
  localRealm s = false ->
  RealmService.updateDeviceData data s = (inr tt, with_deviceData (Some data) s).
Proof.
  intros Hfresh. unfold RealmService.updateDeviceData. unfold_M.
  destruct s as [flag attached kept store lines calls]. cbn in *. rewrite Hfresh. reflexivity.
Qed.

(** X16.  [startCommsService] of [AppContent].  As long as a reading is
    missing (no position, no battery status, no or an empty device id) it
    only sets the status message.  With all readings, on a service that
    holds no store yet, it ends normally and marks the service as running:
    [updateDeviceData] runs before [startBackgroundCommunication] has
    given the store to the service, so the collected record is kept in
    [this.deviceData] and the store is left as it was; the service holds
    the store and the job is started afterwards.  Called once more (the
    store open, the new id not in it), it appends the record of that
    call. *)
Theorem first_record_of_the_app_is_not_stored `{RealmCoercions}
    (readings : App.Readings) (id : ObjectId) (now : Date) (app : App.t) :
  let after := App.startCommsService readings id now app in
  ((App.gpsLocation readings = None \/ App.deviceId readings = None
    \/ App.deviceId readings = Some EmptyString \/ App.batteryStatus readings = None) ->
   fst after = inr tt
   /\ App.comms (snd after) = App.comms app
   /\ App.isServiceRunning (snd after) = App.isServiceRunning app)
  /\ (forall lat lon origin level state,
        readings = {| App.gpsLocation := Some (lat, lon); App.deviceId := Some origin;
                      App.batteryStatus := Some (level, state) |} ->
        origin <> EmptyString ->
        localRealm (Background.service (App.comms app)) = false ->
        let record := Build_DisasterData id origin lat lon level state now in
        let service := Background.service (App.comms (snd after)) in
        fst after = inr tt
        /\ App.isServiceRunning (snd after) = true
        /\ realm service = realm (Background.service (App.comms app))
        /\ deviceData service = Some (toJS record)
        /\ localRealm service = true
        /\ Background.isRunning (Background.job (App.comms (snd after))) = true
        /\ (forall id' now',
              Realm.isClosed (realm service) = false -> ~ stored id' service ->
              Realm.objects
                (realm (Background.service
                          (App.comms
                             (snd (App.startCommsService readings id' now' (snd after))))))
              = (Realm.objects (realm service)
                 ++ [Build_DisasterData id' origin lat lon level state now'])%list)).
Proof.
  intros after. subst after. split.
  - unfold App.startCommsService.
    destruct readings as [[[lat lon]|] [origin|] [[level state]|]]; cbn;
      intros [Hgps|[Horigin|[Horigin|Hbattery]]]; try discriminate; try (repeat split; fail).
    injection Horigin as ->. repeat split.
  - intros lat lon origin level state -> Horigin Hfresh record service.
    subst record service. unfold App.startCommsService. cbn [App.gpsLocation App.deviceId
                                                             App.batteryStatus].
    destruct (String.eqb_spec origin "") as [Heq|_]; [contradiction|].
    destruct app as [[s sub calls jobs] running message].
    cbn [App.comms Background.service] in Hfresh.
    unfold Background.bind. rewrite !inService_frame.
    cbn [App.comms Background.service fst snd].
    rewrite (RealmService_updateDeviceData_detached _ s Hfresh).
    cbn [fst snd].
    rewrite RealmService_startBackgroundCommunication_spec.
    cbn [fst snd App.comms App.isServiceRunning Background.service Background.with_job
         Background.with_service Background.job realm deviceData localRealm with_console
         with_localRealm with_deviceData].
    rewrite isRunning_snoc.
    split; [reflexivity|]. split; [reflexivity|]. split; [reflexivity|].
    split; [reflexivity|]. split; [reflexivity|]. split; [reflexivity|].
    intros id' now' Hopen Hnew.
    rewrite !inService_frame.
    cbn [App.comms Background.service fst snd Background.beaconSubscription
         Background.beacons Background.job].
    match goal with
    | |- context [RealmService.updateDeviceData ?data ?s1] =>
        destruct (updateDeviceData_cases
                    (Build_DisasterData id' origin lat lon level state now') s1 Hopen)
          as [_ Hstore]
    end.
    rewrite Hstore. cbn [localRealm with_console with_localRealm with_deviceData fst snd].
    rewrite RealmService_startBackgroundCommunication_spec.
    cbn [fst snd App.comms Background.service Background.with_job Background.with_service
         realm with_console with_localRealm with_deviceData with_realm].
    unfold stored in Hnew. cbn [realm with_console with_localRealm with_deviceData] in Hnew.
    cbn [_id].
    destruct (Realm.find_id id' (realm s)) as [x|]; [exfalso; apply Hnew; eauto|].
    reflexivity.
Qed.

Lemma first_record_of_the_app_is_not_stored_witness :
  let readings := {| App.gpsLocation := Some ("48.8566", "2.3522");
                     App.deviceId := Some "A";
                     App.batteryStatus := Some ("30%", "unplugged") |} in
  let app := {| App.comms := fresh Sample.idle; App.isServiceRunning := false;
                App.statusMessage := "Awaiting data..." |} in
  let after := App.startCommsService (H := Sample.strict_coercions) readings
                 "65a1f0c2b7e4d3a291c0ffee" 100 app in
  localRealm (Background.service (App.comms app)) = false
  /\ Realm.objects (realm (Background.service (App.comms (snd after)))) = []
  /\ deviceData (Background.service (App.comms (snd after))) = Some (toJS Sample.recordA)
  /\ Realm.objects
       (realm (Background.service
                 (App.comms (snd (App.startCommsService (H := Sample.strict_coercions)
                                    readings "65a1f0c2b7e4d3a291c0ffed" 300 (snd after))))))
     = [Build_DisasterData "65a1f0c2b7e4d3a291c0ffed" "A" "48.8566" "2.3522" "30%"
          "unplugged" 300].
Proof.
  intros readings app after. subst after. split; [reflexivity|].
  destruct (first_record_of_the_app_is_not_stored (H := Sample.strict_coercions)
              readings "65a1f0c2b7e4d3a291c0ffee" 100 app) as [_ Hfull].
  destruct (Hfull "48.8566" "2.3522" "A" "30%" "unplugged" eq_refl ltac:(discriminate) eq_refl)
    as (_ & _ & Hrealm & Hdata & _ & _ & Hagain).
  cbv zeta in Hrealm, Hdata, Hagain.
  split; [rewrite Hrealm; reflexivity|]. split; [exact Hdata|].
  rewrite (Hagain "65a1f0c2b7e4d3a291c0ffed" 300); [reflexivity | reflexivity |].
  intros [x Hx]. discriminate.
Defined.
